(** * LogoMaster Pro: the logo compositor [ImageProcessor.apply_logo]

    A shallow embedding of [src/image_processor.py] (class [ImageProcessor],
    method [apply_logo]) and of the tables of [src/config.py] it reads
    ([IMAGE_CONFIG], [LOGO_POSITIONS]).

    - Python [float] is IEEE-754 binary64, embedded through the Standard
      Library's executable specification [SpecFloat] (precision 53,
      [emax] 1024); [int] is [Z].
    - PIL images are mutable objects: they live in a store indexed by
      object references, [copy]/[resize]/[convert] allocate, [putalpha]
      and [paste] update in place.
    - [try: ... except Exception] is an error monad over that store; the
      logger is a list of entries in the same state. *)

From Stdlib Require Import ZArith Lia Bool Floats.SpecFloat.
From stdpp Require Import base option list strings gmap.
From Stdlib Require Import Ascii DecimalString.

Open Scope Z_scope.

(** ** Python numbers *)

Module Py.

(** The exceptions of the model; [ReferenceError] stands for a reference
    that is not in the store, which Python cannot produce. *)
Inductive exn :=
| ValueError
| ZeroDivisionError
| OverflowError
| KeyError
| ReferenceError.

Inductive result (A : Type) :=
| Ok (a : A)
| Raise (e : exn).
Arguments Ok {A} a.
Arguments Raise {A} e.

Definition rbind {A B} (r : result A) (k : A -> result B) : result B :=
  match r with
  | Ok a => k a
  | Raise e => Raise e
  end.

Definition prec : Z := 53.
Definition emax : Z := 1024.

Definition float := spec_float.

(** An [int] seen as an (unnormalised) binary float with exponent 0. *)
Definition int_as_sf (n : Z) : float :=
  match n with
  | Z0 => S754_zero false
  | Zpos p => S754_finite false p 0
  | Zneg p => S754_finite true p 0
  end.

(** [float(n)]: round to nearest even, [OverflowError] past the range. *)
Definition int_to_float (n : Z) : result float :=
  match binary_normalize prec emax n 0 false with
  | S754_infinity _ => Raise OverflowError
  | f => Ok f
  end.

(** [a / b] on two [int]s: the correctly rounded quotient. *)
Definition true_div (a b : Z) : result float :=
  if b =? 0 then Raise ZeroDivisionError
  else match SFdiv prec emax (int_as_sf a) (int_as_sf b) with
       | S754_infinity _ => Raise OverflowError
       | f => Ok f
       end.

(** [n * f] with [n] an [int] and [f] a [float]: [n] is converted. *)
Definition int_mul_float (n : Z) (f : float) : result float :=
  rbind (int_to_float n) (fun x => Ok (SFmul prec emax x f)).

(** [int(f)]: truncation toward zero. *)
Definition float_to_int (f : float) : result Z :=
  match f with
  | S754_zero _ => Ok 0
  | S754_finite s m e =>
      let q := match e with
               | Zneg p => Z.shiftr (Zpos m) (Zpos p)
               | _ => Z.shiftl (Zpos m) e
               end in
      Ok (if s then - q else q)
  | S754_infinity _ => Raise OverflowError
  | S754_nan => Raise ValueError
  end.

Definition float_ltb (x y : float) : bool := SFltb x y.

(** A decimal literal [n/d] such as [0.1] is the double nearest to it. *)
Definition literal (n d : Z) : float :=
  SFdiv prec emax (int_as_sf n) (int_as_sf d).

(** The values of [LOGO_POSITIONS] mix [int] ([0], [1]) and [float]
    ([0.5]). *)
Inductive number :=
| Int (n : Z)
| Float (f : float).

(** [n * v] for an [int] [n]. *)
Definition int_mul (n : Z) (v : number) : result number :=
  match v with
  | Int k => Ok (Int (n * k))
  | Float f => rbind (int_mul_float n f) (fun x => Ok (Float x))
  end.

(** [int(v)] *)
Definition to_int (v : number) : result Z :=
  match v with
  | Int k => Ok k
  | Float f => float_to_int f
  end.

(** [v == k] for an [int] [k], which is 0 or 1 in the source: a float
    is compared with the float of [k]. *)
Definition eq_int (v : number) (k : Z) : bool :=
  match v with
  | Int n => n =? k
  | Float f => SFeqb f (binary_normalize prec emax k 0 false)
  end.

End Py.

Export Py.

(** ** [src/config.py] *)

Definition f_0_1 : float := Eval vm_compute in literal 1 10.
Definition f_0_8 : float := Eval vm_compute in literal 8 10.
Definition f_0_5 : float := Eval vm_compute in literal 1 2.
Definition f_1_0 : float := Eval vm_compute in literal 1 1.

(** The four entries of [IMAGE_CONFIG] that [ImageProcessor.__init__]
    reads. *)
Record image_config := {
  default_logo_size : float;
  default_opacity : float;
  default_position : string;
  logo_margin : Z
}.

Definition IMAGE_CONFIG : image_config := {|
  default_logo_size := f_0_1;
  default_opacity := f_0_8;
  default_position := "bottom_right";
  logo_margin := 20
|}.

Definition LOGO_POSITIONS : gmap string (number * number) :=
  list_to_map [
    ("top_left", (Int 0, Int 0));
    ("top_center", (Float f_0_5, Int 0));
    ("top_right", (Int 1, Int 0));
    ("center_left", (Int 0, Float f_0_5));
    ("center", (Float f_0_5, Float f_0_5));
    ("center_right", (Int 1, Float f_0_5));
    ("bottom_left", (Int 0, Int 1));
    ("bottom_center", (Float f_0_5, Int 1));
    ("bottom_right", (Int 1, Int 1))
  ]%string.

(** ** PIL images *)

(** The modes the loaders leave: [load_image] converts a base image to
    RGB, [load_logo] a logo to RGB or RGBA. *)
Inductive mode := RGB | RGBA.

Definition mode_eqb (a b : mode) : bool :=
  match a, b with
  | RGB, RGB | RGBA, RGBA => true
  | _, _ => false
  end.

(** A pixel is four bytes; in mode RGB the fourth is the padding byte. *)
Record pixel := Pixel { red : Z; green : Z; blue : Z; alpha : Z }.

(** The channels are bytes. *)
Definition byte_pixel (p : pixel) : Prop :=
  0 <= red p <= 255 /\ 0 <= green p <= 255 /\
  0 <= blue p <= 255 /\ 0 <= alpha p <= 255.

Record Image := {
  im_mode : mode;
  im_size : Z * Z;
  im_px : Z -> Z -> pixel
}.

(** Object references are positions in the store. *)
Abbreviation loc := nat.

(** What [self.logger] receives in [apply_logo]: the error of the missing
    logo, the error of the [except] branch with its exception, and the
    closing info line with the position and the logo size. *)
Inductive log_entry :=
| ErrLogoNotLoaded
| ErrApplyLogo (e : exn)
| InfoLogoApplied (x y logo_width logo_height : Z).

Record world := {
  heap : list Image;
  log : list log_entry
}.

(** Computations that read and write the store and may raise. *)
Definition M (A : Type) : Type := world -> result A * world.

#[global] Instance M_ret : MRet M := fun A a w => (Ok a, w).
#[global] Instance M_bind : MBind M := fun A B k m w =>
  match m w with
  | (Ok a, w') => k a w'
  | (Raise e, w') => (Raise e, w')
  end.

Definition raise {A} (e : exn) : M A := fun w => (Raise e, w).

Definition lift {A} (r : result A) : M A := fun w => (r, w).

Definition try_except {A} (body : M A) (handler : exn -> M A) : M A :=
  fun w =>
    match body w with
    | (Ok a, w') => (Ok a, w')
    | (Raise e, w') => handler e w'
    end.

Definition logger (entry : log_entry) : M unit :=
  fun w => (Ok tt, {| heap := heap w; log := log w ++ [entry] |}).

Definition new_object (im : Image) : M loc :=
  fun w => (Ok (length (heap w)), {| heap := heap w ++ [im]; log := log w |}).

Definition deref (l : loc) : M Image :=
  fun w =>
    match heap w !! l with
    | Some im => (Ok im, w)
    | None => (Raise ReferenceError, w)
    end.

Definition assign (l : loc) (im : Image) : M unit :=
  fun w => (Ok tt, {| heap := <[l := im]> (heap w); log := log w |}).

Definition size_eqb (a b : Z * Z) : bool :=
  (fst a =? fst b) && (snd a =? snd b).

Definition inside (box : Z * Z) (sz : Z * Z) (i j : Z) : bool :=
  (fst box <=? i) && (i <? fst box + fst sz) &&
  (snd box <=? j) && (j <? snd box + snd sz).

(** The 8-bit blend of [Image.paste] with a mask: [dst] weighted by
    [255 - m] and [src] by [m], divided by 255 with rounding. *)
Definition div255 (a : Z) : Z :=
  let t := a + 128 in Z.shiftr (Z.shiftr t 8 + t) 8.

Definition blend8 (m dst src : Z) : Z := div255 (dst * (255 - m) + src * m).

(** ** [src/image_processor.py]: settings and processor state *)

Record settings := {
  st_position : string;
  st_size : float;
  st_opacity : float;
  st_margin : Z;
  st_custom_position : option (Z * Z)
}.

(** The keyword arguments of [apply_logo]: a key is present or not. *)
Record kwargs := {
  kw_position : option string;
  kw_size : option float;
  kw_opacity : option float;
  kw_margin : option Z;
  kw_custom_position : option (Z * Z)
}.

Record ImageProcessor := {
  current_logo : option loc;
  default_settings : settings
}.

(** [ImageProcessor.__init__] *)
Definition init : ImageProcessor := {|
  current_logo := None;
  default_settings := {|
    st_position := default_position IMAGE_CONFIG;
    st_size := default_logo_size IMAGE_CONFIG;
    st_opacity := default_opacity IMAGE_CONFIG;
    st_margin := logo_margin IMAGE_CONFIG;
    st_custom_position := None
  |}
|}.


Section PIL.

(** The resampling filter ([Image.Resampling.LANCZOS]): the pixel of
    the resized image at a coordinate, from the source image and the
    requested size. *)
Variable resample : Image -> Z * Z -> Z -> Z -> pixel.

(** [ImageEnhance.Brightness(band).enhance(factor)] on one byte of the
    band. *)
Variable enhance : float -> Z -> Z.

(** [im.size] *)
Definition Image_size (l : loc) : M (Z * Z) :=
  im ← deref l; mret (im_size im).

(** [im.mode] *)
Definition Image_mode (l : loc) : M mode :=
  im ← deref l; mret (im_mode im).

(** [im.copy()] *)
Definition Image_copy (l : loc) : M loc :=
  im ← deref l; new_object im.

(** [im.resize(size, LANCZOS)]: a copy when the size is unchanged,
    [ValueError] when a side is below 1, a resampled image otherwise. *)
Definition resize_image (im : Image) (size : Z * Z) : result Image :=
  if size_eqb (im_size im) size then Ok im
  else if (fst size <? 1) || (snd size <? 1) then Raise ValueError
  else Ok {| im_mode := im_mode im;
             im_size := size;
             im_px := resample im size |}.

Definition Image_resize (l : loc) (size : Z * Z) : M loc :=
  im ← deref l;
  r ← lift (resize_image im size);
  new_object r.

Definition opaque (p : pixel) : pixel :=
  {| red := red p; green := green p; blue := blue p; alpha := 255 |}.

(** [im.convert('RGBA')] *)
Definition convert_RGBA_image (im : Image) : Image :=
  {| im_mode := RGBA;
     im_size := im_size im;
     im_px := match im_mode im with
              | RGBA => im_px im
              | RGB => fun i j => opaque (im_px im i j)
              end |}.

Definition Image_convert_RGBA (l : loc) : M loc :=
  im ← deref l; new_object (convert_RGBA_image im).

(** [im.split()[-1]]: the last band, as a value. *)
Definition last_band (im : Image) : Z -> Z -> Z :=
  fun i j => alpha (im_px im i j).

Definition Image_last_band (l : loc) : M (Z -> Z -> Z) :=
  im ← deref l; mret (last_band im).

(** [ImageEnhance.Brightness(band).enhance(factor)] *)
Definition Brightness_enhance (band : Z -> Z -> Z) (factor : float)
  : Z -> Z -> Z :=
  fun i j => enhance factor (band i j).

Definition set_alpha (p : pixel) (a : Z) : pixel :=
  {| red := red p; green := green p; blue := blue p; alpha := a |}.

(** [im.putalpha(band)], in place, on an RGBA image. *)
Definition putalpha_image (im : Image) (band : Z -> Z -> Z) : Image :=
  {| im_mode := im_mode im;
     im_size := im_size im;
     im_px := fun i j => set_alpha (im_px im i j) (band i j) |}.

Definition Image_putalpha (l : loc) (band : Z -> Z -> Z) : M unit :=
  im ← deref l; assign l (putalpha_image im band).

Definition blend_pixel (dst_mode : mode) (m : Z) (d s : pixel) : pixel :=
  {| red := blend8 m (red d) (red s);
     green := blend8 m (green d) (green s);
     blue := blend8 m (blue d) (blue s);
     alpha := match dst_mode with
              | RGB => alpha d
              | RGBA => blend8 m (alpha d) (alpha s)
              end |}.

Definition copy_pixel (dst_mode : mode) (d s : pixel) : pixel :=
  match dst_mode with
  | RGB => set_alpha s (alpha d)
  | RGBA => s
  end.

(** The pixels of the source of a paste, after the conversion to the
    destination's mode ([Image.paste] converts unless the destination
    is RGB and the source RGBA). *)
Definition source_px (d s : Image) : Z -> Z -> pixel :=
  match im_mode d, im_mode s with
  | RGBA, RGB => fun i j => opaque (im_px s i j)
  | _, _ => im_px s
  end.

(** [dst.paste(src, box)] and [dst.paste(src, box, mask)], in place:
    the region of [src]'s size at [box], clipped to [dst]; with a mask,
    the mask's alpha band weighs the blend. *)
Definition paste_image (d s : Image) (box : Z * Z) (mask : option Image)
  : result Image :=
  match mask with
  | None =>
      Ok {| im_mode := im_mode d;
            im_size := im_size d;
            im_px := fun i j =>
              if inside box (im_size s) i j
              then copy_pixel (im_mode d) (im_px d i j)
                     (source_px d s (i - fst box) (j - snd box))
              else im_px d i j |}
  | Some m =>
      if negb (size_eqb (im_size m) (im_size s)) then Raise ValueError
      else
      Ok {| im_mode := im_mode d;
            im_size := im_size d;
            im_px := fun i j =>
              if inside box (im_size s) i j
              then blend_pixel (im_mode d)
                     (last_band m (i - fst box) (j - snd box))
                     (im_px d i j)
                     (source_px d s (i - fst box) (j - snd box))
              else im_px d i j |}
  end.

Definition Image_paste (dst src : loc) (box : Z * Z) (mask : option loc)
  : M unit :=
  d ← deref dst;
  s ← deref src;
  m ← match mask with
      | None => mret None
      | Some mk => m ← deref mk; mret (Some m)
      end;
  r ← lift (paste_image d s box m);
  assign dst r.

(** [settings = self.default_settings.copy(); settings.update(kwargs)] *)
Definition update (d : settings) (kw : kwargs) : settings := {|
  st_position := default (st_position d) (kw_position kw);
  st_size := default (st_size d) (kw_size kw);
  st_opacity := default (st_opacity d) (kw_opacity kw);
  st_margin := default (st_margin d) (kw_margin kw);
  st_custom_position :=
    match kw_custom_position kw with
    | Some p => Some p
    | None => st_custom_position d
    end
|}.

(** [logo_width = int(img_width * logo_size)] *)
Definition compute_logo_width (img_width : Z) (logo_size : float)
  : result Z :=
  rbind (int_mul_float img_width logo_size) float_to_int.

(** [logo_height = int(logo.size[1] * (logo_width / logo.size[0]))] *)
Definition compute_logo_height (logo_size0 : Z * Z) (logo_width : Z)
  : result Z :=
  rbind (true_div logo_width (fst logo_size0)) (fun q =>
  rbind (int_mul_float (snd logo_size0) q) float_to_int).

(** [d[key]] *)
Definition getitem {V} (d : gmap string V) (key : string) : result V :=
  match d !! key with
  | Some v => Ok v
  | None => Raise KeyError
  end.

(** One coordinate of the anchor placement:
    [x = int((img_width - logo_width) * rel_x)], then the margin. *)
Definition anchor_coord (img_dim logo_dim : Z) (rel : number) (margin : Z)
  : result Z :=
  rbind (int_mul (img_dim - logo_dim) rel) (fun v =>
  rbind (to_int v) (fun x =>
  Ok (if eq_int rel 0 then x + margin
      else if eq_int rel 1 then x - margin
      else x))).

(** [LOGO_POSITIONS[position]] when [position in LOGO_POSITIONS],
    [LOGO_POSITIONS['bottom_right']] otherwise. *)
Definition anchor_rel (position : string) : result (number * number) :=
  if bool_decide (is_Some (LOGO_POSITIONS !! position))
  then getitem LOGO_POSITIONS position
  else getitem LOGO_POSITIONS "bottom_right".

(** The [else] branch of [if custom_position:]. *)
Definition anchor_position (position : string) (img_size logo_size : Z * Z)
    (margin : Z) : result (Z * Z) :=
  rbind (anchor_rel position) (fun rel =>
  let '(rel_x, rel_y) := rel in
  rbind (anchor_coord (fst img_size) (fst logo_size) rel_x margin) (fun x =>
  rbind (anchor_coord (snd img_size) (snd logo_size) rel_y margin) (fun y =>
  Ok (x, y)))).

(** [max(0, min(x, img_width - logo_width))] *)
Definition clamp (x img_dim logo_dim : Z) : Z :=
  Z.max 0 (Z.min x (img_dim - logo_dim)).

(** [if opacity < 1.0: ...], returning the logo to paste. *)
Definition apply_opacity (resized_logo : loc) (opacity : float) : M loc :=
  if float_ltb opacity f_1_0 then
    m ← Image_mode resized_logo;
    resized_logo ← (if mode_eqb m RGBA then mret resized_logo
                    else Image_convert_RGBA resized_logo);
    band ← Image_last_band resized_logo;
    Image_putalpha resized_logo (Brightness_enhance band opacity);;
    mret resized_logo
  else mret resized_logo.

(** The body of the [try] block of [apply_logo]. *)
Definition apply_logo_body (logo : loc) (image : loc) (s : settings)
  : M loc :=
  result ← Image_copy image;
  img_size ← Image_size result;
  logo_width ← lift (compute_logo_width (fst img_size) (st_size s));
  logo_size0 ← Image_size logo;
  logo_height ← lift (compute_logo_height logo_size0 logo_width);
  resized_logo ← Image_resize logo (logo_width, logo_height);
  resized_logo ← apply_opacity resized_logo (st_opacity s);
  xy ← match st_custom_position s with
       | Some p => mret p
       | None => lift (anchor_position (st_position s) img_size
                         (logo_width, logo_height) (st_margin s))
       end;
  let x := clamp (fst xy) (fst img_size) logo_width in
  let y := clamp (snd xy) (snd img_size) logo_height in
  m ← Image_mode resized_logo;
  (if mode_eqb m RGBA
   then Image_paste result resized_logo (x, y) (Some resized_logo)
   else Image_paste result resized_logo (x, y) None);;
  logger (InfoLogoApplied x y logo_width logo_height);;
  mret result.

(** [ImageProcessor.apply_logo(self, image, **kwargs)] *)
Definition apply_logo (self : ImageProcessor) (image : loc) (kw : kwargs)
  : M (option loc) :=
  match current_logo self with
  | None => logger ErrLogoNotLoaded;; mret None
  | Some logo =>
      try_except
        (r ← apply_logo_body logo image (update (default_settings self) kw);
         mret (Some r))
        (fun e => logger (ErrApplyLogo e);; mret None)
  end.

(** *** What one call allocates and returns

    The objects a call of [apply_logo] adds to the store, in order of
    allocation and in their final state, and what it logs: the
    placement and logo size on success, the exception otherwise. *)

Definition scaled (im : Image) (opacity : float) : Image :=
  putalpha_image im (Brightness_enhance (last_band im) opacity).

(** The logo as pasted: the resized logo after the opacity step. *)
Definition logo_to_paste (rz : Image) (opacity : float) : Image :=
  if float_ltb opacity f_1_0 then
    match im_mode rz with
    | RGBA => scaled rz opacity
    | RGB => scaled (convert_RGBA_image rz) opacity
    end
  else rz.

Definition opacity_objects (rz : Image) (opacity : float) : list Image :=
  if float_ltb opacity f_1_0 then
    match im_mode rz with
    | RGBA => [scaled rz opacity]
    | RGB => [rz; scaled (convert_RGBA_image rz) opacity]
    end
  else [rz].

(** The position before the clamp: the custom one or the anchor's. *)
Definition requested_position (s : settings) (img_size logo_size : Z * Z)
  : result (Z * Z) :=
  match st_custom_position s with
  | Some p => Ok p
  | None => anchor_position (st_position s) img_size logo_size (st_margin s)
  end.

(** The position the logo is pasted at. *)
Definition placement (s : settings) (img_size logo_size : Z * Z)
  : result (Z * Z) :=
  rbind (requested_position s img_size logo_size) (fun xy =>
  Ok (clamp (fst xy) (fst img_size) (fst logo_size),
      clamp (snd xy) (snd img_size) (snd logo_size))).

(** The two [paste] calls at the end of [apply_logo]. *)
Definition composite (base lg : Image) (box : Z * Z) : result Image :=
  if mode_eqb (im_mode lg) RGBA
  then paste_image base lg box (Some lg)
  else paste_image base lg box None.

Definition run (base lg : Image) (s : settings)
  : list Image * result (Z * Z * Z * Z) :=
  match compute_logo_width (fst (im_size base)) (st_size s) with
  | Raise e => ([base], Raise e)
  | Ok lw =>
  match compute_logo_height (im_size lg) lw with
  | Raise e => ([base], Raise e)
  | Ok lh =>
  match resize_image lg (lw, lh) with
  | Raise e => ([base], Raise e)
  | Ok rz =>
  let objs := opacity_objects rz (st_opacity s) in
  match placement s (im_size base) (lw, lh) with
  | Raise e => (base :: objs, Raise e)
  | Ok xy =>
  match composite base (logo_to_paste rz (st_opacity s)) xy with
  | Raise e => (base :: objs, Raise e)
  | Ok out => (out :: objs, Ok (fst xy, snd xy, lw, lh))
  end end end end end.

(** The world after a call that found [base] and [lg] in the store. *)
Definition after (w : world) (r : list Image * result (Z * Z * Z * Z))
  : result (option loc) * world :=
  (Ok match snd r with
      | Ok _ => Some (length (heap w))
      | Raise _ => None
      end,
   {| heap := heap w ++ fst r;
      log := log w ++ [match snd r with
                       | Ok (x, y, lw, lh) => InfoLogoApplied x y lw lh
                       | Raise e => ErrApplyLogo e
                       end] |}).

End PIL.

(** [apply_logo(image, position=p, **kw)] *)
Definition with_position (kw : kwargs) (p : string) : kwargs :=
  {| kw_position := Some p; kw_size := kw_size kw;
     kw_opacity := kw_opacity kw; kw_margin := kw_margin kw;
     kw_custom_position := kw_custom_position kw |}.

(** [apply_logo(image, opacity=o, **kw)] *)
Definition with_opacity (kw : kwargs) (o : float) : kwargs :=
  {| kw_position := kw_position kw; kw_size := kw_size kw;
     kw_opacity := Some o; kw_margin := kw_margin kw;
     kw_custom_position := kw_custom_position kw |}.

(** [apply_logo(image, size=s, **kw)] *)
Definition with_size (kw : kwargs) (sz : float) : kwargs :=
  {| kw_position := kw_position kw; kw_size := Some sz;
     kw_opacity := kw_opacity kw; kw_margin := kw_margin kw;
     kw_custom_position := kw_custom_position kw |}.

(** [apply_logo(image, margin=m, **kw)] *)
Definition with_margin (kw : kwargs) (m : Z) : kwargs :=
  {| kw_position := kw_position kw; kw_size := kw_size kw;
     kw_opacity := kw_opacity kw; kw_margin := Some m;
     kw_custom_position := kw_custom_position kw |}.

(** [apply_logo(image, custom_position=p, **kw)] *)
Definition with_custom_position (kw : kwargs) (p : Z * Z) : kwargs :=
  {| kw_position := kw_position kw; kw_size := kw_size kw;
     kw_opacity := kw_opacity kw; kw_margin := kw_margin kw;
     kw_custom_position := Some p |}.

(** [apply_logo(image)] *)
Definition no_kwargs : kwargs :=
  {| kw_position := None; kw_size := None; kw_opacity := None;
     kw_margin := None; kw_custom_position := None |}.

(** The relative coordinate of an anchor counted in halves: 0, 1 or 2
    for 0, 0.5 and 1. *)
Definition halves (rel : number) : Z :=
  match rel with
  | Int n => 2 * n
  | Float _ => 1
  end.

(** [int((img_dim - logo_dim) * rel)] and the margin step in closed form:
    the product is truncated toward zero. *)
Definition truncated_coord (img_dim logo_dim : Z) (rel : number) (margin : Z)
  : Z :=
  let x := Z.quot ((img_dim - logo_dim) * halves rel) 2 in
  if halves rel =? 0 then x + margin
  else if halves rel =? 2 then x - margin
  else x.

(** ** The words of the specification *)

Module Spec.

(** [round]: the nearest integer to [n / d] for [0 < d], ties to the
    even one (Python's [round]). *)
Definition round_div (n d : Z) : Z :=
  let q := n / d in
  let r := n mod d in
  match 2 * r ?= d with
  | Lt => q
  | Gt => q + 1
  | Eq => if Z.even q then q else q + 1
  end.

(** "height = round(original_height × (target_width / original_width))" *)
Definition logo_height (logo_size0 : Z * Z) (logo_width : Z) : Z :=
  round_div (snd logo_size0 * logo_width) (fst logo_size0).

(** "Absolute position = round((base_dim − logo_dim) × relCoord)", then
    the margin. *)
Definition anchor_coord (img_dim logo_dim : Z) (rel : number) (margin : Z)
  : Z :=
  let x := round_div ((img_dim - logo_dim) * halves rel) 2 in
  if halves rel =? 0 then x + margin
  else if halves rel =? 2 then x - margin
  else x.

(** The anchor placement as the specification words it, for the nine
    anchors. *)
Definition anchor_placement_rounds : Prop :=
  forall name rel_x rel_y img_size logo_size margin,
    LOGO_POSITIONS !! name = Some (rel_x, rel_y) ->
    anchor_position name img_size logo_size margin =
      Ok (anchor_coord (fst img_size) (fst logo_size) rel_x margin,
          anchor_coord (snd img_size) (snd logo_size) rel_y margin).

(** The logo height as the specification words it. *)
Definition logo_height_rounds : Prop :=
  forall logo_size0 logo_width h,
    0 < fst logo_size0 ->
    compute_logo_height logo_size0 logo_width = Ok h ->
    h = logo_height logo_size0 logo_width.




(** "position bottom_right, relative size 0.1, opacity 0.8, margin 20" *)
Definition fill_defaults (kw : kwargs) : kwargs := {|
  kw_position := Some (default "bottom_right"%string (kw_position kw));
  kw_size := Some (default (literal 1 10) (kw_size kw));
  kw_opacity := Some (default (literal 8 10) (kw_opacity kw));
  kw_margin := Some (default 20 (kw_margin kw));
  kw_custom_position := kw_custom_position kw
|}.

End Spec.

(** ** A small instance to run the code on *)

Module Example.

(** Nearest-neighbour resampling. *)
Definition nearest (im : Image) (sz : Z * Z) (i j : Z) : pixel :=
  im_px im (i * fst (im_size im) / fst sz) (j * snd (im_size im) / snd sz).

(** The band byte times the factor, truncated. *)
Definition scale_byte (f : float) (a : Z) : Z :=
  match rbind (int_mul_float a f) float_to_int with
  | Ok v => v
  | Raise _ => 0
  end.

Definition flat (m : mode) (sz : Z * Z) (p : pixel) : Image :=
  {| im_mode := m; im_size := sz; im_px := fun _ _ => p |}.

Definition grey : pixel := Pixel 10 20 30 255.
Definition ink : pixel := Pixel 200 100 50 128.

(** A store with a base image at 0 and a logo at 1. *)
Definition store (base_size logo_size : Z * Z) (logo_mode : mode) : world :=
  {| heap := [flat RGB base_size grey; flat logo_mode logo_size ink];
     log := [] |}.

Definition processor : ImageProcessor :=
  {| current_logo := Some 1%nat;
     default_settings := default_settings init |}.

Definition go (w : world) (kw : kwargs) : result (option loc) * world :=
  apply_logo nearest scale_byte processor 0%nat kw w.

Definition base0 : Image := flat RGB (1000, 800) grey.
Definition logo0 : Image := flat RGBA (200, 100) ink.
Definition w0 : world := store (1000, 800) (200, 100) RGBA.
Definition kw0 : kwargs := with_size no_kwargs (literal 2 10).

End Example.

(** * The code around the compositor

    The rest of [src/image_processor.py] (loading, saving, previews and
    batches), the getters of [src/config.py], the file helpers of
    [src/utils.py] and the handlers of [src/main.py] that open a dialog.
    The disk, PIL's decoder and encoder and the clock are parameters
    ([System]), as are [pathlib] and [os.path] ([Paths]). *)

(** ** [src/config.py]: the tables and their getters *)

Module Config.

(** The values the tables hold. A [Path] is kept relative to [BASE_DIR],
    the directory of [config.py]. *)
Inductive value :=
| VNone
| VBool (b : bool)
| VInt (n : Z)
| VFloat (f : float)
| VStr (s : string)
| VTuple (vs : list value)
| VList (vs : list value)
| VDict (items : list (string * value))
| VPath (parts : list string).

(** A [dict] with [str] keys, in the order of the literal. *)
Definition dict := list (string * value).

(** [d.get(key)] *)
Fixpoint get {V} (d : list (string * V)) (key : string) : option V :=
  match d with
  | [] => None
  | (k, v) :: d' => if String.eqb k key then Some v else get d' key
  end.

(** [d[key]] *)
Definition getitem {V} (d : list (string * V)) (key : string) : result V :=
  match get d key with
  | Some v => Ok v
  | None => Raise KeyError
  end.

Definition APP_CONFIG : dict := [
  ("title", VStr "LogoMaster Pro");
  ("version", VStr "2.0.0");
  ("author", VStr "LogoMaster Team");
  ("description", VStr "Профессиональное приложение для нанесения логотипов на изображения");
  ("window_size", VTuple [VInt 1200; VInt 800]);
  ("min_window_size", VTuple [VInt 800; VInt 600]);
  ("icon_path", VNone)
]%string.

Definition COLORS : dict := [
  ("primary", VStr "#2E3440");
  ("primary_dark", VStr "#242933");
  ("primary_darker", VStr "#1a1f26");
  ("secondary", VStr "#3B4252");
  ("secondary_dark", VStr "#2f3541");
  ("secondary_darker", VStr "#252a35");
  ("accent", VStr "#5E81AC");
  ("success", VStr "#A3BE8C");
  ("warning", VStr "#EBCB8B");
  ("error", VStr "#BF616A");
  ("danger", VStr "#BF616A");
  ("background", VStr "#ECEFF4");
  ("surface", VStr "#FFFFFF");
  ("white", VStr "#FFFFFF");
  ("text", VStr "#2E3440");
  ("text_primary", VStr "#2E3440");
  ("text_secondary", VStr "#4C566A");
  ("border", VStr "#D8DEE9");
  ("hover", VStr "#E5E9F0")
]%string.

Definition FONTS : dict := [
  ("default", VTuple [VStr "Segoe UI"; VInt 9]);
  ("heading", VTuple [VStr "Segoe UI"; VInt 12; VStr "bold"]);
  ("button", VTuple [VStr "Segoe UI"; VInt 9]);
  ("status", VTuple [VStr "Segoe UI"; VInt 8]);
  ("monospace", VTuple [VStr "Consolas"; VInt 9])
]%string.

Definition SIZES : dict := [
  ("padding", VInt 10);
  ("margin", VInt 5);
  ("button_height", VInt 32);
  ("button_width", VInt 120);
  ("toolbar_height", VInt 40);
  ("status_height", VInt 25);
  ("sidebar_width", VInt 300);
  ("preview_size", VTuple [VInt 400; VInt 300])
]%string.

(** The entries of [IMAGE_CONFIG] that the code subscripts with a
    literal key, under the key's name. *)
Definition supported_formats : list (string * list string) := [
  ("input", [".jpg"; ".jpeg"; ".png"; ".bmp"; ".tiff"; ".tif"; ".webp"]);
  ("output", [".jpg"; ".jpeg"; ".png"; ".bmp"; ".tiff"]);
  ("logo", [".png"; ".jpg"; ".jpeg"; ".bmp"; ".tiff"])
]%string.

Definition max_image_size : Z * Z := (8192, 8192).
Definition max_file_size_mb : Z := 50.
Definition preview_size : Z * Z := (800, 600).
Definition jpeg_quality : Z := 95.
Definition png_compression : Z := 6.

Definition pair_value (p : Z * Z) : value := VTuple [VInt (fst p); VInt (snd p)].

Definition logo_defaults : image_config := IMAGE_CONFIG.

Definition IMAGE_CONFIG : dict := [
  ("supported_formats",
   VDict (map (fun kv => (fst kv, VList (map VStr (snd kv)))) supported_formats));
  ("max_image_size", pair_value max_image_size);
  ("max_file_size_mb", VInt max_file_size_mb);
  ("preview_size", pair_value preview_size);
  ("thumbnail_size", VTuple [VInt 150; VInt 150]);
  ("jpeg_quality", VInt jpeg_quality);
  ("png_compression", VInt png_compression);
  ("default_logo_size", VFloat (default_logo_size logo_defaults));
  ("default_opacity", VFloat (default_opacity logo_defaults));
  ("default_position", VStr (default_position logo_defaults));
  ("logo_margin", VInt (logo_margin logo_defaults))
]%string.

Definition PERFORMANCE_CONFIG : dict := [
  ("max_threads", VInt 4);
  ("chunk_size", VInt 10);
  ("memory_limit_mb", VInt 1024);
  ("cache_size", VInt 50);
  ("progress_update_interval", VInt 100)
]%string.

Definition NETWORK_CONFIG : dict := [
  ("timeout", VInt 30);
  ("max_retries", VInt 3);
  ("user_agent", VStr "LogoMaster Pro 2.0.0");
  ("max_download_size_mb", VInt 100)
]%string.

Definition UI_CONFIG : dict := [
  ("auto_save_settings", VBool true);
  ("show_tooltips", VBool true);
  ("confirm_exit", VBool true);
  ("remember_window_state", VBool true);
  ("recent_files_limit", VInt 10);
  ("preview_auto_update", VBool true);
  ("show_grid", VBool false);
  ("zoom_step", VFloat (literal 1 10));
  ("min_zoom", VFloat (literal 1 10));
  ("max_zoom", VFloat (literal 5 1))
]%string.

Definition HOTKEYS : dict := [
  ("open_images", VStr "<Control-o>");
  ("open_logo", VStr "<Control-l>");
  ("save_current", VStr "<Control-s>");
  ("save_all", VStr "<Control-Shift-s>");
  ("apply_logo", VStr "<Control-Return>");
  ("apply_all", VStr "<Control-Shift-Return>");
  ("next_image", VStr "<Right>");
  ("prev_image", VStr "<Left>");
  ("zoom_in", VStr "<Control-plus>");
  ("zoom_out", VStr "<Control-minus>");
  ("zoom_fit", VStr "<Control-0>");
  ("toggle_preview", VStr "<F5>");
  ("show_about", VStr "<F1>");
  ("exit", VStr "<Control-q>")
]%string.

Definition MESSAGES : dict := [
  ("app_title", VStr "LogoMaster Pro");
  ("loading", VStr "Загрузка...");
  ("processing", VStr "Обработка...");
  ("saving", VStr "Сохранение...");
  ("done", VStr "Готово");
  ("error", VStr "Ошибка");
  ("warning", VStr "Предупреждение");
  ("info", VStr "Информация");
  ("error_load_image", VStr "Не удалось загрузить изображение");
  ("error_load_logo", VStr "Не удалось загрузить логотип");
  ("error_save_image", VStr "Не удалось сохранить изображение");
  ("error_process_image", VStr "Ошибка обработки изображения");
  ("error_invalid_format", VStr "Неподдерживаемый формат файла");
  ("error_file_too_large", VStr "Файл слишком большой");
  ("error_no_images", VStr "Изображения не загружены");
  ("error_no_logo", VStr "Логотип не загружен");
  ("images_loaded", VStr "Изображения загружены");
  ("logo_loaded", VStr "Логотип загружен");
  ("logo_applied", VStr "Логотип применен");
  ("images_saved", VStr "Изображения сохранены");
  ("processing_complete", VStr "Обработка завершена")
]%string.

Definition FILE_PATHS : dict := [
  ("user_config", VPath ["config"; "user_settings.json"]);
  ("recent_files", VPath ["config"; "recent_files.json"]);
  ("log_file", VPath ["logs"; "logomaster.log"]);
  ("temp_dir", VPath ["temp"]);
  ("assets_dir", VPath ["assets"])
]%string.

Definition LOGGING_CONFIG : dict := [
  ("level", VInt 20);
  ("format", VStr "%(asctime)s - %(name)s - %(levelname)s - %(message)s");
  ("date_format", VStr "%Y-%m-%d %H:%M:%S");
  ("file_path", VPath ["logs"; "logomaster.log"]);
  ("max_file_size", VInt 10485760);
  ("backup_count", VInt 5)
]%string.

(** The local [configs] of [get_config]. *)
Definition configs : list (string * dict) := [
  ("app", APP_CONFIG);
  ("colors", COLORS);
  ("fonts", FONTS);
  ("sizes", SIZES);
  ("image", IMAGE_CONFIG);
  ("performance", PERFORMANCE_CONFIG);
  ("network", NETWORK_CONFIG);
  ("ui", UI_CONFIG);
  ("hotkeys", HOTKEYS);
  ("messages", MESSAGES);
  ("paths", FILE_PATHS);
  ("logging", LOGGING_CONFIG)
]%string.

(** [get_config(section)]: the section's table, the empty [dict] for an
    unknown section, and all the tables when [section] is [None] or
    empty. *)
Definition get_config (section : option string) : dict :=
  match section with
  | Some (String a s) => default [] (get configs (String a s))
  | Some EmptyString | None => map (fun kv => (fst kv, VDict (snd kv))) configs
  end.

(** [get_color(color_name)] *)
Definition get_color (color_name : string) : value :=
  default (VStr "#000000") (get COLORS color_name).

(** [get_font(font_name)]; the fallback [FONTS['default']] is looked up
    before the call. *)
Definition get_font (font_name : string) : result value :=
  rbind (getitem FONTS "default") (fun d =>
  Ok (default d (get FONTS font_name))).

(** [get_size(size_name)] *)
Definition get_size (size_name : string) : value :=
  default (VInt 0) (get SIZES size_name).

Definition is_hex_digit (a : ascii) : bool :=
  let n := nat_of_ascii a in
  ((48 <=? n) && (n <=? 57) || (65 <=? n) && (n <=? 70) ||
   (97 <=? n) && (n <=? 102))%nat.

(** A colour as Tk reads it: [#] and six hexadecimal digits. *)
Definition is_hex_colour (s : string) : bool :=
  match s with
  | String "#" r =>
      (String.length r =? 6)%nat && forallb is_hex_digit (String.list_ascii_of_string r)
  | _ => false
  end.

End Config.

(** ** [pathlib], [os.path] and [str]: names of files

    The functions of the standard library that take a path apart are
    parameters: their results depend on the platform's flavour of
    paths. *)
Class Paths := {
  (** [Path(p).suffix] *)
  path_suffix : string -> string;
  (** [Path(p).stem] *)
  path_stem : string -> string;
  (** [Path(p).name] *)
  path_name : string -> string;
  (** [str(Path(p).parent)] *)
  path_parent : string -> string;
  (** [str(Path(d) / name)] *)
  joinpath : string -> string -> string;
  (** [os.path.join(d, name)] *)
  os_path_join : string -> string -> string;
  (** [os.path.basename(p)] *)
  os_path_basename : string -> string;
  (** [s.lower()] *)
  str_lower : string -> string
}.

Section Formats.
Context `{Paths}.

(** [is_supported_format(file_path, format_type)] *)
Definition is_supported_format (file_path format_type : string) : bool :=
  let extension := str_lower (path_suffix file_path) in
  let supported := default [] (Config.get Config.supported_formats format_type) in
  bool_decide (extension ∈ supported).

End Formats.

(** ** Files, the logger and the user interface

    What the other methods of [ImageProcessor] and their callers reach
    outside the interpreter. *)

(** An exception the code catches with [except Exception]: one of the
    interpreter model's, or one raised by the file system or by PIL on a
    file. *)
Inductive failure :=
| Exn (e : exn)
| TypeError
| OSError
| UnidentifiedImageError.

Inductive outcome (A : Type) :=
| Return (a : A)
| Throw (e : failure).
Arguments Return {A} a.
Arguments Throw {A} e.

#[global] Instance outcome_ret : MRet outcome := fun A a => Return a.
#[global] Instance outcome_bind : MBind outcome := fun A B k m =>
  match m with
  | Return a => k a
  | Throw e => Throw e
  end.

Definition of_result {A} (r : result A) : outcome A :=
  match r with
  | Ok a => Return a
  | Raise e => Throw (Exn e)
  end.

(** What [Image.open] returns: the header ([mode], [size]) is read at
    once, the pixels when they are first needed ([pic_bytes], which can
    fail on a damaged file). The bytes are as PIL stores them: three
    colours and alpha or padding, and for mode LA the luminance three
    times and alpha. [pic_convert m] is [convert] to another mode. *)
Record picture := {
  pic_mode : string;
  pic_size : Z * Z;
  pic_bytes : outcome (Z -> Z -> pixel);
  pic_convert : mode -> outcome (Z -> Z -> pixel)
}.

(** The file system with its image files, over a type [D] of disk
    states. A call that writes returns its outcome and the disk it
    leaves. *)
Class System (D : Type) := {
  (** [os.path.exists(p)] *)
  path_exists : D -> string -> bool;
  (** [os.path.getsize(p)] *)
  getsize : D -> string -> outcome Z;
  (** [Image.open(p)] *)
  Image_open : D -> string -> outcome picture;
  (** [image.save(p, **save_kwargs)] *)
  Image_save : D -> Image -> string -> Config.dict -> outcome unit * D;
  (** [Path(p).mkdir(parents=True, exist_ok=True)] *)
  mkdir : D -> string -> outcome unit * D;
  (** [shutil.copy2(src, dst)] *)
  copy2 : D -> string -> string -> outcome unit * D;
  (** [datetime.now().strftime("%Y%m%d_%H%M%S")] *)
  timestamp : D -> string;
  (** [str] of a path of the configuration, below [BASE_DIR] *)
  config_path : list string -> string
}.

(** The lines the logger receives from the methods below, by message;
    [Apply_logo] wraps the lines of [apply_logo]. *)
Inductive log_line :=
| Apply_logo (entry : log_entry)
| Error_file_not_found (file_path : string)
| Error_unsupported_format (file_path : string)
| Error_file_too_large (file_size_mb : float)
| Warning_resizing (size : Z * Z)
| Info_image_loaded (file_path : string) (size : Z * Z)
| Error_loading_image (file_path : string) (e : failure)
| Error_logo_not_found (logo_path : string)
| Error_unsupported_logo_format (logo_path : string)
| Info_logo_loaded (logo_path : string) (size : Z * Z)
| Error_loading_logo (logo_path : string) (e : failure)
| Error_creating_preview (e : failure)
| Error_unsupported_output_format (file_path : string)
| Info_image_saved (file_path : string)
| Error_saving_image (file_path : string) (e : failure)
| Error_batch_without_logo
| Error_processing (image_path : string) (e : failure)
| Info_batch_done (processed total : Z)
| Error_creating_directory (directory_path : string) (e : failure)
| Error_file_size (file_path : string) (e : failure)
| Info_backup_created (file_path backup_path : string)
| Error_creating_backup (file_path : string) (e : failure)
| Error_loading_images (e : failure)
| Error_loading_logo_file (e : failure)
| Error_starting_batch (e : failure).

(** The third argument of [progress_callback]. *)
Inductive progress_message :=
| Processing (name : string)
| Processing_finished.

(** What leaves the interpreter, in order: logger lines, calls of a
    progress callback, and error boxes ([messagebox.showerror] with the
    text of a line). *)
Inductive event :=
| Logged (line : log_line)
| Progress (current total : Z) (message : progress_message)
| Showerror (line : log_line).

Record machine (D : Type) := {
  objects : list Image;
  files : D;
  events : list event
}.
Arguments objects {D} _.
Arguments files {D} _.
Arguments events {D} _.

(** Computations over the machine that may raise. *)
Definition IO (D A : Type) : Type := machine D -> outcome A * machine D.

#[global] Instance IO_ret D : MRet (IO D) := fun A a s => (Return a, s).
#[global] Instance IO_bind D : MBind (IO D) := fun A B k m s =>
  match m s with
  | (Return a, s') => k a s'
  | (Throw e, s') => (Throw e, s')
  end.

(** [try: body except Exception as e: handler] *)
Definition try_io {D A} (body : IO D A) (handler : failure -> IO D A) : IO D A :=
  fun s =>
    match body s with
    | (Return a, s') => (Return a, s')
    | (Throw e, s') => handler e s'
    end.

Definition lift_outcome {D A} (o : outcome A) : IO D A := fun s => (o, s).

Definition lift_result {D A} (r : result A) : IO D A := lift_outcome (of_result r).

Definition emit {D} (e : event) : IO D unit :=
  fun s => (Return tt, {| objects := objects s; files := files s;
                          events := events s ++ [e] |}).

(** A computation on the store of images, run on the machine's objects;
    its log lines join the events. *)
Definition run_M {D A} (m : M A) : IO D A :=
  fun s =>
    let '(r, w) := m {| heap := objects s; log := [] |} in
    (of_result r,
     {| objects := heap w; files := files s;
        events := events s ++ map (fun l => Logged (Apply_logo l)) (log w) |}).

(** The recording progress callback. *)
Definition record_progress {D} (current total : Z) (message : progress_message)
  : IO D unit :=
  emit (Progress current total message).

(** [x > k] for a [float] [x] and an [int] [k] that a double holds
    exactly. *)
Definition float_gt_int (x : float) (k : Z) : bool :=
  SFltb (binary_normalize prec emax k 0 false) x.

(** [Image.new('RGB', size, (255, 255, 255))] *)
Definition white (size : Z * Z) : Image :=
  {| im_mode := RGB; im_size := size; im_px := fun _ _ => Pixel 255 255 255 255 |}.

(** [quality or IMAGE_CONFIG['jpeg_quality']] *)
Definition quality_or_default (quality : option Z) : Z :=
  match quality with
  | Some q => if q =? 0 then Config.jpeg_quality else q
  | None => Config.jpeg_quality
  end.

(** What [validate_image_file] returns with its flag, by message. *)
Inductive verdict :=
| Valid
| File_not_found
| Unsupported_file_format
| File_too_large (file_size_mb : float) (max_size_mb : Z)
| Picture_too_large (size max_dimensions : Z * Z)
| Cannot_open (e : failure)
| Validation_error (e : failure).

Section Files.
Context {D : Type} `{System D} `{Paths}.

(** The resampling of [resize], the brightness of [ImageEnhance] and
    [Image.thumbnail(max_size, LANCZOS)]: the new size and pixels of the
    image it shrinks in place. *)
Variable resample : Image -> Z * Z -> Z -> Z -> pixel.
Variable enhance : float -> Z -> Z.
Variable thumbnail : Image -> Z * Z -> outcome (Z * Z * (Z -> Z -> pixel)).

Definition os_path_exists (p : string) : IO D bool :=
  fun s => (Return (path_exists (files s) p), s).

Definition os_path_getsize (p : string) : IO D Z :=
  fun s => (getsize (files s) p, s).

Definition PIL_open (p : string) : IO D picture :=
  fun s => (Image_open (files s) p, s).

Definition write {A} (call : D -> outcome A * D) : IO D A :=
  fun s =>
    let '(r, d) := call (files s) in
    (r, {| objects := objects s; files := d; events := events s |}).

Definition PIL_save (im : Image) (p : string) (save_kwargs : Config.dict)
  : IO D unit :=
  write (fun d => Image_save d im p save_kwargs).

Definition os_mkdir (p : string) : IO D unit :=
  write (fun d => mkdir d p).

Definition shutil_copy2 (src dst : string) : IO D unit :=
  write (fun d => copy2 d src dst).

Definition in_modes (m : string) (ms : list string) : bool :=
  bool_decide (m ∈ ms).

(** [background = Image.new('RGB', size, white);
     background.paste(img, mask=img.split()[-1])] for an image with an
    alpha band in its fourth byte. *)
Definition flatten_on_white (size : Z * Z) (px : Z -> Z -> pixel)
  : result Image :=
  let img := {| im_mode := RGBA; im_size := size; im_px := px |} in
  paste_image (white size) img (0, 0) (Some img).

(** The conversion of [load_image] to RGB, up to the size check. A file
    that is RGB already is not read yet: its pixels are still pending. *)
Definition converted_pixels (img : picture) : outcome (outcome (Z -> Z -> pixel)) :=
  if in_modes (pic_mode img) ["RGBA"; "LA"; "P"]%string then
    px ← (if String.eqb (pic_mode img) "P" then pic_convert img RGBA
          else pic_bytes img);
    background ← of_result (flatten_on_white (pic_size img) px);
    mret (Return (im_px background))
  else if negb (String.eqb (pic_mode img) "RGB") then
    px ← pic_convert img RGB;
    mret (Return px)
  else mret (pic_bytes img).

Definition exceeds (size max_size : Z * Z) : bool :=
  (fst size >? fst max_size) || (snd size >? snd max_size).

(** [ImageProcessor.load_image(self, file_path)] *)
Definition load_image (self : ImageProcessor) (file_path : string)
  : IO D (option loc) :=
  try_io
    (found ← os_path_exists file_path;
     if negb found then
       emit (Logged (Error_file_not_found file_path));; mret None
     else if negb (is_supported_format file_path "input") then
       emit (Logged (Error_unsupported_format file_path));; mret None
     else
       size ← os_path_getsize file_path;
       file_size_mb ← lift_result (true_div size (1024 * 1024));
       if float_gt_int file_size_mb Config.max_file_size_mb then
         emit (Logged (Error_file_too_large file_size_mb));; mret None
       else
         img ← PIL_open file_path;
         pending ← lift_outcome (converted_pixels img);
         let max_size := Config.max_image_size in
         final ←
           (if exceeds (pic_size img) max_size then
              emit (Logged (Warning_resizing (pic_size img)));;
              px ← lift_outcome pending;
              t ← lift_outcome
                    (thumbnail {| im_mode := RGB; im_size := pic_size img;
                                  im_px := px |} max_size);
              mret {| im_mode := RGB; im_size := fst t; im_px := snd t |}
            else
              px ← lift_outcome pending;
              mret {| im_mode := RGB; im_size := pic_size img; im_px := px |});
         result ← run_M (new_object final);
         emit (Logged (Info_image_loaded file_path (im_size final)));;
         mret (Some result))
    (fun e => emit (Logged (Error_loading_image file_path e));; mret None).

(** [ImageProcessor.load_logo(self, logo_path)]: the flag it returns and
    the processor it leaves. *)
Definition load_logo (self : ImageProcessor) (logo_path : string)
  : IO D (bool * ImageProcessor) :=
  try_io
    (found ← os_path_exists logo_path;
     if negb found then
       emit (Logged (Error_logo_not_found logo_path));; mret (false, self)
     else if negb (is_supported_format logo_path "logo") then
       emit (Logged (Error_unsupported_logo_format logo_path));;
       mret (false, self)
     else
       logo ← PIL_open logo_path;
       converted ←
         lift_outcome
           (if in_modes (pic_mode logo) ["RGBA"; "LA"]%string then
              px ← (if String.eqb (pic_mode logo) "RGBA" then pic_bytes logo
                    else pic_convert logo RGBA);
              mret {| im_mode := RGBA; im_size := pic_size logo; im_px := px |}
            else
              px ← (if String.eqb (pic_mode logo) "RGB" then pic_bytes logo
                    else pic_convert logo RGB);
              mret {| im_mode := RGB; im_size := pic_size logo; im_px := px |});
       run_M (new_object converted);;
       copy ← run_M (new_object converted);
       emit (Logged (Info_logo_loaded logo_path (im_size converted)));;
       mret (true, {| current_logo := Some copy;
                      default_settings := default_settings self |}))
    (fun e => emit (Logged (Error_loading_logo logo_path e));;
              mret (false, self)).

(** [preview.thumbnail(max_size, LANCZOS)], in place. *)
Definition Image_thumbnail (l : loc) (max_size : Z * Z) : IO D unit :=
  im ← run_M (deref l);
  t ← lift_outcome (thumbnail im max_size);
  run_M (assign l {| im_mode := im_mode im; im_size := fst t; im_px := snd t |}).

(** [ImageProcessor.create_preview(self, image, max_size)] *)
Definition create_preview (self : ImageProcessor) (image : loc)
    (max_size : option (Z * Z)) : IO D loc :=
  let max_size := default Config.preview_size max_size in
  try_io
    (preview ← run_M (Image_copy image);
     Image_thumbnail preview max_size;;
     mret preview)
    (fun e => emit (Logged (Error_creating_preview e));; mret image).

(** [ImageProcessor.save_image(self, image, file_path, quality)] for an
    image of mode RGB or RGBA. *)
Definition save_image (self : ImageProcessor) (image : loc)
    (file_path : string) (quality : option Z) : IO D bool :=
  try_io
    (if negb (is_supported_format file_path "output") then
       emit (Logged (Error_unsupported_output_format file_path));; mret false
     else
       os_mkdir (path_parent file_path);;
       let file_extension := str_lower (path_suffix file_path) in
       saved ←
         (if in_modes file_extension [".jpg"; ".jpeg"]%string then
            m ← run_M (Image_mode image);
            image ← match m with
                    | RGB => mret image
                    | RGBA =>
                        size ← run_M (Image_size image);
                        background ← run_M (new_object (white size));
                        run_M (Image_paste background image (0, 0) (Some image));;
                        mret background
                    end;
            mret (image, [("quality"%string, Config.VInt (quality_or_default quality));
                          ("optimize"%string, Config.VBool true)])
          else if String.eqb file_extension ".png" then
            mret (image, [("compress_level"%string, Config.VInt Config.png_compression);
                          ("optimize"%string, Config.VBool true)])
          else mret (image, []));
       im ← run_M (deref (fst saved));
       PIL_save im file_path (snd saved);;
       emit (Logged (Info_image_saved file_path));;
       mret true)
    (fun e => emit (Logged (Error_saving_image file_path e));; mret false).

(** What [save_image] returns and leaves once the format is accepted:
    the directory is made, then [im.save] receives [save_kwargs];
    [new_objects] are the images made on the way. *)
Definition saved_with (s : machine D) (new_objects : list Image) (im : Image)
    (file_path : string) (save_kwargs : Config.dict) : outcome bool * machine D :=
  let '(made, d1) := mkdir (files s) (path_parent file_path) in
  match made with
  | Throw e =>
      (Return false,
       {| objects := objects s; files := d1;
          events := events s ++ [Logged (Error_saving_image file_path e)] |})
  | Return _ =>
      let '(saved, d2) := Image_save d1 im file_path save_kwargs in
      (Return (match saved with Return _ => true | Throw _ => false end),
       {| objects := objects s ++ new_objects; files := d2;
          events := events s ++
            [Logged (match saved with
                     | Return _ => Info_image_saved file_path
                     | Throw e => Error_saving_image file_path e
                     end)] |})
  end.

(** The name [batch_process] saves the result of [image_path] under. *)
Definition output_file (output_dir image_path : string) : string :=
  joinpath output_dir (path_stem image_path ++ "_with_logo.jpg").

(** One turn of the [for] loop of [batch_process]: the list of saved
    paths after it. *)
Definition batch_step (self : ImageProcessor) (output_dir : string)
    (progress_callback : option (Z -> Z -> progress_message -> IO D unit))
    (logo_settings : kwargs) (total_images i : Z) (image_path : string)
    (processed_paths : list string) : IO D (list string) :=
  try_io
    (match progress_callback with
     | Some f => f i total_images (Processing (path_name image_path))
     | None => mret tt
     end;;
     image ← load_image self image_path;
     match image with
     | None => mret processed_paths
     | Some image =>
         processed_image ← run_M (apply_logo resample enhance self image logo_settings);
         match processed_image with
         | None => mret processed_paths
         | Some processed_image =>
             saved ← save_image self processed_image
                       (output_file output_dir image_path) None;
             mret (if saved : bool
                   then processed_paths ++ [output_file output_dir image_path]
                   else processed_paths)
         end
     end)
    (fun e => emit (Logged (Error_processing image_path e));;
              mret processed_paths).

Fixpoint batch_loop (self : ImageProcessor) (output_dir : string)
    (progress_callback : option (Z -> Z -> progress_message -> IO D unit))
    (logo_settings : kwargs) (total_images i : Z) (image_paths : list string)
    (processed_paths : list string) : IO D (list string) :=
  match image_paths with
  | [] => mret processed_paths
  | image_path :: rest =>
      processed_paths ← batch_step self output_dir progress_callback
                          logo_settings total_images i image_path processed_paths;
      batch_loop self output_dir progress_callback logo_settings total_images
        (i + 1) rest processed_paths
  end.

(** [ImageProcessor.batch_process(self, image_paths, output_dir,
     progress_callback, **logo_settings)] *)
Definition batch_process (self : ImageProcessor) (image_paths : list string)
    (output_dir : string)
    (progress_callback : option (Z -> Z -> progress_message -> IO D unit))
    (logo_settings : kwargs) : IO D (list string) :=
  match current_logo self with
  | None => emit (Logged Error_batch_without_logo);; mret []
  | Some _ =>
      os_mkdir output_dir;;
      let total_images := Z.of_nat (length image_paths) in
      processed_paths ← batch_loop self output_dir progress_callback
                          logo_settings total_images 0 image_paths [];
      match progress_callback with
      | Some f => f total_images total_images Processing_finished
      | None => mret tt
      end;;
      emit (Logged (Info_batch_done (Z.of_nat (length processed_paths))
                      total_images));;
      mret processed_paths
  end.

(** *** [src/utils.py] *)

(** [ensure_directory(directory_path)] *)
Definition ensure_directory (directory_path : string) : IO D bool :=
  try_io
    (os_mkdir directory_path;; mret true)
    (fun e => emit (Logged (Error_creating_directory directory_path e));;
              mret false).

(** [get_file_size_mb(file_path)] *)
Definition get_file_size_mb (file_path : string) : IO D float :=
  try_io
    (found ← os_path_exists file_path;
     if found : bool then
       size ← os_path_getsize file_path;
       lift_result (true_div size (1024 * 1024))
     else mret (S754_zero false))
    (fun e => emit (Logged (Error_file_size file_path e));;
              mret (S754_zero false)).

(** [validate_image_file(file_path)]; [get_config('image')] holds
    [max_file_size_mb] and [max_image_size] under these keys. *)
Definition validate_image_file (file_path : string) : IO D (bool * verdict) :=
  try_io
    (found ← os_path_exists file_path;
     if negb found then mret (false, File_not_found)
     else if negb (is_supported_format file_path "input") then
       mret (false, Unsupported_file_format)
     else
       let max_size_mb := Config.max_file_size_mb in
       file_size_mb ← get_file_size_mb file_path;
       if float_gt_int file_size_mb max_size_mb then
         mret (false, File_too_large file_size_mb max_size_mb)
       else
         try_io
           (img ← PIL_open file_path;
            let max_dimensions := Config.max_image_size in
            if exceeds (pic_size img) max_dimensions then
              mret (false, Picture_too_large (pic_size img) max_dimensions)
            else mret (true, Valid))
           (fun e => mret (false, Cannot_open e)))
    (fun e => mret (false, Validation_error e)).

(** The [str] of a configuration value used as a directory. *)
Definition as_directory (v : Config.value) : outcome string :=
  match v with
  | Config.VStr s => Return s
  | Config.VPath parts => Return (config_path parts)
  | _ => Throw TypeError
  end.

(** [create_backup(file_path, backup_dir)] *)
Definition create_backup (file_path : string) (backup_dir : option string)
  : IO D (option string) :=
  try_io
    (found ← os_path_exists file_path;
     if negb found then mret None
     else
       backup_dir ←
         match backup_dir with
         | Some d => mret d
         | None =>
             v ← lift_result (Config.getitem (Config.get_config (Some "paths"%string))
                                "backup_dir");
             lift_outcome (as_directory v)
         end;
       ensure_directory backup_dir;;
       let file_name := path_name file_path in
       now ← (fun s => (Return (timestamp (files s)), s));
       let backup_name := (now ++ "_" ++ file_name)%string in
       let backup_path := os_path_join backup_dir backup_name in
       shutil_copy2 file_path backup_path;;
       emit (Logged (Info_backup_created file_path backup_path));;
       mret (Some backup_path))
    (fun e => emit (Logged (Error_creating_backup file_path e));; mret None).

(** [str(counter)] for a positive counter. *)
Definition str_of_int (n : Z) : string :=
  NilZero.string_of_int (Z.to_int n).

(** The [while] loop of [get_unique_filename], for at most [fuel] more
    turns; [None] when it is still looping then. *)
Fixpoint unique_loop (fuel : nat) (d : D) (directory base_name extension : string)
    (counter : Z) (file_path : string) : option string :=
  if path_exists d file_path then
    match fuel with
    | O => None
    | S fuel' =>
        let new_name := (base_name ++ "_" ++ str_of_int counter ++ extension)%string in
        unique_loop fuel' d directory base_name extension (counter + 1)
          (os_path_join directory new_name)
    end
  else Some (os_path_basename file_path).

(** [get_unique_filename(directory, base_name, extension)] *)
Definition get_unique_filename (fuel : nat) (d : D)
    (directory base_name extension : string) : option string :=
  let original_name := (base_name ++ extension)%string in
  unique_loop fuel d directory base_name extension 1
    (os_path_join directory original_name).

(** The candidate name the loop tries at turn [k]: the original name at
    0, then the numbered ones. *)
Definition candidate (directory base_name extension : string) (k : nat) : string :=
  match k with
  | O => os_path_join directory (base_name ++ extension)
  | S _ => os_path_join directory
             (base_name ++ "_" ++ str_of_int (Z.of_nat k) ++ extension)
  end.

(** *** [src/main.py]: the three handlers that open a dialog

    Each evaluates [get_config('paths')[key]] for the [initialdir]
    argument before it calls the dialog; [dialog] stands for the call
    and all that follows it in the [try] block. *)

Definition dialog_handler (key : string) (error : failure -> log_line)
    (dialog : Config.value -> IO D unit) : IO D unit :=
  try_io
    (initialdir ← lift_result (Config.getitem (Config.get_config (Some "paths"%string)) key);
     dialog initialdir)
    (fun e => emit (Logged (error e));; emit (Showerror (error e))).

(** [LogoMasterApp._load_images] *)
Definition _load_images (dialog : Config.value -> IO D unit) : IO D unit :=
  dialog_handler "last_open_dir" Error_loading_images dialog.

(** [LogoMasterApp._load_logo] *)
Definition _load_logo (dialog : Config.value -> IO D unit) : IO D unit :=
  dialog_handler "last_logo_dir" Error_loading_logo_file dialog.

(** [LogoMasterApp._batch_process], with the application's lists of
    images and its logo flag. *)
Definition _batch_process (current_images : list string) (logo_loaded : bool)
    (dialog : Config.value -> IO D unit) : IO D unit :=
  if bool_decide (current_images = []) || negb logo_loaded then mret tt
  else dialog_handler "last_save_dir" Error_starting_batch dialog.

End Files.

(** What [load_image] logs and builds from a file it has opened: the
    warning of the resize if any, and the RGB image or the exception. *)
Definition load_opened
    (thumbnail : Image -> Z * Z -> outcome (Z * Z * (Z -> Z -> pixel)))
    (img : picture) : list log_line * outcome Image :=
  match converted_pixels img with
  | Throw e => ([], Throw e)
  | Return pending =>
      if exceeds (pic_size img) Config.max_image_size then
        ([Warning_resizing (pic_size img)],
         px ← pending;
         t ← thumbnail {| im_mode := RGB; im_size := pic_size img; im_px := px |}
               Config.max_image_size;
         mret {| im_mode := RGB; im_size := fst t; im_px := snd t |})
      else
        ([], px ← pending;
             mret {| im_mode := RGB; im_size := pic_size img; im_px := px |})
  end.

(** The machine after the logger received [lines]. *)
Definition logged {D} (s : machine D) (lines : list log_line) : machine D :=
  {| objects := objects s; files := files s;
     events := events s ++ map Logged lines |}.

(** The calls of the progress callback among the events. *)
Definition progress_calls (es : list event) : list (Z * Z * progress_message) :=
  omap (fun e => match e with
                 | Progress current total message => Some (current, total, message)
                 | _ => None
                 end) es.

(** The calls [batch_process] makes in its loop, from index [i] on. *)
Fixpoint loop_calls (total i : Z) (names : list string)
  : list (Z * Z * progress_message) :=
  match names with
  | [] => []
  | name :: rest => (i, total, Processing name) :: loop_calls total (i + 1) rest
  end.

(** A computation whose only events are lines of the logger. *)
Definition logs_only {D A} (m : IO D A) : Prop :=
  forall s, exists lines, events (snd (m s)) = events s ++ map Logged lines.

(** ** A small file system to run the code on *)

(** ** File names (utils.py)

    [safe_filename] measures and cuts its argument, so here a [str] is
    the list of its code points. [os.path.splitext] is the platform's. *)

Definition invalid_chars : list Z := [60; 62; 58; 34; 47; 92; 124; 63; 42].

Definition unnamed : list Z := [117; 110; 110; 97; 109; 101; 100].

(** [s.replace(old, new)] for one-character [old] and [new]. *)
Definition str_replace (old new : Z) (s : list Z) : list Z :=
  map (fun c => if c =? old then new else c) s.

(** [s.rstrip(chars)]. *)
Fixpoint rstrip (chars : list Z) (s : list Z) : list Z :=
  match s with
  | [] => []
  | c :: r =>
      match rstrip chars r with
      | [] => if bool_decide (c ∈ chars) then [] else [c]
      | t => c :: t
      end
  end.

(** [s[:stop]]: a negative [stop] counts from the end. *)
Definition slice_to (s : list Z) (stop : Z) : list Z :=
  take (Z.to_nat (if stop <? 0 then Z.of_nat (length s) + stop else stop)) s.

Section Names.
Variable splitext : list Z -> list Z * list Z.

(** The name after the replacements and [rstrip], before the cut. *)
Definition stripped (filename : list Z) : list Z :=
  rstrip [46; 32]
    (foldl (fun safe_name char => str_replace char 95 safe_name)
           filename invalid_chars).

Definition safe_filename (filename : list Z) : list Z :=
  let safe_name := stripped filename in
  let safe_name :=
    if 200 <? Z.of_nat (length safe_name)
    then let '(name, ext) := splitext safe_name in
         slice_to name (200 - Z.of_nat (length ext)) ++ ext
    else safe_name in
  if bool_decide (safe_name = []) then unnamed else safe_name.
End Names.

Module Sample.

(** The part of [s] after the last [c], and the part before it. *)
Fixpoint after_last (c : ascii) (s : string) : option string :=
  match s with
  | EmptyString => None
  | String a r =>
      match after_last c r with
      | Some t => Some t
      | None => if Ascii.eqb a c then Some r else None
      end
  end.

Fixpoint before_last (c : ascii) (s : string) : option string :=
  match s with
  | EmptyString => None
  | String a r =>
      match before_last c r with
      | Some t => Some (String a t)
      | None => if Ascii.eqb a c then Some EmptyString else None
      end
  end.

Definition name_of (p : string) : string := default p (after_last "/" p).

Definition suffix_of (p : string) : string :=
  match after_last "." (name_of p), before_last "." (name_of p) with
  | Some (String a e), Some (String b _) => String "." (String a e)
  | _, _ => EmptyString
  end.

Definition stem_of (p : string) : string :=
  match after_last "." (name_of p), before_last "." (name_of p) with
  | Some (String a e), Some (String b t) => String b t
  | _, _ => name_of p
  end.

Definition lower_ascii (a : ascii) : ascii :=
  let n := nat_of_ascii a in
  if ((65 <=? n) && (n <=? 90))%nat then ascii_of_nat (n + 32) else a.

Fixpoint lower_of (s : string) : string :=
  match s with
  | EmptyString => EmptyString
  | String a r => String (lower_ascii a) (lower_of r)
  end.

Definition join_of (d n : string) : string := (d ++ "/" ++ n)%string.

#[export] Instance paths : Paths := {|
  path_suffix := suffix_of;
  path_stem := stem_of;
  path_name := name_of;
  path_parent := fun p => default "."%string (before_last "/" p);
  joinpath := join_of;
  os_path_join := join_of;
  os_path_basename := name_of;
  str_lower := lower_of
|}.

(** A disk is a list of files: a path, a size in bytes and the picture
    [Image.open] finds. *)
Definition disk := list (string * (Z * picture)).

Definition as_picture (im : Image) : picture :=
  {| pic_mode := match im_mode im with RGB => "RGB" | RGBA => "RGBA" end;
     pic_size := im_size im;
     pic_bytes := Return (im_px im);
     pic_convert := fun m => Return (match m with
                                     | RGB => fun i j => opaque (im_px im i j)
                                     | RGBA => im_px im
                                     end) |}.

#[export] Instance system : System disk := {|
  path_exists := fun d p => bool_decide (is_Some (Config.get d p));
  getsize := fun d p => match Config.get d p with
                        | Some f => Return (fst f)
                        | None => Throw OSError
                        end;
  Image_open := fun d p => match Config.get d p with
                           | Some f => Return (snd f)
                           | None => Throw OSError
                           end;
  Image_save := fun d im p _ => (Return tt, (p, (1, as_picture im)) :: d);
  mkdir := fun d _ => (Return tt, d);
  copy2 := fun d src dst => match Config.get d src with
                            | Some f => (Return tt, (dst, f) :: d)
                            | None => (Throw OSError, d)
                            end;
  timestamp := fun _ => "20240101_120000"%string;
  config_path := fun parts => foldr (fun a b => join_of b a) "."%string (rev parts)
|}.

(** Whole-image thumbnails by nearest neighbour, halving the size. *)
Definition half (im : Image) (max_size : Z * Z)
  : outcome (Z * Z * (Z -> Z -> pixel)) :=
  Return ((fst (im_size im) / 2, snd (im_size im) / 2),
          fun i j => im_px im (2 * i) (2 * j)).

(** A photo of 1000×800 opaque grey pixels, a logo of 200×100 half
    transparent ink, a note that is no image. *)
Definition photo : picture := as_picture Example.base0.
Definition mark : picture := as_picture Example.logo0.

Definition desk : disk := [
  ("in/photo.JPG", (300000, photo));
  ("in/logo.png", (20000, mark));
  ("in/huge.png", (60000000, photo));
  ("in/notes.txt", (12, photo))
]%string.

Definition start (d : disk) : machine disk :=
  {| objects := []; files := d; events := [] |}.

(** [os.path.splitext] of posixpath on code points. *)
Fixpoint rfind (c : Z) (p : list Z) : Z :=
  match p with
  | [] => -1
  | x :: r =>
      let i := rfind c r in
      if 0 <=? i then i + 1 else if x =? c then 0 else -1
  end.

Definition splitext (p : list Z) : list Z * list Z :=
  let sepIndex := rfind 47 p in
  let dotIndex := rfind 46 p in
  if (sepIndex <? dotIndex)
     && existsb (fun x => negb (x =? 46))
          (take (Z.to_nat (dotIndex - (sepIndex + 1)))
                (drop (Z.to_nat (sepIndex + 1)) p))
  then (take (Z.to_nat dotIndex) p, drop (Z.to_nat dotIndex) p)
  else (p, []).

(** The images of [Example.w0] on the sample disk. *)
Definition studio : machine disk :=
  {| objects := heap Example.w0; files := desk; events := [] |}.

(** A directory where [a.jpg] and [a_1.jpg] are taken. *)
Definition taken : disk :=
  [("out/a.jpg", (1, photo)); ("out/a_1.jpg", (1, photo))]%string.

(** 250 letters with a colon among them, then [.jpg], a dot and a space. *)
Definition long_name : list Z :=
  replicate 125 97 ++ [58] ++ replicate 124 97 ++ [46; 106; 112; 103; 46; 32].

End Sample.

(** * Properties *)

(** ** Binary64 arithmetic

    What the proofs need of [SpecFloat]: shifts are floors, and rounding a
    53-digit mantissa is the identity. *)

Lemma mul_le_cancel_r (x y c : Z) : 0 < c -> x * c <= y * c -> x <= y.
Proof. intros Hc H. apply Z.mul_le_mono_pos_r in H; assumption. Qed.

Lemma mul_lt_cancel_r (x y c : Z) : 0 < c -> x * c < y * c -> x < y.
Proof. intros Hc H. apply Z.mul_lt_mono_pos_r in H; assumption. Qed.

Lemma quotient_lower (a b q r X Y Z' T : Z) :
  0 < b -> 0 < X -> 0 < T -> Y <= a -> b < Z' -> Y * X = T * Z' ->
  a * X = b * q + r -> 0 <= r < b -> T <= q.
Proof.
  intros Hb HX HT HY HZ E Hdiv Hr.
  assert (H1 : Y * X <= a * X) by (apply Z.mul_le_mono_nonneg_r; lia).
  assert (H2 : T * b < T * Z') by (apply Z.mul_lt_mono_pos_l; lia).
  assert (H3 : T * b < (q + 1) * b) by lia.
  apply mul_lt_cancel_r in H3; lia.
Qed.

Lemma quotient_upper (a b q r X Y Z' T : Z) :
  0 < b -> 0 < X -> 0 < T -> a < Y -> Z' <= b -> Y * X = T * Z' ->
  a * X = b * q + r -> 0 <= r < b -> q < T.
Proof.
  intros Hb HX HT HY HZ E Hdiv Hr.
  assert (H1 : a * X < Y * X) by (apply Z.mul_lt_mono_pos_r; lia).
  assert (H2 : T * Z' <= T * b) by (apply Z.mul_le_mono_nonneg_l; lia).
  assert (H3 : q * b < T * b) by lia.
  apply mul_lt_cancel_r in H3; lia.
Qed.

(** One unit in the last place, without and with renormalisation. *)
Lemma ulp_bounds (m m1 q a b S N r : Z) :
  (m = m1 \/ m = m1 + 1) ->
  m1 * N <= q < (m1 + 1) * N ->
  a * (S * N) = b * q + r -> 0 <= r < b -> 0 < N -> 0 < b ->
  (m - 1) * b <= a * S < (m + 1) * b.
Proof.
  intros Hm Hq Hdiv Hr HN Hb.
  assert (H1 : (m - 1) * N <= m1 * N) by (apply Z.mul_le_mono_nonneg_r; lia).
  assert (H2 : (m1 + 1) * N <= (m + 1) * N) by (apply Z.mul_le_mono_nonneg_r; lia).
  assert (H3 : (m - 1) * N * b <= q * b) by (apply Z.mul_le_mono_nonneg_r; lia).
  assert (H4 : (q + 1) * b <= (m + 1) * N * b) by (apply Z.mul_le_mono_nonneg_r; lia).
  split.
  - apply (mul_le_cancel_r _ _ N HN).
    replace ((m - 1) * b * N) with ((m - 1) * N * b) by ring.
    replace (a * S * N) with (a * (S * N)) by ring. lia.
  - apply (mul_lt_cancel_r _ _ N HN).
    replace ((m + 1) * b * N) with ((m + 1) * N * b) by ring.
    replace (a * S * N) with (a * (S * N)) by ring. lia.
Qed.

Lemma ulp_bounds_carry (m m1 q a b S N r : Z) :
  2 * m = m1 + 1 ->
  m1 * N <= q < (m1 + 1) * N ->
  a * (S * (2 * N)) = b * q + r -> 0 <= r < b -> 0 < N -> 0 < b ->
  (m - 1) * b <= a * S < (m + 1) * b.
Proof.
  intros Hm Hq Hdiv Hr HN Hb.
  assert (H1 : (2 * m - 1) * N = m1 * N) by (f_equal; lia).
  assert (H2 : (m1 + 1) * N = 2 * m * N) by (f_equal; lia).
  assert (H3 : (2 * m - 1) * N * b <= q * b) by (apply Z.mul_le_mono_nonneg_r; lia).
  assert (H4 : (q + 1) * b <= 2 * m * N * b) by (apply Z.mul_le_mono_nonneg_r; lia).
  assert (H5 : 0 < N * b) by (apply Z.mul_pos_pos; lia).
  split.
  - apply (mul_le_cancel_r _ _ (2 * N) ltac:(lia)).
    replace (a * S * (2 * N)) with (a * (S * (2 * N))) by ring.
    replace ((m - 1) * b * (2 * N)) with ((2 * m - 1) * N * b - N * b) by ring. lia.
  - apply (mul_lt_cancel_r _ _ (2 * N) ltac:(lia)).
    replace (a * S * (2 * N)) with (a * (S * (2 * N))) by ring.
    replace ((m + 1) * b * (2 * N)) with (2 * m * N * b + 2 * (N * b)) by ring. lia.
Qed.

Lemma scale_bounds (lo hi m X : Z) :
  lo <= m < hi -> 0 < X -> lo * X <= m * X < hi * X.
Proof.
  intros [H1 H2] HX. split.
  - apply Z.mul_le_mono_nonneg_r; lia.
  - apply Z.mul_lt_mono_pos_r; lia.
Qed.

(** The height [lh] obtained from a quotient [m / S] within one unit in
    the last place of [A / B], a product [mp / Sp] within one unit of
    [Hh * m / S], and the truncation of [mp / Sp]. *)
Lemma truncated_height_bounds (A B Hh m mp lh S Sp T : Z) :
  1 <= A -> 1 <= B -> 1 <= Hh -> 0 < S -> 0 < Sp -> 4 <= T ->
  (m - 1) * B <= A * S < (m + 1) * B -> T <= m ->
  (mp - 1) * S <= Hh * m * Sp < (mp + 1) * S -> T <= mp ->
  lh * Sp <= mp < (lh + 1) * Sp ->
  4 * (Hh * A) < T ->
  Hh * A - B <= lh * B <= Hh * A.
Proof.
  intros HA HB HH HS HSp HT [D1 D2] D3 [M1 M2] M3 [T1 T2] R.
  assert (F1 : (T - 1) * B <= A * S).
  { assert ((T - 1) * B <= (m - 1) * B) by (apply Z.mul_le_mono_nonneg_r; lia). lia. }
  assert (G1 : 2 * (Hh * B) < S).
  { destruct (Z.lt_ge_cases (2 * (Hh * B)) S) as [?|Hc]; [assumption|].
    assert (A * S <= A * (2 * (Hh * B))) by (apply Z.mul_le_mono_nonneg_l; lia).
    assert ((T - 1) * B <= (2 * (Hh * A)) * B) by lia.
    apply mul_le_cancel_r in H0; lia. }
  assert (F3 : m * B <= A * S + B) by lia.
  assert (F2 : (T - 1) * S <= Hh * m * Sp).
  { assert ((T - 1) * S <= (mp - 1) * S) by (apply Z.mul_le_mono_nonneg_r; lia). lia. }
  assert (G2 : 2 * B < Sp).
  { destruct (Z.lt_ge_cases (2 * B) Sp) as [?|Hc]; [assumption|].
    assert (Hh * m * Sp <= Hh * m * (2 * B)) by (apply Z.mul_le_mono_nonneg_l; [apply Z.mul_nonneg_nonneg|]; lia).
    assert (Hh * (m * B) <= Hh * (A * S + B)) by (apply Z.mul_le_mono_nonneg_l; lia).
    assert ((T - 1 - 2 * (Hh * A)) * S <= 2 * (Hh * B)) by lia.
    assert (1 * S <= (T - 1 - 2 * (Hh * A)) * S) by (apply Z.mul_le_mono_nonneg_r; lia).
    lia. }
  assert (G1' : 2 * (Hh * B) * Sp < S * Sp) by (apply Z.mul_lt_mono_pos_r; lia).
  assert (G2' : 2 * B * S < Sp * S) by (apply Z.mul_lt_mono_pos_r; lia).
  split.
  - (* lower bound *)
    destruct (Z.le_gt_cases (Hh * A - B) (lh * B)) as [?|Hc]; [assumption|].
    assert (L1 : (mp + 1) * S <= (lh + 1) * Sp * S) by (apply Z.mul_le_mono_nonneg_r; lia).
    assert (L2 : Hh * m < (lh + 1) * S).
    { apply (mul_lt_cancel_r _ _ Sp HSp). lia. }
    assert (L3 : (Hh * m + 1) * B <= (lh + 1) * S * B) by (apply Z.mul_le_mono_nonneg_r; lia).
    assert (L4 : (lh + 1) * B * S <= (Hh * A - 1) * S) by (apply Z.mul_le_mono_nonneg_r; lia).
    assert (L5 : Hh * (A * S) < Hh * ((m + 1) * B)) by (apply Z.mul_lt_mono_pos_l; lia).
    lia.
  - (* upper bound *)
    destruct (Z.le_gt_cases (lh * B) (Hh * A)) as [?|Hc]; [assumption|].
    assert (U1 : lh * Sp * B <= mp * B) by (apply Z.mul_le_mono_nonneg_r; lia).
    assert (U1' : (Hh * A + 1) * Sp <= lh * B * Sp) by (apply Z.mul_le_mono_nonneg_r; lia).
    assert (U2 : (mp - 1) * S * B <= Hh * m * Sp * B) by (apply Z.mul_le_mono_nonneg_r; lia).
    assert (U3 : Hh * Sp * (m * B) <= Hh * Sp * (A * S + B))
      by (apply Z.mul_le_mono_nonneg_l; [apply Z.mul_nonneg_nonneg|]; lia).
    assert (U4 : (Hh * A + 1) * Sp * S <= mp * B * S) by (apply Z.mul_le_mono_nonneg_r; lia).
    lia.
Qed.

Lemma digits2_pos_bounds (p : positive) :
  2 ^ (Zpos (digits2_pos p) - 1) <= Zpos p < 2 ^ Zpos (digits2_pos p).
Proof.
  induction p as [p IH|p IH|]; simpl digits2_pos.
  - rewrite Pos2Z.inj_succ, Pos2Z.inj_xI.
    replace (Z.succ (Zpos (digits2_pos p)) - 1) with (Z.succ (Zpos (digits2_pos p) - 1)) by lia.
    rewrite !Z.pow_succ_r by lia. lia.
  - rewrite Pos2Z.inj_succ.
    replace (Z.succ (Zpos (digits2_pos p)) - 1) with (Z.succ (Zpos (digits2_pos p) - 1)) by lia.
    rewrite !Z.pow_succ_r by lia. pose proof (Pos2Z.inj_xO p). lia.
  - simpl. lia.
Qed.

(** The number of digits is determined by the bounds. *)
Lemma digits2_pos_unique (p : positive) (d : Z) :
  2 ^ (d - 1) <= Zpos p < 2 ^ d -> Zpos (digits2_pos p) = d.
Proof.
  intros [Hlo Hhi]. pose proof (digits2_pos_bounds p) as [Hlo' Hhi'].
  assert (0 < d).
  { destruct (Z.ltb_spec 0 d); [done|].
    assert (2 ^ d <= 2 ^ 0) by (apply Z.pow_le_mono_r; lia). simpl in *. lia. }
  destruct (Z.lt_trichotomy (Zpos (digits2_pos p)) d) as [Hlt|[?|Hgt]]; [|done|].
  - assert (2 ^ Zpos (digits2_pos p) <= 2 ^ (d - 1)) by (apply Z.pow_le_mono_r; lia). lia.
  - assert (2 ^ d <= 2 ^ (Zpos (digits2_pos p) - 1)) by (apply Z.pow_le_mono_r; lia). lia.
Qed.

Lemma iter_xO_mul (m k : positive) :
  Zpos (Pos.iter xO m k) = Zpos m * 2 ^ Zpos k.
Proof.
  induction k as [|k IH] using Pos.peano_ind.
  - simpl. lia.
  - rewrite Pos.iter_succ, Pos2Z.inj_succ, Z.pow_succ_r by lia.
    pose proof (Pos2Z.inj_xO (Pos.iter xO m k)). lia.
Qed.

Lemma iter_pos_iter {A} (f : A -> A) (n : positive) (x : A) :
  SpecFloat.iter_pos f n x = Pos.iter f x n.
Proof.
  revert x. induction n as [n IH|n IH|]; intros x; simpl.
  - rewrite !IH. by rewrite !Pos.iter_swap.
  - by rewrite !IH.
  - done.
Qed.

Lemma shr_1_double (m : Z) :
  0 <= m ->
  shr_1 {| shr_m := 2 * m; shr_r := false; shr_s := false |} =
    {| shr_m := m; shr_r := false; shr_s := false |}.
Proof. intros H. destruct m as [|p|p]; [done|done|lia]. Qed.

Lemma shr_exact (m : Z) (n : positive) :
  0 <= m ->
  SpecFloat.iter_pos shr_1 n {| shr_m := m * 2 ^ Zpos n; shr_r := false; shr_s := false |} =
    {| shr_m := m; shr_r := false; shr_s := false |}.
Proof.
  intros Hm. rewrite iter_pos_iter. revert m Hm.
  induction n as [|n IH] using Pos.peano_ind; intros m Hm.
  - simpl. replace (m * 2 ^ 1) with (2 * m) by lia. by apply shr_1_double.
  - rewrite Pos.iter_succ, Pos2Z.inj_succ, Z.pow_succ_r by lia.
    replace (m * (2 * 2 ^ Zpos n)) with ((2 * m) * 2 ^ Zpos n) by lia.
    rewrite IH by lia. by apply shr_1_double.
Qed.

Lemma shr_1_m (r : shr_record) : 0 <= shr_m r -> shr_m (shr_1 r) = shr_m r / 2.
Proof.
  destruct r as [m r s]. simpl. intros H.
  destruct m as [|[p|p|]|p]; simpl.
  - done.
  - pose proof (Pos2Z.inj_xI p). apply Z.div_unique with 1; lia.
  - pose proof (Pos2Z.inj_xO p). apply Z.div_unique with 0; lia.
  - done.
  - lia.
Qed.

Lemma shr_floor (r : shr_record) (n : positive) :
  0 <= shr_m r -> shr_m (SpecFloat.iter_pos shr_1 n r) = shr_m r / 2 ^ Zpos n.
Proof.
  intros Hm. rewrite iter_pos_iter.
  induction n as [|n IH] using Pos.peano_ind.
  - simpl. rewrite shr_1_m by done. f_equal.
  - rewrite Pos.iter_succ, shr_1_m, IH, Pos2Z.inj_succ, Z.pow_succ_r by
      (try rewrite IH; try apply Z.div_pos; lia).
    rewrite Z.div_div by lia. f_equal. lia.
Qed.

Lemma fexp_normal (e : Z) : -1021 <= e -> fexp prec emax e = e - 53.
Proof. intros H. unfold fexp, SpecFloat.emin, prec, emax. lia. Qed.

Lemma shr_zero (r : shr_record) (e : Z) : shr r e 0 = (r, e).
Proof. reflexivity. Qed.

Lemma shr_pos (r : shr_record) (e : Z) (k : positive) :
  shr r e (Zpos k) = (SpecFloat.iter_pos shr_1 k r, e + Zpos k).
Proof. reflexivity. Qed.

(** Rounding a mantissa of 53 digits followed by [n] zero bits is exact. *)
Lemma binary_round_aux_exact (sx : bool) (q m : positive) (e n : Z) :
  Zpos q = Zpos m * 2 ^ n -> 0 <= n ->
  Zpos (digits2_pos m) = 53 ->
  -1074 <= e + n <= 971 ->
  binary_round_aux prec emax sx (Zpos q) e loc_Exact = S754_finite sx m (e + n).
Proof.
  intros Hq Hn Hm He.
  assert (Hd : Zpos (digits2_pos q) = 53 + n).
  { apply digits2_pos_unique. pose proof (digits2_pos_bounds m) as Hb.
    rewrite Hm in Hb. rewrite Hq.
    replace (53 + n - 1) with (52 + n) by lia.
    rewrite !Z.pow_add_r by lia.
    apply scale_bounds; [|apply Z.pow_pos_nonneg; lia].
    change (53 - 1) with 52 in Hb. exact Hb. }
  assert (Hshift : forall p e', Zpos (digits2_pos p) = 53 -> -1074 <= e' ->
            shr_fexp prec emax (Zpos p) e' loc_Exact =
              ({| shr_m := Zpos p; shr_r := false; shr_s := false |}, e')).
  { intros p e' Hp He'. unfold shr_fexp. cbn [Zdigits2]. rewrite Hp.
    rewrite fexp_normal by lia. replace (53 + e' - 53 - e') with 0 by lia.
    reflexivity. }
  unfold binary_round_aux.
  assert (H1 : shr_fexp prec emax (Zpos q) e loc_Exact =
                 ({| shr_m := Zpos m; shr_r := false; shr_s := false |}, e + n)).
  { unfold shr_fexp. cbn [Zdigits2]. rewrite Hd.
    rewrite fexp_normal by lia. replace (53 + n + e - 53 - e) with n by lia.
    destruct n as [|k|k]; [| |lia].
    - rewrite shr_zero. cbn [shr_record_of_loc]. repeat f_equal; lia.
    - rewrite shr_pos. cbn [shr_record_of_loc]. rewrite Hq.
      by rewrite shr_exact by lia. }
  rewrite H1. cbn [shr_m loc_of_shr_record round_nearest_even].
  rewrite (Hshift m (e + n) Hm) by lia. cbn [shr_m].
  unfold prec, emax. replace (e + n <=? 1024 - 53) with true; [done|].
  symmetry. apply Z.leb_le. lia.
Qed.

(** [float(d)] is exact below 2^53: the mantissa is [|d|] shifted to 53
    digits. *)
Lemma int_to_float_exact (d : Z) :
  0 < Z.abs d < 2 ^ 53 ->
  exists (m : positive) (k : Z),
    int_to_float d = Ok (S754_finite (d <? 0) m (k - 53)) /\
    1 <= k <= 53 /\
    Zpos m = Z.abs d * 2 ^ (53 - k) /\
    Zpos (digits2_pos m) = 53.
Proof.
  intros Hd.
  assert (Hpos : forall (s : bool) (p : positive),
            Zpos p < 2 ^ 53 ->
            exists (m : positive) (k : Z),
              binary_round prec emax s p 0 = S754_finite s m (k - 53) /\
              1 <= k <= 53 /\
              Zpos m = Zpos p * 2 ^ (53 - k) /\
              Zpos (digits2_pos m) = 53).
  { intros s p Hp. set (k := Zpos (digits2_pos p)).
    pose proof (digits2_pos_bounds p) as Hb. fold k in Hb.
    assert (Hk : 1 <= k <= 53).
    { split; [unfold k; lia|].
      destruct (Z.leb_spec k 53); [done|].
      assert (2 ^ 53 <= 2 ^ (k - 1)) by (apply Z.pow_le_mono_r; lia). lia. }
    unfold binary_round. fold k. rewrite Z.add_0_r, fexp_normal by lia.
    unfold shl_align. rewrite Z.sub_0_r.
    destruct (k - 53) as [|j|j] eqn:Hj; [| lia |].
    - exists p, k. rewrite Hj.
      rewrite (binary_round_aux_exact s p p 0 0) by (fold k; lia).
      replace (53 - k) with 0 by lia. repeat split; try lia.
    - pose proof (iter_xO_mul p j) as Hmz.
      assert (Hj' : Zpos j = 53 - k) by lia. rewrite Hj' in Hmz.
      assert (Hdz : Zpos (digits2_pos (Pos.iter xO p j)) = 53).
      { apply digits2_pos_unique. rewrite Hmz.
        assert (E1 : 2 ^ (53 - 1) = 2 ^ (k - 1) * 2 ^ (53 - k)).
        { rewrite <- Z.pow_add_r by lia. f_equal. lia. }
        assert (E2 : 2 ^ 53 = 2 ^ k * 2 ^ (53 - k)).
        { rewrite <- Z.pow_add_r by lia. f_equal. lia. }
        rewrite E1, E2.
        apply scale_bounds; [exact Hb|apply Z.pow_pos_nonneg; lia]. }
      exists (Pos.iter xO p j), k.
      rewrite (binary_round_aux_exact s _ (Pos.iter xO p j) (Zneg j) 0).
      2:{ rewrite Z.pow_0_r. lia. } 2: lia. 2: done. 2: lia.
      rewrite Z.add_0_r, Hj. repeat split; try done; lia. }
  unfold int_to_float, binary_normalize.
  destruct d as [|p|p]; [simpl in Hd; lia| |].
  - destruct (Hpos false p) as (m & k & E & Hk & Hm & Hdm); [simpl in Hd; lia|].
    exists m, k. rewrite E. split; [reflexivity|]. split; [done|]. split; [exact Hm|exact Hdm].
  - destruct (Hpos true p) as (m & k & E & Hk & Hm & Hdm); [simpl in Hd; lia|].
    exists m, k. rewrite E. split; [reflexivity|]. split; [done|]. split; [exact Hm|exact Hdm].
Qed.

(** [int(d * 0.5)] truncates [d / 2] toward zero. *)
Lemma int_mul_half (d : Z) :
  Z.abs d < 2 ^ 53 ->
  rbind (int_mul_float d f_0_5) float_to_int = Ok (Z.quot d 2).
Proof.
  intros Hd. destruct (Z.eq_dec d 0) as [->|Hnz]; [reflexivity|].
  destruct (int_to_float_exact d) as (m & k & E & Hk & Hm & Hdm); [lia|].
  unfold int_mul_float. rewrite E. cbn [rbind].
  unfold f_0_5, SFmul.
  rewrite (binary_round_aux_exact _ _ m (k - 53 + -53) 52);
    [|rewrite Pos2Z.inj_mul; reflexivity|lia|done|lia].
  rewrite xorb_false_r.
  unfold float_to_int.
  destruct (k - 53 + -53 + 52) as [|j|j] eqn:Hj; [lia|lia|].
  rewrite Z.shiftr_div_pow2 by lia. rewrite Hm.
  assert (Hj' : Zpos j = (53 - k) + 1) by lia. rewrite Hj'.
  rewrite Z.pow_add_r, Z.pow_1_r by lia.
  assert (0 < 2 ^ (53 - k)) by (apply Z.pow_pos_nonneg; lia).
  rewrite Z.mul_comm, Z.div_mul_cancel_l by lia.
  f_equal. destruct d as [|p|p]; [done| |].
  - simpl Z.ltb. cbv iota. simpl Z.abs. by rewrite Z.quot_div_nonneg by lia.
  - simpl Z.ltb. cbv iota. simpl Z.abs.
    change (Zneg p) with (- Zpos p). rewrite Z.quot_opp_l by lia.
    by rewrite Z.quot_div_nonneg by lia.
Qed.

Lemma shr_record_of_loc_m (m : Z) (l : location) :
  shr_m (shr_record_of_loc m l) = m.
Proof. by destruct l as [|[]]. Qed.

Lemma round_nearest_even_cases (m : Z) (l : location) :
  round_nearest_even m l = m \/ round_nearest_even m l = m + 1.
Proof. destruct l as [|[]]; simpl; try destruct (Z.even m); auto. Qed.

(** Rounding a mantissa of [d >= 53] digits in the normal range: the
    [d - 53] low bits are dropped and the result is the floor or the
    floor plus one, renormalised when the carry reaches 2^53. *)
Lemma binary_round_aux_normal (sx : bool) (p : positive) (ex : Z)
    (lx : location) (d : Z) :
  Zpos (digits2_pos p) = d -> 53 <= d ->
  -1074 <= ex + d - 53 -> ex + d - 53 < 970 ->
  exists (m : positive) (e : Z),
    binary_round_aux prec emax sx (Zpos p) ex lx = S754_finite sx m e /\
    Zpos (digits2_pos m) = 53 /\
    let m1 := Zpos p / 2 ^ (d - 53) in
    (e = ex + (d - 53) /\ (Zpos m = m1 \/ Zpos m = m1 + 1) \/
     e = ex + (d - 53) + 1 /\ 2 * Zpos m = m1 + 1).
Proof.
  intros Hd Hd53 Hlo Hhi. set (n := d - 53). set (m1 := Zpos p / 2 ^ n).
  pose proof (digits2_pos_bounds p) as Hb. rewrite Hd in Hb.
  assert (Hn : 0 <= n) by (unfold n; lia).
  assert (Hpow : 2 ^ (d - 1) = 2 ^ 52 * 2 ^ n /\ 2 ^ d = 2 ^ 53 * 2 ^ n).
  { split; rewrite <- Z.pow_add_r by lia; f_equal; unfold n; lia. }
  destruct Hpow as [Hp1 Hp2]. rewrite Hp1, Hp2 in Hb.
  assert (H2n : 0 < 2 ^ n) by (apply Z.pow_pos_nonneg; lia).
  assert (Hm1 : 2 ^ 52 <= m1 < 2 ^ 53).
  { unfold m1. split.
    - apply Z.div_le_lower_bound; lia.
    - apply Z.div_lt_upper_bound; lia. }
  assert (H1 : exists R, shr_fexp prec emax (Zpos p) ex lx = (R, ex + n) /\
                         shr_m R = m1).
  { unfold shr_fexp. cbn [Zdigits2]. rewrite Hd, fexp_normal by lia.
    replace (d + ex - 53 - ex) with n by (unfold n; lia).
    destruct n as [|k|k] eqn:Hk; [| |lia].
    - eexists. rewrite shr_zero, Z.add_0_r. split; [reflexivity|].
      rewrite shr_record_of_loc_m. unfold m1.
      by rewrite Z.pow_0_r, Z.div_1_r.
    - eexists. rewrite shr_pos. split; [reflexivity|].
      rewrite shr_floor by (rewrite shr_record_of_loc_m; lia).
      rewrite shr_record_of_loc_m. by unfold m1. }
  destruct H1 as (R & HR & HRm).
  unfold binary_round_aux. rewrite HR.
  set (m2 := round_nearest_even (shr_m R) (loc_of_shr_record R)).
  assert (Hm2 : m2 = m1 \/ m2 = m1 + 1).
  { unfold m2. rewrite HRm. apply round_nearest_even_cases. }
  destruct (Z.ltb_spec m2 (2 ^ 53)) as [Hlt|Hge].
  - destruct m2 as [|p2|p2] eqn:Ep2; [lia| |lia].
    assert (Hd2 : Zpos (digits2_pos p2) = 53) by (apply digits2_pos_unique; lia).
    unfold shr_fexp. cbn [Zdigits2]. rewrite Hd2, fexp_normal by (unfold n; lia).
    replace (53 + (ex + n) - 53 - (ex + n)) with 0 by lia.
    rewrite shr_zero. cbn [shr_record_of_loc shr_m].
    exists p2, (ex + n).
    replace (ex + n <=? emax - prec) with true
      by (symmetry; apply Z.leb_le; unfold emax, prec, n; lia).
    split; [done|]. split; [done|]. left. split; [done|]. lia.
  - assert (Em2 : m2 = 2 * 2 ^ 52) by (change (2 ^ 53) with (2 * 2 ^ 52) in *; lia).
    assert (Hd2 : Zdigits2 m2 = 54).
    { rewrite Em2. reflexivity. }
    unfold shr_fexp. rewrite Hd2, fexp_normal by (unfold n; lia).
    replace (54 + (ex + n) - 53 - (ex + n)) with 1 by lia.
    rewrite shr_pos. cbn [shr_record_of_loc SpecFloat.iter_pos].
    rewrite Em2, shr_1_double by lia. cbn [shr_m].
    change (2 ^ 52) with (Zpos 4503599627370496).
    exists 4503599627370496%positive, (ex + n + 1).
    replace (ex + n + 1 <=? emax - prec) with true
      by (symmetry; apply Z.leb_le; unfold emax, prec, n; lia).
    split; [done|]. split; [reflexivity|]. right. split; [done|].
    change (2 ^ 53) with (2 * 2 ^ 52) in *.
    change (Zpos 4503599627370496) with (2 ^ 52). lia.
Qed.

Lemma pow2_pos (n : Z) : 0 <= n -> 0 < 2 ^ n.
Proof. intros H. apply Z.pow_pos_nonneg; lia. Qed.

Lemma pow2_split (a b : Z) : 0 <= a -> 0 <= b -> 2 ^ (a + b) = 2 ^ a * 2 ^ b.
Proof. intros Ha Hb. by rewrite Z.pow_add_r. Qed.

(** [a / b] for positive ints below 2^50 and 2^53: a normal float within
    one unit in the last place of the quotient. *)
Lemma true_div_bounds (a b : Z) :
  1 <= a < 2 ^ 50 -> 1 <= b < 2 ^ 53 ->
  exists (m : positive) (e : Z),
    true_div a b = Ok (S754_finite false m e) /\
    Zpos (digits2_pos m) = 53 /\
    -110 <= e < 0 /\
    (Zpos m - 1) * b <= a * 2 ^ (- e) < (Zpos m + 1) * b.
Proof.
  intros Ha Hb. unfold true_div.
  destruct (Z.eqb_spec b 0) as [?|_]; [lia|].
  destruct a as [|pa|pa]; [lia| |lia]. destruct b as [|pb|pb]; [lia| |lia].
  cbn [int_as_sf]. unfold SFdiv, SFdiv_core_binary. cbn [Zdigits2 xorb].
  set (d1 := Zpos (digits2_pos pa)). set (d2 := Zpos (digits2_pos pb)).
  pose proof (digits2_pos_bounds pa) as Hba. fold d1 in Hba.
  pose proof (digits2_pos_bounds pb) as Hbb. fold d2 in Hbb.
  assert (Hd1 : 1 <= d1 <= 50).
  { split; [unfold d1; lia|]. destruct (Z.leb_spec d1 50); [done|].
    assert (2 ^ 50 <= 2 ^ (d1 - 1)) by (apply Z.pow_le_mono_r; lia). lia. }
  assert (Hd2 : 1 <= d2 <= 53).
  { split; [unfold d2; lia|]. destruct (Z.leb_spec d2 53); [done|].
    assert (2 ^ 53 <= 2 ^ (d2 - 1)) by (apply Z.pow_le_mono_r; lia). lia. }
  rewrite !Z.add_0_r, fexp_normal by lia.
  replace (Z.min (d1 - d2 - 53) (0 - 0)) with (d1 - d2 - 53) by lia.
  set (s := 0 - 0 - (d1 - d2 - 53)).
  assert (Hs : 0 < s) by (unfold s; lia).
  destruct s as [|ks|ks] eqn:Es; [lia| |lia]. rewrite <- Es.
  rewrite Z.shiftl_mul_pow2 by lia.
  pose proof (Z.div_eucl_eq (Zpos pa * 2 ^ s) (Zpos pb) ltac:(lia)) as Hdiv.
  pose proof (Z.mod_pos_bound (Zpos pa * 2 ^ s) (Zpos pb) ltac:(lia)) as Hmod.
  unfold Z.modulo in Hmod.
  destruct (Z.div_eucl (Zpos pa * 2 ^ s) (Zpos pb)) as [q r].
  assert (H2s : 0 < 2 ^ s) by (apply pow2_pos; lia).
  (* the quotient has 53 or 54 digits *)
  assert (Eq1 : 2 ^ (d1 - 1) * 2 ^ s = 2 ^ 52 * 2 ^ d2).
  { rewrite <- !pow2_split by lia. f_equal. lia. }
  assert (Eq2 : 2 ^ d1 * 2 ^ s = 2 ^ 54 * 2 ^ (d2 - 1)).
  { rewrite <- !pow2_split by lia. f_equal. lia. }
  assert (Hq : 2 ^ 52 <= q < 2 ^ 54).
  { split.
    - apply (quotient_lower (Zpos pa) (Zpos pb) q r (2 ^ s) (2 ^ (d1 - 1))
               (2 ^ d2) (2 ^ 52)); lia.
    - apply (quotient_upper (Zpos pa) (Zpos pb) q r (2 ^ s) (2 ^ d1)
               (2 ^ (d2 - 1)) (2 ^ 54)); lia. }
  destruct q as [|pq|pq]; [lia| |lia].
  set (dq := Zpos (digits2_pos pq)).
  pose proof (digits2_pos_bounds pq) as Hbq. fold dq in Hbq.
  assert (Hdq : dq = 53 \/ dq = 54).
  { destruct (Z.lt_trichotomy dq 53) as [?|[?|?]]; [|by left|].
    - assert (2 ^ dq <= 2 ^ 52) by (apply Z.pow_le_mono_r; lia). lia.
    - destruct (Z.eq_dec dq 54); [by right|].
      assert (2 ^ 54 <= 2 ^ (dq - 1)) by (apply Z.pow_le_mono_r; lia). lia. }
  destruct (binary_round_aux_normal false pq (d1 - d2 - 53)
              (new_location (Zpos pb) r) dq eq_refl)
    as (m & e & E & Hm & Hcases); [lia|lia|lia|].
  rewrite E. exists m, e. split; [done|]. split; [done|].
  set (n := dq - 53) in *.
  assert (Hn : n = 0 \/ n = 1) by (unfold n; lia).
  assert (Hfl : Zpos pq / 2 ^ n * 2 ^ n <= Zpos pq < (Zpos pq / 2 ^ n + 1) * 2 ^ n).
  { destruct Hn as [-> | ->]; change (2 ^ 0) with 1; change (2 ^ 1) with 2.
    - rewrite Z.div_1_r. lia.
    - pose proof (Z.div_mod (Zpos pq) 2 ltac:(lia)).
      pose proof (Z.mod_pos_bound (Zpos pq) 2 ltac:(lia)). lia. }
  set (m1 := Zpos pq / 2 ^ n) in *.
  assert (H2n : 0 < 2 ^ n) by (apply pow2_pos; lia).
  destruct Hcases as [[-> Hmm]|[-> Hmm]].
  - split; [lia|].
    apply (ulp_bounds (Zpos m) m1 (Zpos pq) (Zpos pa) (Zpos pb)
             (2 ^ (- (d1 - d2 - 53 + n))) (2 ^ n) r);
      try done; try lia.
    rewrite <- Hdiv. f_equal. rewrite <- pow2_split by lia. f_equal. lia.
  - split; [lia|].
    apply (ulp_bounds_carry (Zpos m) m1 (Zpos pq) (Zpos pa) (Zpos pb)
             (2 ^ (- (d1 - d2 - 53 + n + 1))) (2 ^ n) r);
      try done; try lia.
    rewrite <- Hdiv. f_equal.
    replace (2 * 2 ^ n) with (2 ^ (1 + n)) by (rewrite pow2_split by lia; done).
    rewrite <- pow2_split by lia. f_equal. lia.
Qed.

(** [h * f] for a positive int below 2^53 and a positive normal float:
    a normal float within one unit in the last place of the product. *)
Lemma int_mul_float_bounds (h : Z) (m : positive) (e kb : Z) :
  1 <= h < 2 ^ kb -> 0 <= kb <= 53 ->
  Zpos (digits2_pos m) = 53 -> -110 <= e -> kb + e + 1 < 0 ->
  exists (mp : positive) (ep : Z),
    int_mul_float h (S754_finite false m e) = Ok (S754_finite false mp ep) /\
    Zpos (digits2_pos mp) = 53 /\
    ep < 0 /\
    (Zpos mp - 1) * 2 ^ (- e) <= h * Zpos m * 2 ^ (- ep)
      < (Zpos mp + 1) * 2 ^ (- e).
Proof.
  intros Hh Hkb Hm He Hke.
  assert (Hh53 : 2 ^ kb <= 2 ^ 53) by (apply Z.pow_le_mono_r; lia).
  destruct (int_to_float_exact h) as (mh & k & E & Hk & Hmh & Hdmh); [lia|].
  rewrite Z.abs_eq in Hmh by lia.
  replace (h <? 0) with false in E by (symmetry; apply Z.ltb_ge; lia).
  pose proof (digits2_pos_bounds mh) as Hbmh. rewrite Hdmh in Hbmh.
  pose proof (digits2_pos_bounds m) as Hbm. rewrite Hm in Hbm.
  change (53 - 1) with 52 in Hbmh, Hbm.
  assert (H2k : 0 < 2 ^ (53 - k)) by (apply pow2_pos; lia).
  assert (Hkkb : k <= kb).
  { destruct (Z.le_gt_cases k kb) as [?|Hc]; [done|].
    assert (2 ^ kb <= 2 ^ (k - 1)) by (apply Z.pow_le_mono_r; lia).
    assert (E53 : 2 ^ 52 = 2 ^ (k - 1) * 2 ^ (53 - k)).
    { rewrite <- pow2_split by lia. f_equal. lia. }
    assert (h * 2 ^ (53 - k) < 2 ^ (k - 1) * 2 ^ (53 - k))
      by (apply Z.mul_lt_mono_pos_r; lia).
    lia. }
  unfold int_mul_float. rewrite E. cbn [rbind]. unfold SFmul. cbn [xorb].
  set (P := (mh * m)%positive).
  assert (HP : Zpos P = Zpos mh * Zpos m) by (unfold P; apply Pos2Z.inj_mul).
  assert (HPb : 2 ^ 104 <= Zpos P < 2 ^ 106).
  { rewrite HP. split.
    - change (2 ^ 104) with (2 ^ 52 * 2 ^ 52).
      apply Z.mul_le_mono_nonneg; lia.
    - change (2 ^ 106) with (2 ^ 53 * 2 ^ 53).
      apply Z.mul_lt_mono_nonneg; lia. }
  set (dP := Zpos (digits2_pos P)).
  pose proof (digits2_pos_bounds P) as HbP. fold dP in HbP.
  assert (HdP : dP = 105 \/ dP = 106).
  { destruct (Z.lt_trichotomy dP 105) as [?|[?|?]]; [|by left|].
    - assert (2 ^ dP <= 2 ^ 104) by (apply Z.pow_le_mono_r; lia). lia.
    - destruct (Z.eq_dec dP 106); [by right|].
      assert (2 ^ 106 <= 2 ^ (dP - 1)) by (apply Z.pow_le_mono_r; lia). lia. }
  destruct (binary_round_aux_normal false P (k - 53 + e) loc_Exact dP eq_refl)
    as (mp & ep & Er & Hmp & Hcases); [lia|lia|lia|].
  rewrite Er. exists mp, ep. split; [done|]. split; [done|].
  set (n := dP - 53) in *.
  assert (Hn : 0 <= n) by (unfold n; lia).
  assert (H2n : 0 < 2 ^ n) by (apply pow2_pos; lia).
  pose proof (Z.mul_div_le (Zpos P) (2 ^ n) H2n) as Hfl1.
  pose proof (Z.mul_succ_div_gt (Zpos P) (2 ^ n) H2n) as Hfl2.
  set (p1 := Zpos P / 2 ^ n) in *.
  assert (Hfl : p1 * 2 ^ n <= Zpos P < (p1 + 1) * 2 ^ n) by lia.
  assert (H2e : 0 < 2 ^ (- e)) by (apply pow2_pos; lia).
  destruct Hcases as [[-> Hmm]|[-> Hmm]].
  - split; [unfold n; lia|].
    apply (ulp_bounds (Zpos mp) p1 (Zpos P) (h * Zpos m) (2 ^ (- e))
             (2 ^ (- (k - 53 + e + n))) (2 ^ n) 0);
      try done; try lia.
    rewrite <- pow2_split by (unfold n; lia).
    replace (- (k - 53 + e + n) + n) with (- e + (53 - k)) by lia.
    rewrite pow2_split, HP, Hmh by lia. ring.
  - split; [unfold n; lia|].
    apply (ulp_bounds_carry (Zpos mp) p1 (Zpos P) (h * Zpos m) (2 ^ (- e))
             (2 ^ (- (k - 53 + e + n + 1))) (2 ^ n) 0);
      try done; try lia.
    replace (2 * 2 ^ n) with (2 ^ (1 + n)) by (rewrite pow2_split by lia; done).
    rewrite <- pow2_split by (unfold n; lia).
    replace (- (k - 53 + e + n + 1) + (1 + n)) with (- e + (53 - k)) by lia.
    rewrite pow2_split, HP, Hmh by lia. ring.
Qed.

(** [int(f)] of a positive float with a negative exponent is the floor. *)
Lemma float_to_int_floor (m : positive) (e : Z) :
  e < 0 ->
  exists n, float_to_int (S754_finite false m e) = Ok n /\
            n * 2 ^ (- e) <= Zpos m < (n + 1) * 2 ^ (- e).
Proof.
  intros He. destruct e as [|p|p]; [lia|lia|]. cbn [float_to_int].
  change (- Zneg p) with (Zpos p).
  assert (H2 : 0 < 2 ^ Zpos p) by (apply pow2_pos; lia).
  exists (Zpos m / 2 ^ Zpos p). rewrite Z.shiftr_div_pow2 by lia.
  split; [done|].
  pose proof (Z.mul_div_le (Zpos m) (2 ^ Zpos p) H2).
  pose proof (Z.mul_succ_div_gt (Zpos m) (2 ^ Zpos p) H2). lia.
Qed.

(** The height [int(h0 * (lw / w0))] is within one pixel below the exact
    [h0 * lw / w0], for sides under 2^24. *)
Lemma compute_logo_height_bounds (w0 h0 lw : Z) :
  1 <= w0 < 2 ^ 24 -> 1 <= h0 < 2 ^ 24 -> 1 <= lw < 2 ^ 24 ->
  exists lh, compute_logo_height (w0, h0) lw = Ok lh /\
             h0 * lw - w0 <= lh * w0 <= h0 * lw.
Proof.
  intros Hw Hh Hl. unfold compute_logo_height. cbn [fst snd].
  destruct (true_div_bounds lw w0) as (m & e & E & Hm & He & Hq); [lia|lia|].
  rewrite E. cbn [rbind].
  pose proof (digits2_pos_bounds m) as Hbm. rewrite Hm in Hbm.
  change (53 - 1) with 52 in Hbm.
  assert (He28 : e <= -28).
  { destruct (Z.le_gt_cases e (-28)) as [?|Hc]; [done|].
    assert (2 ^ (- e) <= 2 ^ 27) by (apply Z.pow_le_mono_r; lia).
    assert (lw * 2 ^ (- e) <= lw * 2 ^ 27) by (apply Z.mul_le_mono_nonneg_l; lia).
    assert (lw * 2 ^ 27 < 2 ^ 24 * 2 ^ 27) by (apply Z.mul_lt_mono_pos_r; lia).
    assert ((Zpos m - 1) * 1 <= (Zpos m - 1) * w0)
      by (apply Z.mul_le_mono_nonneg_l; lia).
    change (2 ^ 24 * 2 ^ 27) with (2 ^ 51) in *.
    change (2 ^ 52) with (2 * 2 ^ 51) in Hbm. lia. }
  destruct (int_mul_float_bounds h0 m e 24) as (mp & ep & Em & Hmp & Hep & Hp);
    [lia|lia|done|lia|lia|].
  rewrite Em. cbn [rbind].
  destruct (float_to_int_floor mp ep Hep) as (lh & El & Hlh).
  rewrite El. exists lh. split; [done|].
  pose proof (digits2_pos_bounds mp) as Hbmp. rewrite Hmp in Hbmp.
  change (53 - 1) with 52 in Hbmp.
  apply (truncated_height_bounds lw w0 h0 (Zpos m) (Zpos mp) lh
           (2 ^ (- e)) (2 ^ (- ep)) (2 ^ 52));
    try lia; try (apply pow2_pos; lia).
  assert (h0 * lw < 2 ^ 24 * 2 ^ 24) by (apply Z.mul_lt_mono_nonneg; lia).
  change (2 ^ 24 * 2 ^ 24) with (2 ^ 48) in *.
  change (2 ^ 52) with (16 * 2 ^ 48). lia.
Qed.

(** The same with a width of zero: the height is zero. *)
Lemma compute_logo_height_bounds_0 (w0 h0 lw : Z) :
  1 <= w0 < 2 ^ 24 -> 1 <= h0 < 2 ^ 24 -> 0 <= lw < 2 ^ 24 ->
  exists lh, compute_logo_height (w0, h0) lw = Ok lh /\
             h0 * lw - w0 <= lh * w0 <= h0 * lw.
Proof.
  intros Hw Hh Hl. destruct (Z.eq_dec lw 0) as [->|Hnz].
  - exists 0. split; [|lia].
    unfold compute_logo_height, true_div. cbn [fst snd].
    destruct (Z.eqb_spec w0 0) as [?|_]; [lia|].
    destruct w0 as [|pw|pw]; [lia| |lia]. cbn [int_as_sf SFdiv xorb rbind].
    destruct (int_to_float_exact h0) as (mh & k & E & _); [lia|].
    unfold int_mul_float. rewrite E. reflexivity.
  - apply compute_logo_height_bounds; lia.
Qed.

(** ** Running the store monad *)

Section Run.
Context (resample : Image -> Z * Z -> Z -> Z -> pixel) (enhance : float -> Z -> Z).

Lemma bind_eq {A B} (m : M A) (k : A -> M B) (w : world) :
  (m ≫= k) w = match m w with
               | (Ok a, w') => k a w'
               | (Raise e, w') => (Raise e, w')
               end.
Proof. reflexivity. Qed.

Lemma bind_ret {A B} (a : A) (k : A -> M B) (w : world) :
  (mret a ≫= k) w = k a w.
Proof. reflexivity. Qed.

Lemma bind_ok {A B} (m : M A) (k : A -> M B) (w w' : world) (a : A) :
  m w = (Ok a, w') -> (m ≫= k) w = k a w'.
Proof. intros H. by rewrite bind_eq, H. Qed.

Lemma deref_ok l h lg im :
  h !! l = Some im ->
  deref l {| heap := h; log := lg |} = (Ok im, {| heap := h; log := lg |}).
Proof. intros H. unfold deref. simpl. by rewrite H. Qed.

Lemma Image_size_ok l h lg im :
  h !! l = Some im ->
  Image_size l {| heap := h; log := lg |} =
    (Ok (im_size im), {| heap := h; log := lg |}).
Proof. intros H. unfold Image_size. by rewrite (bind_ok _ _ _ _ _ (deref_ok _ _ lg _ H)). Qed.

Lemma Image_mode_ok l h lg im :
  h !! l = Some im ->
  Image_mode l {| heap := h; log := lg |} =
    (Ok (im_mode im), {| heap := h; log := lg |}).
Proof. intros H. unfold Image_mode. by rewrite (bind_ok _ _ _ _ _ (deref_ok _ _ lg _ H)). Qed.

Lemma Image_copy_ok l h lg im :
  h !! l = Some im ->
  Image_copy l {| heap := h; log := lg |} =
    (Ok (length h), {| heap := h ++ [im]; log := lg |}).
Proof.
  intros H. unfold Image_copy.
  by rewrite (bind_ok _ _ _ _ _ (deref_ok _ _ lg _ H)).
Qed.

Lemma Image_resize_eq l h lg im sz :
  h !! l = Some im ->
  Image_resize resample l sz {| heap := h; log := lg |} =
    match resize_image resample im sz with
    | Ok r => (Ok (length h), {| heap := h ++ [r]; log := lg |})
    | Raise e => (Raise e, {| heap := h; log := lg |})
    end.
Proof.
  intros H. unfold Image_resize.
  rewrite (bind_ok _ _ _ _ _ (deref_ok _ _ lg _ H)).
  rewrite bind_eq. unfold lift. by destruct (resize_image _ _ _).
Qed.

Lemma lookup_fresh (h objs : list Image) (i : nat) :
  (h ++ objs) !! (length h + i)%nat = objs !! i.
Proof. rewrite lookup_app_r by lia. f_equal. lia. Qed.

Lemma insert_fresh (h objs : list Image) (i : nat) im :
  <[(length h + i)%nat := im]> (h ++ objs) = h ++ <[i := im]> objs.
Proof. apply insert_app_r. Qed.

Lemma Image_putalpha_fresh h lg objs (i : nat) im band :
  objs !! i = Some im ->
  Image_putalpha (length h + i)%nat band {| heap := h ++ objs; log := lg |} =
    (Ok tt, {| heap := h ++ <[i := putalpha_image im band]> objs; log := lg |}).
Proof.
  intros H. unfold Image_putalpha.
  erewrite bind_ok by (apply deref_ok; rewrite lookup_fresh; exact H).
  unfold assign. simpl. by rewrite insert_fresh.
Qed.

(** The opacity step on the freshly resized logo, the last object. *)
Lemma apply_opacity_eq h lg base rz op :
  apply_opacity enhance (length h + 1)%nat op {| heap := h ++ [base; rz]; log := lg |} =
    (Ok (length h + length (opacity_objects enhance rz op))%nat,
     {| heap := h ++ base :: opacity_objects enhance rz op; log := lg |}).
Proof.
  unfold apply_opacity, opacity_objects.
  destruct (float_ltb op f_1_0); [|done].
  erewrite bind_ok by (apply Image_mode_ok; rewrite lookup_fresh; reflexivity).
  destruct (im_mode rz) eqn:Hm; simpl.
  - unfold Image_convert_RGBA.
    rewrite bind_eq.
    erewrite bind_ok by (apply deref_ok; rewrite lookup_fresh; reflexivity).
    unfold new_object; simpl.
    rewrite <- app_assoc; simpl. rewrite length_app; simpl.
    replace (length h + 2)%nat with (length h + 2)%nat by lia.
    unfold Image_last_band.
    rewrite bind_eq.
    erewrite bind_ok by (apply deref_ok; rewrite lookup_fresh; reflexivity).
    unfold mret at 1, M_ret at 1.
    rewrite bind_eq.
    erewrite (Image_putalpha_fresh h lg _ 2) by reflexivity.
    simpl. reflexivity.
  - rewrite bind_ret.
    unfold Image_last_band.
    rewrite bind_eq.
    erewrite bind_ok by (apply deref_ok; rewrite lookup_fresh; reflexivity).
    unfold mret at 1, M_ret at 1.
    rewrite bind_eq.
    erewrite (Image_putalpha_fresh h lg _ 1) by reflexivity.
    simpl. reflexivity.
Qed.

Lemma opacity_objects_last base rz op :
  (base :: opacity_objects enhance rz op) !! length (opacity_objects enhance rz op) =
    Some (logo_to_paste enhance rz op).
Proof.
  unfold opacity_objects, logo_to_paste.
  destruct (float_ltb op f_1_0); [|done]. by destruct (im_mode rz).
Qed.

Lemma Image_paste_eq h lg objs d s (ls : nat) box (masked : bool) :
  objs !! 0%nat = Some d -> objs !! ls = Some s ->
  Image_paste (length h) (length h + ls)%nat box
      (if masked then Some (length h + ls)%nat else None)
      {| heap := h ++ objs; log := lg |} =
    match paste_image d s box (if masked then Some s else None) with
    | Ok r => (Ok tt, {| heap := h ++ <[0%nat := r]> objs; log := lg |})
    | Raise e => (Raise e, {| heap := h ++ objs; log := lg |})
    end.
Proof.
  intros Hd Hs. unfold Image_paste.
  assert (Hd' : (h ++ objs) !! length h = Some d).
  { rewrite <- Hd, <- (lookup_fresh h objs 0). f_equal. lia. }
  erewrite bind_ok by (apply deref_ok; exact Hd').
  erewrite bind_ok by (apply deref_ok; rewrite lookup_fresh; exact Hs).
  destruct masked.
  - rewrite bind_eq.
    erewrite bind_ok by (apply deref_ok; rewrite lookup_fresh; exact Hs).
    unfold mret at 1, M_ret at 1. cbv beta iota.
    rewrite bind_eq. unfold lift.
    destruct (paste_image d s box (Some s)); [|done].
    unfold assign. simpl. rewrite <- (insert_fresh h objs 0). do 3 f_equal. lia.
  - rewrite bind_ret. rewrite bind_eq. unfold lift.
    destruct (paste_image d s box None); [|done].
    unfold assign. simpl. rewrite <- (insert_fresh h objs 0). do 3 f_equal. lia.
Qed.

Lemma body_run logo image s h lg0 base lg :
  h !! image = Some base -> h !! logo = Some lg ->
  apply_logo_body resample enhance logo image s {| heap := h; log := lg0 |} =
    (match snd (run resample enhance base lg s) with
     | Ok _ => Ok (length h)
     | Raise e => Raise e
     end,
     {| heap := h ++ fst (run resample enhance base lg s);
        log := lg0 ++ match snd (run resample enhance base lg s) with
                        | Ok (x, y, lw, lh) => [InfoLogoApplied x y lw lh]
                        | Raise _ => []
                        end |}).
Proof.
  intros Hb Hl. unfold apply_logo_body, run.
  rewrite (bind_ok _ _ _ _ _ (Image_copy_ok _ _ lg0 _ Hb)).
  erewrite bind_ok by (apply Image_size_ok; rewrite <- (Nat.add_0_r (length h)), lookup_fresh; reflexivity).
  rewrite bind_eq. unfold lift at 1.
  destruct (compute_logo_width _ _) as [lw|e]; [|by rewrite app_nil_r].
  erewrite bind_ok by (apply Image_size_ok; apply lookup_app_l_Some; exact Hl).
  rewrite bind_eq. unfold lift at 1.
  destruct (compute_logo_height _ _) as [lh|e]; [|by rewrite app_nil_r].
  rewrite bind_eq.
  erewrite Image_resize_eq by (apply lookup_app_l_Some; exact Hl).
  destruct (resize_image _ _ _) as [rz|e]; [|by rewrite app_nil_r].
  rewrite <- app_assoc. simpl app. rewrite length_app. simpl length.
  rewrite (bind_ok _ _ _ _ _ (apply_opacity_eq h lg0 base rz (st_opacity s))).
  unfold placement, requested_position.
  rewrite bind_eq.
  set (req := match st_custom_position s with Some p => mret p | None => _ end).
  set (req' := match st_custom_position s with Some p => Ok p | None => _ end).
  assert (Hreq : forall w, req w = (req', w)).
  { intros w. unfold req, req'. by destruct (st_custom_position s). }
  rewrite Hreq. clear Hreq. clearbody req'. clear req.
  destruct req' as [xy|e]; simpl rbind; cbv iota; [|by rewrite app_nil_r].
  simpl fst. simpl snd.
  erewrite bind_ok
    by (apply Image_mode_ok; rewrite (lookup_fresh h (base :: _)); apply opacity_objects_last).
  unfold composite.
  rewrite bind_eq.
  pose proof (fun m => Image_paste_eq h lg0
                  (base :: opacity_objects enhance rz (st_opacity s)) base
                  (logo_to_paste enhance rz (st_opacity s))
                  (length (opacity_objects enhance rz (st_opacity s)))
                  (clamp xy.1 (im_size base).1 lw, clamp xy.2 (im_size base).2 lh)
                  m eq_refl (opacity_objects_last base rz (st_opacity s))) as Hp.
  destruct (mode_eqb _ RGBA);
    [rewrite (Hp true) | rewrite (Hp false)]; clear Hp.
  all: match goal with |- context [paste_image ?a ?b ?c ?d] => destruct (paste_image a b c d) end.
  all: simpl; try by rewrite app_nil_r.
  all: reflexivity.
Qed.

(** [apply_logo] on a store that holds the base image and the logo. *)
Lemma apply_logo_run self logo image kw w base lg :
  current_logo self = Some logo ->
  heap w !! image = Some base -> heap w !! logo = Some lg ->
  apply_logo resample enhance self image kw w =
    after w (run resample enhance base lg (update (default_settings self) kw)).
Proof.
  intros Hc Hb Hl. destruct w as [h lg0]. simpl in Hb, Hl.
  unfold apply_logo, after, try_except. rewrite Hc.
  rewrite bind_eq, (body_run _ _ _ _ _ _ _ Hb Hl). simpl.
  destruct (run _ _ _ _ _) as [objs [[[[x y] lw] lh]|e]]; simpl;
    rewrite ?app_nil_r; reflexivity.
Qed.

(** ** The numbers of [src/config.py] *)

Lemma LOGO_POSITIONS_bottom_right :
  LOGO_POSITIONS !! "bottom_right"%string = Some (Int 1, Int 1).
Proof. reflexivity. Qed.

Lemma anchor_rel_unknown (name : string) :
  LOGO_POSITIONS !! name = None -> anchor_rel name = Ok (Int 1, Int 1).
Proof.
  intros H. unfold anchor_rel. rewrite H.
  rewrite bool_decide_eq_false_2 by (intros [? ?]; discriminate).
  reflexivity.
Qed.

(** ** The clamp *)

Lemma clamp_fits x img_dim logo_dim :
  logo_dim <= img_dim -> 0 <= clamp x img_dim logo_dim <= img_dim - logo_dim.
Proof. unfold clamp. lia. Qed.

Lemma clamp_too_large x img_dim logo_dim :
  img_dim < logo_dim -> clamp x img_dim logo_dim = 0.
Proof. unfold clamp. lia. Qed.

(** ** The images of a run *)

Lemma composite_ok base lg box :
  exists out, composite base lg box = Ok out /\
    im_size out = im_size base /\ im_mode out = im_mode base /\
    forall i j, inside box (im_size lg) i j = false ->
                im_px out i j = im_px base i j.
Proof.
  unfold composite, paste_image, size_eqb. rewrite !Z.eqb_refl. simpl.
  destruct (mode_eqb _ _); eexists; (split; [reflexivity|]); simpl;
    (repeat split); intros i j ->; reflexivity.
Qed.

Lemma size_eqb_eq (a b : Z * Z) : size_eqb a b = true <-> a = b.
Proof.
  destruct a, b. unfold size_eqb. simpl.
  rewrite andb_true_iff, !Z.eqb_eq. split; [intros []|intros [=]]; by subst.
Qed.

Lemma resize_image_size lg sz rz :
  resize_image resample lg sz = Ok rz -> im_size rz = sz.
Proof.
  unfold resize_image. destruct (size_eqb _ _) eqn:E.
  - intros [= <-]. by apply size_eqb_eq.
  - destruct (_ || _); [discriminate|]. by intros [= <-].
Qed.


Lemma logo_to_paste_size rz op :
  im_size (logo_to_paste enhance rz op) = im_size rz.
Proof.
  unfold logo_to_paste. destruct (float_ltb _ _); [|done].
  by destruct (im_mode rz).
Qed.

(** A successful call, taken apart. *)
Lemma apply_logo_success self logo image kw w base lg r w' :
  current_logo self = Some logo ->
  heap w !! image = Some base -> heap w !! logo = Some lg ->
  apply_logo resample enhance self image kw w = (Ok (Some r), w') ->
  let s := update (default_settings self) kw in
  exists lw lh rz xy out,
    compute_logo_width (fst (im_size base)) (st_size s) = Ok lw /\
    compute_logo_height (im_size lg) lw = Ok lh /\
    resize_image resample lg (lw, lh) = Ok rz /\
    placement s (im_size base) (lw, lh) = Ok xy /\
    composite base (logo_to_paste enhance rz (st_opacity s)) xy = Ok out /\
    r = length (heap w) /\
    w' = {| heap := heap w ++ out :: opacity_objects enhance rz (st_opacity s);
            log := log w ++ [InfoLogoApplied (fst xy) (snd xy) lw lh] |}.
Proof.
  intros Hc Hb Hl H s. rewrite (apply_logo_run _ _ _ _ _ _ _ Hc Hb Hl) in H.
  unfold after, run in H. fold s in H.
  destruct (compute_logo_width _ _) as [lw|] eqn:Ew; [|by simplify_eq/=].
  destruct (compute_logo_height _ _) as [lh|] eqn:Eh; [|by simplify_eq/=].
  destruct (resize_image _ _ _) as [rz|] eqn:Er; [|by simplify_eq/=].
  destruct (placement _ _ _) as [xy|] eqn:Ep; [|by simplify_eq/=].
  destruct (composite _ _ _) as [out|] eqn:Ec; [|by simplify_eq/=].
  injection H as <- <-. by exists lw, lh, rz, xy, out.
Qed.

(** ** The anchors *)

Lemma LOGO_POSITIONS_values (name : string) (rel_x rel_y : number) :
  LOGO_POSITIONS !! name = Some (rel_x, rel_y) ->
  (rel_x = Int 0 \/ rel_x = Float f_0_5 \/ rel_x = Int 1) /\
  (rel_y = Int 0 \/ rel_y = Float f_0_5 \/ rel_y = Int 1).
Proof.
  intros H. apply elem_of_list_to_map_2 in H.
  repeat (apply elem_of_cons in H as [[= -> -> ->]|H]; [by auto|]).
  by apply elem_of_nil in H.
Qed.

Lemma anchor_rel_known (name : string) (rel : number * number) :
  LOGO_POSITIONS !! name = Some rel -> anchor_rel name = Ok rel.
Proof.
  intros H. unfold anchor_rel, getitem. rewrite H.
  by rewrite bool_decide_eq_true_2 by eauto.
Qed.

Lemma anchor_coord_truncates (img_dim logo_dim : Z) (rel : number) (margin : Z) :
  rel = Int 0 \/ rel = Float f_0_5 \/ rel = Int 1 ->
  Z.abs (img_dim - logo_dim) < 2 ^ 53 ->
  anchor_coord img_dim logo_dim rel margin =
    Ok (truncated_coord img_dim logo_dim rel margin).
Proof.
  intros Hrel Hd. unfold anchor_coord, truncated_coord.
  destruct Hrel as [-> | [-> | ->]]; cbn [int_mul to_int halves rbind eq_int].
  - change (2 * 0) with 0. rewrite !Z.mul_0_r. reflexivity.
  - pose proof (int_mul_half _ Hd) as H.
    destruct (int_mul_float _ _) as [x|e]; [|discriminate].
    cbn [rbind to_int] in H |- *. rewrite H. cbn [rbind].
    by rewrite Z.mul_1_r.
  - change (2 * 1) with 2. rewrite Z.mul_1_r, Z.quot_mul by lia. reflexivity.
Qed.

(** ** Pasting an opaque pixel *)

Lemma blend8_opaque (d s : Z) : 0 <= s <= 255 -> blend8 255 d s = s.
Proof.
  intros Hs. unfold blend8, div255. cbv zeta.
  replace (d * (255 - 255) + s * 255) with (s * 255) by lia.
  rewrite !Z.shiftr_div_pow2 by lia. change (2 ^ 8) with 256.
  pose proof (Z.div_mod (s * 255 + 128) 256 ltac:(lia)) as H1.
  pose proof (Z.mod_pos_bound (s * 255 + 128) 256 ltac:(lia)) as H2.
  set (q := (s * 255 + 128) / 256) in *.
  symmetry. apply (Z.div_unique _ 256 s (q + (s * 255 + 128) - s * 256)); lia.
Qed.

Lemma composite_opaque base rz xy out :
  composite base rz xy = Ok out ->
  forall i j,
    inside xy (im_size rz) i j = true ->
    let p := source_px base rz (i - fst xy) (j - snd xy) in
    im_mode rz = RGB \/ alpha p = 255 ->
    byte_pixel p ->
    red (im_px out i j) = red p /\
    green (im_px out i j) = green p /\
    blue (im_px out i j) = blue p.
Proof.
  intros Hout i j Hin p Hop (Hr & Hg & Hb & _).
  unfold composite, paste_image in Hout.
  destruct (im_mode rz) eqn:Hm; cbn [mode_eqb] in Hout.
  - injection Hout as <-. cbn [im_px]. rewrite Hin. fold p.
    by destruct (im_mode base).
  - destruct Hop as [?|Ha]; [done|].
    unfold size_eqb in Hout. rewrite !Z.eqb_refl in Hout. cbn [andb negb] in Hout.
    injection Hout as <-. cbn [im_px]. rewrite Hin. fold p.
    assert (Hmask : last_band rz (i - fst xy) (j - snd xy) = 255).
    { unfold last_band. unfold p, source_px in Ha. rewrite Hm in Ha.
      by destruct (im_mode base). }
    rewrite Hmask. unfold blend_pixel. cbn [red green blue].
    by rewrite !blend8_opaque.
Qed.

Lemma float_ltb_1_1 : float_ltb f_1_0 f_1_0 = false.
Proof. reflexivity. Qed.

Lemma logo_to_paste_at_1 rz op :
  float_ltb op f_1_0 = false ->
  logo_to_paste enhance rz op = rz /\ opacity_objects enhance rz op = [rz].
Proof. intros H. unfold logo_to_paste, opacity_objects. by rewrite H. Qed.

End Run.

(** ** Claims *)

Section Claims.
Context (resample : Image -> Z * Z -> Z -> Z -> pixel)
        (enhance : float -> Z -> Z).

(** C5: without a logo, [apply_logo] composites nothing: it logs the
    missing logo, returns [None] and leaves the store as it was, whatever
    the image and the settings. *)
Theorem apply_logo_without_logo (self : ImageProcessor) (image : loc)
    (kw : kwargs) (w : world) :
  current_logo self = None ->
  apply_logo resample enhance self image kw w =
    (Ok None, {| heap := heap w; log := log w ++ [ErrLogoNotLoaded] |}).
Proof. intros H. unfold apply_logo. rewrite H. reflexivity. Qed.

(** C9: a keyword left out of the call takes the built-in default:
    position bottom_right, size 0.1, opacity 0.8, margin 20; and 0.8 is
    below 1.0, so the default call scales the logo's alpha. *)
Theorem apply_logo_defaults (logo : option loc) (image : loc) (kw : kwargs)
    (w : world) :
  let self := {| current_logo := logo;
                 default_settings := default_settings init |} in
  update (default_settings self) kw =
    update (default_settings self) (Spec.fill_defaults kw) /\
  apply_logo resample enhance self image kw w =
    apply_logo resample enhance self image (Spec.fill_defaults kw) w /\
  update (default_settings self) no_kwargs =
    {| st_position := "bottom_right"; st_size := literal 1 10;
       st_opacity := literal 8 10; st_margin := 20;
       st_custom_position := None |} /\
  float_ltb (st_opacity (update (default_settings self) no_kwargs)) f_1_0
    = true.
Proof.
  assert (E : update (default_settings init) kw =
              update (default_settings init) (Spec.fill_defaults kw)).
  { destruct kw as [[p|] [sz|] [o|] [m|] c]; reflexivity. }
  intros self. subst self. unfold apply_logo.
  cbn [default_settings current_logo]. rewrite <- E.
  split; [reflexivity|]. split; [reflexivity|]. split; reflexivity.
Qed.

(** C7: a position name that is not a key of [LOGO_POSITIONS] raises
    nothing: the lookup yields the entry of bottom_right, and the whole
    call is the call with bottom_right. *)
Theorem unknown_position_is_bottom_right (self : ImageProcessor)
    (image : loc) (kw : kwargs) (w : world) (name : string) :
  LOGO_POSITIONS !! name = None ->
  anchor_rel name = Ok (Int 1, Int 1) /\
  anchor_rel name = anchor_rel "bottom_right" /\
  apply_logo resample enhance self image (with_position kw name) w =
    apply_logo resample enhance self image (with_position kw "bottom_right") w.
Proof.
  intros H. pose proof (anchor_rel_unknown name H) as E.
  split; [exact E|]. split; [by rewrite E|].
  assert (E' : anchor_rel "bottom_right" = Ok (Int 1, Int 1)) by reflexivity.
  unfold apply_logo, apply_logo_body, anchor_position.
  cbn [update with_position st_position st_size st_opacity st_margin
       st_custom_position kw_position kw_size kw_opacity kw_margin
       kw_custom_position from_option id].
  by rewrite E, E'.
Qed.


(** C8: a successful call returns a new object of the base image's size
    and mode, the base image is still in the store as it was, and
    outside the rectangle of the pasted logo every pixel is the base
    image's. *)
Theorem composite_frame (self : ImageProcessor) (logo image : loc)
    (kw : kwargs) (w w' : world) (base lg : Image) (r : loc) :
  current_logo self = Some logo ->
  heap w !! image = Some base -> heap w !! logo = Some lg ->
  apply_logo resample enhance self image kw w = (Ok (Some r), w') ->
  exists out x y lw lh,
    heap w !! r = None /\ r <> image /\
    heap w' !! r = Some out /\
    heap w' !! image = Some base /\
    im_size out = im_size base /\
    im_mode out = im_mode base /\
    last (log w') = Some (InfoLogoApplied x y lw lh) /\
    x = clamp x (fst (im_size base)) lw /\
    y = clamp y (snd (im_size base)) lh /\
    forall i j, inside (x, y) (lw, lh) i j = false ->
                im_px out i j = im_px base i j.
Proof.
  intros Hc Hb Hl Hrun.
  destruct (apply_logo_success resample enhance _ _ _ _ _ _ _ _ _ Hc Hb Hl Hrun)
    as (lw & lh & rz & xy & out & Ew & Eh & Er & Ep & Ec & -> & ->).
  destruct (composite_ok base (logo_to_paste enhance rz
              (st_opacity (update (default_settings self) kw))) xy)
    as (out' & Ec' & Hsz & Hmd & Hpx).
  rewrite Ec in Ec'. injection Ec' as <-.
  rewrite (logo_to_paste_size enhance), (resize_image_size resample _ _ _ Er) in Hpx.
  unfold placement in Ep.
  destruct (requested_position _ _ _) as [req|]; [|discriminate].
  injection Ep as <-.
  exists out, (clamp req.1 (im_size base).1 lw), (clamp req.2 (im_size base).2 lh), lw, lh.
  split; [by apply lookup_ge_None|].
  split; [apply lookup_lt_Some in Hb; lia|].
  split; [simpl; rewrite <- (Nat.add_0_r (length (heap w))); by rewrite lookup_fresh|].
  split; [simpl; by apply lookup_app_l_Some|].
  split; [exact Hsz|]. split; [exact Hmd|].
  split; [simpl; by rewrite last_snoc|].
  split; [unfold clamp; lia|]. split; [unfold clamp; lia|].
  exact Hpx.
Qed.

(** A call only adds objects to the store. *)
Lemma apply_logo_extends self logo image kw w base lg :
  current_logo self = Some logo ->
  heap w !! image = Some base -> heap w !! logo = Some lg ->
  forall l im, heap w !! l = Some im ->
               heap (snd (apply_logo resample enhance self image kw w)) !! l
               = Some im.
Proof.
  intros Hc Hb Hl l im H. rewrite (apply_logo_run resample enhance _ _ _ _ _ _ _ Hc Hb Hl).
  simpl. by apply lookup_app_l_Some.
Qed.

(** C10: a call changes no object that was in the store, so neither
    the base image nor the stored logo; a second call with the same
    arguments returns another new object with the same mode, size and
    pixels as the first. *)
Theorem apply_logo_twice (self : ImageProcessor) (logo image : loc)
    (kw : kwargs) (w : world) (base lg : Image) :
  current_logo self = Some logo ->
  heap w !! image = Some base -> heap w !! logo = Some lg ->
  let first := apply_logo resample enhance self image kw w in
  let second := apply_logo resample enhance self image kw (snd first) in
  (forall l im, heap w !! l = Some im -> heap (snd first) !! l = Some im) /\
  heap (snd first) !! image = Some base /\
  heap (snd first) !! logo = Some lg /\
  (fst first = Ok None -> fst second = Ok None) /\
  (forall a, fst first = Ok (Some a) ->
     exists b out, fst second = Ok (Some b) /\ a <> b /\
                   heap (snd first) !! a = Some out /\
                   heap (snd second) !! a = Some out /\
                   heap (snd second) !! b = Some out).
Proof.
  intros Hc Hb Hl first second.
  pose proof (apply_logo_extends _ _ _ kw _ _ _ Hc Hb Hl) as Hext.
  fold first in Hext.
  pose proof (Hext _ _ Hb) as Hb1. pose proof (Hext _ _ Hl) as Hl1.
  split; [exact Hext|]. split; [exact Hb1|]. split; [exact Hl1|].
  subst second.
  rewrite (apply_logo_run resample enhance _ _ _ _ _ _ _ Hc Hb1 Hl1).
  subst first. rewrite (apply_logo_run resample enhance _ _ _ _ _ _ _ Hc Hb Hl).
  destruct (run resample enhance base lg (update (default_settings self) kw))
    as [objs [[[[x y] lw] lh]|e]] eqn:Erun; simpl.
  - split; [discriminate|]. intros a [= <-].
    assert (exists out rest, objs = out :: rest) as (out & rest & ->).
    { unfold run in Erun.
      repeat match type of Erun with
             | match ?c with _ => _ end = _ => destruct c; try discriminate
             end.
      injection Erun as <- _. eauto. }
    exists (length (heap w ++ out :: rest)), out.
    split; [done|]. split; [rewrite length_app; simpl; lia|].
    assert (Ha : (heap w ++ out :: rest) !! length (heap w) = Some out).
    { rewrite <- (Nat.add_0_r (length (heap w))). by rewrite lookup_fresh. }
    split; [exact Ha|]. split; [by apply lookup_app_l_Some|].
    rewrite <- (Nat.add_0_r (length (heap w ++ out :: rest))).
    by rewrite lookup_fresh.
  - split; [done|]. intros a [=].
Qed.

(** C6: the opacity step does nothing unless the opacity is below 1.0,
    so at 1.0 the call pastes the resized logo as it is and does not
    depend on the alpha scaling at all: where the logo has no alpha, or
    its alpha is 255, the output has the logo's colours. Below 1.0 the
    pasted logo is an RGBA image (made from the resized logo with an
    opaque alpha when it has none) whose alpha band is the scaled one
    and whose colours are the resized logo's. *)
Theorem opacity_one_pastes_logo_unscaled (self : ImageProcessor)
    (logo image : loc) (kw : kwargs) (w : world) (base lg : Image) :
  current_logo self = Some logo ->
  heap w !! image = Some base -> heap w !! logo = Some lg ->
  (forall l op w0, float_ltb op f_1_0 = false ->
                   apply_opacity enhance l op w0 = (Ok l, w0)) /\
  float_ltb f_1_0 f_1_0 = false /\
  (forall enhance',
     apply_logo resample enhance self image (with_opacity kw f_1_0) w =
     apply_logo resample enhance' self image (with_opacity kw f_1_0) w) /\
  (forall r w',
     apply_logo resample enhance self image (with_opacity kw f_1_0) w
       = (Ok (Some r), w') ->
     exists rz xy out,
       resize_image resample lg (im_size rz) = Ok rz /\
       composite base rz xy = Ok out /\
       heap w' !! r = Some out /\
       heap w' !! S r = Some rz /\
       forall i j,
         inside xy (im_size rz) i j = true ->
         let p := source_px base rz (i - fst xy) (j - snd xy) in
         im_mode rz = RGB \/ alpha p = 255 ->
         byte_pixel p ->
         red (im_px out i j) = red p /\
         green (im_px out i j) = green p /\
         blue (im_px out i j) = blue p) /\
  (forall h lg0 b rz op,
     float_ltb op f_1_0 = true ->
     exists l p w1,
       apply_opacity enhance (length h + 1)%nat op
           {| heap := h ++ [b; rz]; log := lg0 |} = (Ok l, w1) /\
       heap w1 !! l = Some p /\
       im_mode p = RGBA /\ im_size p = im_size rz /\
       (forall i j,
          im_px p i j =
            set_alpha (im_px rz i j)
              (enhance op match im_mode rz with
                          | RGBA => alpha (im_px rz i j)
                          | RGB => 255
                          end)) /\
       (im_mode rz = RGB ->
        l = (length h + 2)%nat /\ heap w1 !! (length h + 1)%nat = Some rz)).
Proof.
  intros Hc Hb Hl.
  split. { intros l op w0 H. unfold apply_opacity. by rewrite H. }
  split; [reflexivity|].
  split.
  { intros enhance'.
    rewrite (apply_logo_run resample enhance _ _ _ _ _ _ _ Hc Hb Hl).
    rewrite (apply_logo_run resample enhance' _ _ _ _ _ _ _ Hc Hb Hl).
    unfold run.
    cbn [update with_opacity st_opacity kw_opacity from_option id].
    destruct (compute_logo_width _ _); [|done].
    destruct (compute_logo_height _ _); [|done].
    destruct (resize_image _ _ _) as [rz|]; [|done].
    destruct (logo_to_paste_at_1 enhance rz f_1_0 float_ltb_1_1) as [-> ->].
    by destruct (logo_to_paste_at_1 enhance' rz f_1_0 float_ltb_1_1) as [-> ->]. }
  split.
  { intros r w' Hrun.
    destruct (apply_logo_success resample enhance _ _ _ _ _ _ _ _ _ Hc Hb Hl Hrun)
      as (lw & lh & rz & xy & out & Ew & Eh & Er & Ep & Ec & -> & ->).
    cbn [update with_opacity st_opacity kw_opacity from_option id] in Ec |- *.
    destruct (logo_to_paste_at_1 enhance rz f_1_0 float_ltb_1_1) as [E1 E2].
    rewrite E1 in Ec. rewrite E2.
    exists rz, xy, out.
    split; [by rewrite (resize_image_size resample _ _ _ Er)|].
    split; [exact Ec|]. simpl.
    split; [rewrite <- (Nat.add_0_r (length (heap w))); by rewrite lookup_fresh|].
    split; [by rewrite <- (Nat.add_1_r (length (heap w))), lookup_fresh|].
    exact (composite_opaque _ _ _ _ Ec). }
  intros h lg0 b rz op Hop.
  rewrite (apply_opacity_eq enhance). unfold opacity_objects. rewrite Hop.
  destruct (im_mode rz) eqn:Hm; simpl.
  - eexists _, _, _. split; [reflexivity|]. simpl.
    split; [by rewrite (lookup_fresh h _ 2)|].
    split; [done|]. split; [done|].
    split.
    { intros i j. unfold Brightness_enhance, last_band, convert_RGBA_image.
      simpl. by rewrite Hm. }
    intros _. split; [done|]. by rewrite (lookup_fresh h _ 1).
  - eexists _, _, _. split; [reflexivity|]. simpl.
    split; [by rewrite (lookup_fresh h _ 1)|].
    split; [done|]. split; [done|]. split; [done|]. done.
Qed.


(** The position a successful call pastes at and logs is the clamp of the
    requested one. *)
Lemma apply_logo_position self logo image kw w base lg r w' :
  current_logo self = Some logo ->
  heap w !! image = Some base -> heap w !! logo = Some lg ->
  apply_logo resample enhance self image kw w = (Ok (Some r), w') ->
  let s := update (default_settings self) kw in
  exists lw lh xy,
    requested_position s (im_size base) (lw, lh) = Ok xy /\
    last (log w') =
      Some (InfoLogoApplied (clamp (fst xy) (fst (im_size base)) lw)
              (clamp (snd xy) (snd (im_size base)) lh) lw lh).
Proof.
  intros Hc Hb Hl Hrun s.
  destruct (apply_logo_success resample enhance _ _ _ _ _ _ _ _ _ Hc Hb Hl Hrun)
    as (lw & lh & rz & xy & out & Ew & Eh & Er & Ep & Ec & -> & ->).
  unfold placement in Ep. fold s in Ep.
  destruct (requested_position _ _ _) as [req|] eqn:Ereq; [|discriminate].
  injection Ep as <-. exists lw, lh, req. split; [done|].
  simpl. by rewrite last_snoc.
Qed.

(** C3, as the code has it: for the nine anchors the position before
    the clamp is [(base - logo) * rel] truncated toward zero, not
    rounded, then the margin is added at 0, subtracted at 1 and left out
    at 0.5; a custom position is taken as it is, whatever the anchor; and
    the call pastes at the clamp of that position. *)
Theorem anchor_placement_truncates (name : string) (rel_x rel_y : number)
    (img_size logo_size : Z * Z) (margin : Z) :
  LOGO_POSITIONS !! name = Some (rel_x, rel_y) ->
  Z.abs (fst img_size - fst logo_size) < 2 ^ 53 ->
  Z.abs (snd img_size - snd logo_size) < 2 ^ 53 ->
  anchor_position name img_size logo_size margin =
    Ok (truncated_coord (fst img_size) (fst logo_size) rel_x margin,
        truncated_coord (snd img_size) (snd logo_size) rel_y margin) /\
  (forall s p, st_custom_position s = Some p ->
               requested_position s img_size logo_size = Ok p) /\
  (forall s, st_custom_position s = None -> st_position s = name ->
             st_margin s = margin ->
             requested_position s img_size logo_size =
               anchor_position name img_size logo_size margin) /\
  (forall self logo image kw w base lg r w',
     current_logo self = Some logo ->
     heap w !! image = Some base -> heap w !! logo = Some lg ->
     apply_logo resample enhance self image kw w = (Ok (Some r), w') ->
     exists lw lh xy,
       requested_position (update (default_settings self) kw)
         (im_size base) (lw, lh) = Ok xy /\
       last (log w') =
         Some (InfoLogoApplied (clamp (fst xy) (fst (im_size base)) lw)
                 (clamp (snd xy) (snd (im_size base)) lh) lw lh)).
Proof.
  intros Hname Hx Hy.
  destruct (LOGO_POSITIONS_values _ _ _ Hname) as [Hrx Hry].
  split.
  { unfold anchor_position. rewrite (anchor_rel_known _ _ Hname). cbn [rbind].
    rewrite (anchor_coord_truncates _ _ _ _ Hrx Hx),
            (anchor_coord_truncates _ _ _ _ Hry Hy). reflexivity. }
  split. { intros s p H. unfold requested_position. by rewrite H. }
  split. { intros s H <- <-. unfold requested_position. by rewrite H. }
  intros self logo image kw w base lg r w' Hc Hb Hl Hrun.
  exact (apply_logo_position _ _ _ _ _ _ _ _ _ Hc Hb Hl Hrun).
Qed.

(** C2, as the code has it: the resized logo is [int(W * size)] wide and
    [int(h0 * (width / w0))] high, both truncated in binary64 and not
    rounded; for sides under 2^24 that height is at most the exact
    [h0 * width / w0] and less than one pixel below it, so the aspect
    ratio is kept within one pixel. *)
Theorem logo_size_truncates (self : ImageProcessor) (logo image : loc)
    (kw : kwargs) (w w' : world) (base lg : Image) (r : loc) :
  current_logo self = Some logo ->
  heap w !! image = Some base -> heap w !! logo = Some lg ->
  apply_logo resample enhance self image kw w = (Ok (Some r), w') ->
  let s := update (default_settings self) kw in
  let w0 := fst (im_size lg) in
  let h0 := snd (im_size lg) in
  exists lw lh resized,
    compute_logo_width (fst (im_size base)) (st_size s) = Ok lw /\
    compute_logo_height (im_size lg) lw = Ok lh /\
    heap w' !! S r = Some resized /\
    im_size resized = (lw, lh) /\
    (1 <= w0 < 2 ^ 24 -> 1 <= h0 < 2 ^ 24 -> 0 <= lw < 2 ^ 24 ->
     h0 * lw - w0 <= lh * w0 <= h0 * lw).
Proof.
  intros Hc Hb Hl Hrun s w0 h0.
  destruct (apply_logo_success resample enhance _ _ _ _ _ _ _ _ _ Hc Hb Hl Hrun)
    as (lw & lh & rz & xy & out & Ew & Eh & Er & Ep & Ec & -> & ->).
  fold s in Ew, Ec |- *.
  assert (Hobj : exists resized,
             (out :: opacity_objects enhance rz (st_opacity s)) !! 1%nat
               = Some resized /\ im_size resized = im_size rz).
  { unfold opacity_objects. destruct (float_ltb _ _); [|by eexists].
    destruct (im_mode rz); by eexists. }
  destruct Hobj as (resized & Hres & Hsz).
  exists lw, lh, resized.
  split; [done|]. split; [done|].
  split; [simpl; by rewrite <- (Nat.add_1_r (length (heap w))), lookup_fresh|].
  split; [by rewrite Hsz, (resize_image_size resample _ _ _ Er)|].
  intros Hw0 Hh0 Hlw.
  destruct (compute_logo_height_bounds_0 w0 h0 lw Hw0 Hh0 Hlw) as (lh' & E' & Hb').
  replace (w0, h0) with (im_size lg) in E' by (unfold w0, h0; by destruct (im_size lg)).
  rewrite Eh in E'. by injection E' as <-.
Qed.

End Claims.

(** ** The code on concrete stores *)

Section Runs.
Import Example.

(** The scenario of the specification: base 1000×800, logo 200×100,
    bottom_right, size 0.2, margin 20, opacity 1.0. *)
Example scenario_bottom_right :
  let kw := with_opacity (with_size no_kwargs (literal 2 10)) f_1_0 in
  let out := go (store (1000, 800) (200, 100) RGBA) kw in
  fst out = Ok (Some 2%nat) /\
  log (snd out) = [InfoLogoApplied 780 680 200 100].
Proof. vm_compute. split; reflexivity. Qed.

(** [int(49 * (1 / 49))] is 0 in binary64. *)
Example height_of_49 : compute_logo_height (49, 49) 1 = Ok 0.
Proof. vm_compute. reflexivity. Qed.


Lemma apply_logo_without_logo_witness :
  current_logo init = None /\
  apply_logo nearest scale_byte init 0%nat kw0 w0 =
    (Ok None, {| heap := heap w0; log := log w0 ++ [ErrLogoNotLoaded] |}).
Proof.
  split; [reflexivity|].
  apply (apply_logo_without_logo nearest scale_byte init 0%nat kw0 w0).
  reflexivity.
Defined.

Lemma unknown_position_is_bottom_right_witness :
  LOGO_POSITIONS !! "middle"%string = None /\
  anchor_rel "middle" = Ok (Int 1, Int 1) /\
  anchor_rel "middle" = anchor_rel "bottom_right" /\
  go w0 (with_position kw0 "middle") = go w0 (with_position kw0 "bottom_right").
Proof.
  split; [reflexivity|].
  apply (unknown_position_is_bottom_right nearest scale_byte processor
           0%nat kw0 w0 "middle").
  reflexivity.
Defined.


Lemma composite_frame_witness :
  let w' := snd (go w0 kw0) in
  go w0 kw0 = (Ok (Some 2%nat), w') /\
  exists out x y lw lh,
    heap w0 !! 2%nat = None /\ 2%nat <> 0%nat /\
    heap w' !! 2%nat = Some out /\
    heap w' !! 0%nat = Some base0 /\
    im_size out = im_size base0 /\
    im_mode out = im_mode base0 /\
    last (log w') = Some (InfoLogoApplied x y lw lh) /\
    x = clamp x (fst (im_size base0)) lw /\
    y = clamp y (snd (im_size base0)) lh /\
    forall i j, inside (x, y) (lw, lh) i j = false ->
                im_px out i j = im_px base0 i j.
Proof.
  intros w'.
  assert (Hgo : go w0 kw0 = (Ok (Some 2%nat), w')) by (vm_compute; reflexivity).
  split; [exact Hgo|].
  exact (composite_frame nearest scale_byte processor 1%nat 0%nat kw0 w0 w'
           base0 logo0 2%nat eq_refl eq_refl eq_refl Hgo).
Defined.

Lemma apply_logo_twice_witness :
  let first := go w0 kw0 in
  let second := go (snd first) kw0 in
  (forall l im, heap w0 !! l = Some im -> heap (snd first) !! l = Some im) /\
  heap (snd first) !! 0%nat = Some base0 /\
  heap (snd first) !! 1%nat = Some logo0 /\
  (fst first = Ok None -> fst second = Ok None) /\
  (forall a, fst first = Ok (Some a) ->
     exists b out, fst second = Ok (Some b) /\ a <> b /\
                   heap (snd first) !! a = Some out /\
                   heap (snd second) !! a = Some out /\
                   heap (snd second) !! b = Some out).
Proof.
  exact (apply_logo_twice nearest scale_byte processor 1%nat 0%nat kw0 w0
           base0 logo0 eq_refl eq_refl eq_refl).
Defined.


Lemma opacity_one_pastes_logo_unscaled_witness :
  heap w0 !! 0%nat = Some base0 /\ heap w0 !! 1%nat = Some logo0 /\
  (forall enhance',
     apply_logo nearest scale_byte processor 0%nat (with_opacity kw0 f_1_0) w0 =
     apply_logo nearest enhance' processor 0%nat (with_opacity kw0 f_1_0) w0) /\
  (forall r w',
     apply_logo nearest scale_byte processor 0%nat (with_opacity kw0 f_1_0) w0
       = (Ok (Some r), w') ->
     exists rz xy out,
       resize_image nearest logo0 (im_size rz) = Ok rz /\
       composite base0 rz xy = Ok out /\
       heap w' !! r = Some out /\
       heap w' !! S r = Some rz).
Proof.
  split; [reflexivity|]. split; [reflexivity|].
  pose proof (opacity_one_pastes_logo_unscaled nearest scale_byte processor
                1%nat 0%nat kw0 w0 base0 logo0 eq_refl eq_refl eq_refl)
    as (_ & _ & H1 & H2 & _).
  split; [exact H1|].
  intros r w' Hrun.
  destruct (H2 r w' Hrun) as (rz & xy & out & Hrz & Hout & Hr & Hr1 & _).
  exists rz, xy, out. exact (conj Hrz (conj Hout (conj Hr Hr1))).
Defined.

(** C3 fails on the code: centring a 3-pixel logo in 6 pixels gives
    [int(1.5) = 1] where the rounded value is 2. *)
Lemma center_anchor_truncates :
  let kw := with_position (with_size no_kwargs f_0_5) "center" in
  anchor_position "center" (6, 6) (3, 3) 20 = Ok (1, 1) /\
  Spec.anchor_coord 6 3 (Float f_0_5) 20 = 2 /\
  log (snd (go (store (6, 6) (1, 1) RGB) kw)) = [InfoLogoApplied 1 1 3 3] /\
  ~ Spec.anchor_placement_rounds.
Proof.
  intros kw.
  assert (E : anchor_position "center" (6, 6) (3, 3) 20 = Ok (1, 1))
    by (vm_compute; reflexivity).
  split; [exact E|]. split; [reflexivity|].
  split; [vm_compute; reflexivity|].
  intros Hclaim.
  specialize (Hclaim "center"%string (Float f_0_5) (Float f_0_5) (6, 6) (3, 3) 20
                eq_refl).
  rewrite E in Hclaim. discriminate.
Qed.

Lemma anchor_placement_truncates_witness :
  LOGO_POSITIONS !! "center"%string = Some (Float f_0_5, Float f_0_5) /\
  Z.abs (6 - 3) < 2 ^ 53 /\
  anchor_position "center" (6, 6) (3, 3) 20 =
    Ok (truncated_coord 6 3 (Float f_0_5) 20,
        truncated_coord 6 3 (Float f_0_5) 20) /\
  truncated_coord 6 3 (Float f_0_5) 20 = 1.
Proof.
  split; [reflexivity|]. split; [reflexivity|].
  split; [|reflexivity].
  apply (anchor_placement_truncates nearest scale_byte "center"
           (Float f_0_5) (Float f_0_5) (6, 6) (3, 3) 20);
    reflexivity.
Defined.

(** C2 fails on the code: a 300×100 logo at width 200 gets the height
    [int(66.66...) = 66] where the rounded height is 67. *)
Lemma logo_height_truncates_66 :
  let out := go (store (1000, 800) (300, 100) RGBA) kw0 in
  compute_logo_width 1000 (literal 2 10) = Ok 200 /\
  compute_logo_height (300, 100) 200 = Ok 66 /\
  Spec.logo_height (300, 100) 200 = 67 /\
  fst out = Ok (Some 2%nat) /\
  log (snd out) = [InfoLogoApplied 780 714 200 66] /\
  ~ Spec.logo_height_rounds.
Proof.
  intros out.
  assert (E : compute_logo_height (300, 100) 200 = Ok 66)
    by (vm_compute; reflexivity).
  split; [vm_compute; reflexivity|]. split; [exact E|].
  split; [reflexivity|]. split; [vm_compute; reflexivity|].
  split; [vm_compute; reflexivity|].
  intros Hclaim.
  specialize (Hclaim (300, 100) 200 66 ltac:(simpl; lia) E).
  discriminate.
Qed.

Lemma logo_size_truncates_witness :
  let w' := snd (go w0 kw0) in
  go w0 kw0 = (Ok (Some 2%nat), w') /\
  exists lw lh resized,
    compute_logo_width 1000 (st_size (update (default_settings processor) kw0))
      = Ok lw /\
    compute_logo_height (200, 100) lw = Ok lh /\
    heap w' !! 3%nat = Some resized /\
    im_size resized = (lw, lh) /\
    (1 <= 200 < 2 ^ 24 -> 1 <= 100 < 2 ^ 24 -> 0 <= lw < 2 ^ 24 ->
     100 * lw - 200 <= lh * 200 <= 100 * lw).
Proof.
  intros w'.
  assert (Hgo : go w0 kw0 = (Ok (Some 2%nat), w')) by (vm_compute; reflexivity).
  split; [exact Hgo|].
  exact (logo_size_truncates nearest scale_byte processor 1%nat 0%nat kw0 w0 w'
           base0 logo0 2%nat eq_refl eq_refl eq_refl Hgo).
Defined.

End Runs.

(** * Further properties *)

(** ** The size limit of files *)

(** [size / (1024 * 1024)] is exact below 2^53 bytes, so the comparison
    with 50 decides at 52428800 bytes. *)
Lemma file_size_check (n : Z) :
  0 <= n < 2 ^ 53 ->
  exists f, true_div n (1024 * 1024) = Ok f /\
            float_gt_int f Config.max_file_size_mb = (52428800 <? n).
Proof.
  intros Hn. destruct n as [|p|p]; [| |lia].
  { eexists. split; [reflexivity|]. reflexivity. }
  unfold true_div. change (1024 * 1024 =? 0) with false. cbv iota.
  change (1024 * 1024) with (2 ^ 20).
  change (int_as_sf (2 ^ 20)) with (S754_finite false (2 ^ 20)%positive 0).
  cbn [int_as_sf]. unfold SFdiv, SFdiv_core_binary. cbn [Zdigits2 xorb].
  change (Z.pos (digits2_pos (2 ^ 20))) with 21.
  set (d1 := Zpos (digits2_pos p)).
  pose proof (digits2_pos_bounds p) as Hb. fold d1 in Hb.
  assert (Hd1 : 1 <= d1 <= 53).
  { split; [unfold d1; lia|]. destruct (Z.leb_spec d1 53); [done|].
    assert (2 ^ 53 <= 2 ^ (d1 - 1)) by (apply Z.pow_le_mono_r; lia). lia. }
  rewrite !Z.add_0_r, fexp_normal by lia.
  replace (Z.min (d1 - 21 - 53) (0 - 0)) with (d1 - 74) by lia.
  replace (0 - 0 - (d1 - 74)) with (74 - d1) by lia.
  destruct (74 - d1) as [|ks|ks] eqn:Es; [lia| |lia]. rewrite <- Es.
  rewrite Z.shiftl_mul_pow2 by lia.
  assert (E2 : 2 ^ (74 - d1) = 2 ^ (54 - d1) * 2 ^ 20).
  { rewrite <- Z.pow_add_r by lia. f_equal. lia. }
  assert (Hq : Z.div_eucl (Zpos p * 2 ^ (74 - d1)) (Z.pos (2 ^ 20)) =
               (Zpos p * 2 ^ (54 - d1), 0)).
  { pose proof (Z.div_eucl_eq (Zpos p * 2 ^ (74 - d1)) (Z.pos (2 ^ 20)) ltac:(lia)) as Hdiv.
    pose proof (Z.mod_pos_bound (Zpos p * 2 ^ (74 - d1)) (Z.pos (2 ^ 20)) ltac:(lia)) as Hmod.
    unfold Z.modulo in Hmod.
    destruct (Z.div_eucl (Zpos p * 2 ^ (74 - d1)) (Z.pos (2 ^ 20))) as [q r].
    change (Z.pos (2 ^ 20)) with (2 ^ 20) in *.
    rewrite E2 in Hdiv.
    assert (r = 0 /\ q = Zpos p * 2 ^ (54 - d1)) as [-> ->]; [|done].
    set (x := Zpos p * 2 ^ (54 - d1)) in *.
    replace (Z.pos p * (2 ^ (54 - d1) * 2 ^ 20)) with (x * 2 ^ 20) in Hdiv by (unfold x; ring).
    change (2 ^ 20) with 1048576 in *. lia. }
  rewrite Hq. change (new_location (Z.pos (2 ^ 20)) 0) with loc_Exact.
  assert (Hpow : 0 < 2 ^ (53 - d1)) by (apply Z.pow_pos_nonneg; lia).
  assert (Hm : exists m : positive, Zpos m = Zpos p * 2 ^ (53 - d1)).
  { destruct (Zpos p * 2 ^ (53 - d1)) as [|m|m] eqn:E; [lia| |lia]. by exists m. }
  destruct Hm as [m Hm].
  assert (Hdm : Zpos (digits2_pos m) = 53).
  { apply digits2_pos_unique. rewrite Hm.
    assert (E1 : 2 ^ (53 - 1) = 2 ^ (d1 - 1) * 2 ^ (53 - d1)).
    { rewrite <- Z.pow_add_r by lia. f_equal. lia. }
    assert (E3 : 2 ^ 53 = 2 ^ d1 * 2 ^ (53 - d1)).
    { rewrite <- Z.pow_add_r by lia. f_equal. lia. }
    rewrite E1, E3. apply scale_bounds; [exact Hb|exact Hpow]. }
  assert (Hq2 : exists q : positive, Zpos q = Zpos p * 2 ^ (54 - d1)).
  { assert (0 < 2 ^ (54 - d1)) by (apply Z.pow_pos_nonneg; lia).
    destruct (Zpos p * 2 ^ (54 - d1)) as [|q|q] eqn:E; [lia| |lia]. by exists q. }
  destruct Hq2 as [q Hq2]. rewrite <- Hq2.
  rewrite (binary_round_aux_exact false q m (d1 - 74) 1).
  2:{ rewrite Hq2, Hm. replace (54 - d1) with (53 - d1 + 1) by lia.
      rewrite Z.pow_add_r by lia. ring. }
  2: lia. 2: exact Hdm. 2: lia.
  eexists. split; [reflexivity|].
  unfold float_gt_int, Config.max_file_size_mb.
  assert (E50 : binary_normalize prec emax 50 0 false =
                S754_finite false 7036874417766400 (-47)) by (vm_compute; reflexivity).
  rewrite E50. clear E50.
  unfold SFltb, SFcompare.
  assert (P25 : 2 ^ 25 = 33554432) by reflexivity.
  assert (P26 : 2 ^ 26 = 67108864) by reflexivity.
  assert (P27 : 2 ^ 27 = 134217728) by reflexivity.
  clear Hq Hq2 E2 Es Hdm.
  destruct (Z.compare_spec (-47) (d1 - 74 + 1)) as [E|E|E].
  - assert (Hd : d1 = 26) by lia. clearbody d1. subst d1.
    change (53 - 26) with 27 in Hm. rewrite P27 in Hm.
    change (PosDef.Pos.compare_cont Eq 7036874417766400 m)
      with (Pos.compare 7036874417766400 m).
    assert (C : Zpos 7036874417766400 = 52428800 * 134217728) by reflexivity.
    destruct (Pos.compare_spec 7036874417766400 m) as [E'|E'|E'].
    + symmetry. apply Z.ltb_ge. apply Z.eq_le_incl.
      apply (Z.mul_cancel_r _ _ 134217728); [discriminate|].
      rewrite <- Hm, <- C. by rewrite E'.
    + symmetry. apply Z.ltb_lt.
      apply (mul_lt_cancel_r _ _ 134217728); [reflexivity|].
      rewrite <- Hm, <- C. exact (Pos2Z.pos_lt_pos _ _ E').
    + symmetry. apply Z.ltb_ge. apply Z.lt_le_incl.
      apply (mul_lt_cancel_r _ _ 134217728); [reflexivity|].
      rewrite <- Hm, <- C. exact (Pos2Z.pos_lt_pos _ _ E').
  - symmetry. apply Z.ltb_lt.
    assert (H26 : 2 ^ 26 <= 2 ^ (d1 - 1)) by (apply Z.pow_le_mono_r; lia).
    rewrite P26 in H26.
    eapply Z.lt_le_trans; [|apply Hb]. eapply Z.lt_le_trans; [|exact H26].
    reflexivity.
  - symmetry. apply Z.ltb_ge.
    assert (H25 : 2 ^ d1 <= 2 ^ 25) by (apply Z.pow_le_mono_r; lia).
    rewrite P25 in H25. apply Z.lt_le_incl.
    eapply Z.lt_le_trans; [apply Hb|]. eapply Z.le_trans; [exact H25|].
    discriminate.
Qed.

(** ** The tables of [config.py] *)

Lemma get_Forall {V} (P : V -> Prop) (d : list (string * V)) (key : string) (v : V) :
  Forall (fun kv => P (snd kv)) d -> Config.get d key = Some v -> P v.
Proof.
  induction 1 as [|[k x] d Hx _ IH]; [discriminate|].
  simpl. destruct (String.eqb k key); [by intros [= <-]|exact IH].
Qed.

Lemma get_unknown {V} (d : list (string * V)) (key : string) :
  Forall (fun kv => fst kv <> key) d -> Config.get d key = None.
Proof.
  induction 1 as [|[k x] d Hx _ IH]; [done|].
  simpl. destruct (String.eqb_spec k key); [done|exact IH].
Qed.

(** The entries of [IMAGE_CONFIG] as [get_config('image')] holds them,
    and the four that [ImageProcessor.__init__] reads. *)
Lemma get_config_image :
  Config.getitem (Config.get_config (Some "image"%string)) "max_file_size_mb"
    = Ok (Config.VInt Config.max_file_size_mb) /\
  Config.getitem (Config.get_config (Some "image"%string)) "max_image_size"
    = Ok (Config.pair_value Config.max_image_size) /\
  Config.getitem Config.IMAGE_CONFIG "preview_size"
    = Ok (Config.pair_value Config.preview_size) /\
  Config.getitem Config.IMAGE_CONFIG "jpeg_quality"
    = Ok (Config.VInt Config.jpeg_quality) /\
  Config.getitem Config.IMAGE_CONFIG "png_compression"
    = Ok (Config.VInt Config.png_compression) /\
  Config.getitem Config.IMAGE_CONFIG "default_logo_size"
    = Ok (Config.VFloat (default_logo_size IMAGE_CONFIG)) /\
  Config.getitem Config.IMAGE_CONFIG "default_opacity"
    = Ok (Config.VFloat (default_opacity IMAGE_CONFIG)) /\
  Config.getitem Config.IMAGE_CONFIG "default_position"
    = Ok (Config.VStr (default_position IMAGE_CONFIG)) /\
  Config.getitem Config.IMAGE_CONFIG "logo_margin"
    = Ok (Config.VInt (logo_margin IMAGE_CONFIG)).
Proof. repeat split; reflexivity. Qed.

(** X1: whatever the name, [get_color] returns a colour code of the
    form [#] and six hexadecimal digits: an entry of [COLORS], or
    [#000000] for a name that is not a key. *)
Theorem get_color_is_hex (color_name : string) :
  exists s, Config.get_color color_name = Config.VStr s /\
            Config.is_hex_colour s = true /\
            (Config.get Config.COLORS color_name = None -> s = "#000000"%string).
Proof.
  unfold Config.get_color.
  destruct (Config.get Config.COLORS color_name) as [v|] eqn:E; simpl.
  - apply (get_Forall (fun v => exists s, v = Config.VStr s /\
                                 Config.is_hex_colour s = true /\
                                 (Some v = None -> s = "#000000"%string)) _ _ _ ) in E.
    + exact E.
    + repeat constructor; eexists; (split; [reflexivity|]); (split; [reflexivity|]);
        discriminate.
  - eexists. split; [reflexivity|]. split; [reflexivity|done].
Qed.

(** ** The formats of files *)

Section Format_properties.
Context `{Paths}.

Lemma supported_input (file_path : string) :
  is_supported_format file_path "input" =
    bool_decide (str_lower (path_suffix file_path) ∈
                   [".jpg"; ".jpeg"; ".png"; ".bmp"; ".tiff"; ".tif"; ".webp"]%string).
Proof. reflexivity. Qed.

Lemma supported_output (file_path : string) :
  is_supported_format file_path "output" =
    bool_decide (str_lower (path_suffix file_path) ∈
                   [".jpg"; ".jpeg"; ".png"; ".bmp"; ".tiff"]%string).
Proof. reflexivity. Qed.

(** X2: a format type other than input, output and logo supports no
    file at all: the lookup falls back to the empty list. *)
Theorem unknown_format_type_supports_nothing (file_path format_type : string) :
  format_type <> "input"%string -> format_type <> "output"%string ->
  format_type <> "logo"%string ->
  is_supported_format file_path format_type = false.
Proof.
  intros Hi Ho Hl. unfold is_supported_format.
  rewrite get_unknown; [by apply bool_decide_eq_false; inversion 1|].
  repeat constructor; simpl; congruence.
Qed.

(** X3: the logo formats are the output formats, every output format is
    an input format, and [.tif] and [.webp] files are read but never
    written nor taken as a logo. *)
Theorem output_formats_are_input_formats (file_path : string) :
  is_supported_format file_path "logo" = is_supported_format file_path "output" /\
  (is_supported_format file_path "output" = true ->
   is_supported_format file_path "input" = true) /\
  (str_lower (path_suffix file_path) = ".tif"%string \/
   str_lower (path_suffix file_path) = ".webp"%string ->
   is_supported_format file_path "input" = true /\
   is_supported_format file_path "output" = false /\
   is_supported_format file_path "logo" = false).
Proof.
  unfold is_supported_format. simpl.
  set (e := str_lower (path_suffix file_path)).
  split; [apply bool_decide_ext; rewrite !elem_of_cons, !elem_of_nil; tauto|].
  split.
  - rewrite !bool_decide_eq_true, !elem_of_cons, !elem_of_nil. tauto.
  - intros [-> | ->]; repeat split; try reflexivity.
Qed.

End Format_properties.

(** ** Loading and saving *)

Section File_properties.
Context {D : Type} `{System D} `{Paths}.
Context (resample : Image -> Z * Z -> Z -> Z -> pixel)
        (enhance : float -> Z -> Z)
        (thumbnail : Image -> Z * Z -> outcome (Z * Z * (Z -> Z -> pixel))).

Ltac io :=
  unfold try_io, mbind, IO_bind, outcome_bind, mret, IO_ret, outcome_ret, emit,
    lift_result, lift_outcome,
    os_path_exists, os_path_getsize, PIL_open, PIL_save, os_mkdir, shutil_copy2,
    write, logged; cbv beta iota.

Ltac step := cbn [negb of_result]; cbv beta iota.

Ltac fin :=
  unfold run_M, new_object, logged; simpl;
  rewrite <- ?app_assoc, ?app_nil_r; simpl; reflexivity.

Lemma logged_nil (s : machine D) : logged s [] = s.
Proof. destruct s. unfold logged. simpl. by rewrite app_nil_r. Qed.

(** X4: [load_image] returns [None] with one error line, and opens
    nothing, for a file that does not exist, for one whose extension is
    not an input format, and for one of more than 52428800 bytes (50
    MB); a file of exactly that size is opened. *)
Theorem load_image_guards (self : ImageProcessor) (file_path : string)
    (s : machine D) :
  (path_exists (files s) file_path = false ->
   load_image thumbnail self file_path s =
     (Return None, logged s [Error_file_not_found file_path])) /\
  (path_exists (files s) file_path = true ->
   is_supported_format file_path "input" = false ->
   load_image thumbnail self file_path s =
     (Return None, logged s [Error_unsupported_format file_path])) /\
  (path_exists (files s) file_path = true ->
   is_supported_format file_path "input" = true ->
   forall n, getsize (files s) file_path = Return n -> 0 <= n < 2 ^ 53 ->
   exists f, true_div n (1024 * 1024) = Ok f /\
     (52428800 < n ->
      load_image thumbnail self file_path s =
        (Return None, logged s [Error_file_too_large f])) /\
     (n <= 52428800 ->
      forall e, Image_open (files s) file_path = Throw e ->
      load_image thumbnail self file_path s =
        (Return None, logged s [Error_loading_image file_path e]))).
Proof.
  split; [|split].
  - intros E. unfold load_image. io. rewrite E. reflexivity.
  - intros E E'. unfold load_image. io. rewrite E. step. rewrite E'. reflexivity.
  - intros E E' n Hn Hr.
    destruct (file_size_check n Hr) as (f & Ef & Hf).
    exists f. split; [exact Ef|]. split.
    + intros Hbig. unfold load_image. io. rewrite E. step. rewrite E'. step.
      rewrite Hn. step. rewrite Ef. step. rewrite Hf.
      replace (52428800 <? n) with true by (symmetry; apply Z.ltb_lt; lia).
      reflexivity.
    + intros Hsmall e Ho. unfold load_image. io. rewrite E. step. rewrite E'. step.
      rewrite Hn. step. rewrite Ef. step. rewrite Hf.
      replace (52428800 <? n) with false by (symmetry; apply Z.ltb_ge; lia).
      step. rewrite Ho. reflexivity.
Qed.

(** [load_image], check by check. *)
Lemma load_image_eq (self : ImageProcessor) (file_path : string) (s : machine D) :
  load_image thumbnail self file_path s =
    if negb (path_exists (files s) file_path) then
      (Return None, logged s [Error_file_not_found file_path])
    else if negb (is_supported_format file_path "input") then
      (Return None, logged s [Error_unsupported_format file_path])
    else
      match getsize (files s) file_path with
      | Throw e => (Return None, logged s [Error_loading_image file_path e])
      | Return n =>
      match true_div n (1024 * 1024) with
      | Raise e => (Return None, logged s [Error_loading_image file_path (Exn e)])
      | Ok f =>
      if float_gt_int f Config.max_file_size_mb then
        (Return None, logged s [Error_file_too_large f])
      else
      match Image_open (files s) file_path with
      | Throw e => (Return None, logged s [Error_loading_image file_path e])
      | Return img =>
      match load_opened thumbnail img with
      | (lines, Return final) =>
          (Return (Some (length (objects s))),
           {| objects := objects s ++ [final]; files := files s;
              events := events s ++
                map Logged (lines ++ [Info_image_loaded file_path (im_size final)]) |})
      | (lines, Throw e) =>
          (Return None, logged s (lines ++ [Error_loading_image file_path e]))
      end end end end.
Proof.
  unfold load_image. io.
  destruct (path_exists _ _); step; [|reflexivity].
  destruct (is_supported_format _ _); step; [|reflexivity].
  destruct (getsize _ _) as [n|e]; step; [|reflexivity].
  destruct (true_div _ _) as [f|e]; step; [|reflexivity].
  destruct (float_gt_int _ _); step; [reflexivity|].
  destruct (Image_open _ _) as [img|e]; step; [|reflexivity].
  unfold load_opened. io.
  destruct (converted_pixels img) as [pending|e]; step; [|reflexivity].
  destruct (exceeds _ _); step.
  - destruct pending as [px|e]; step; [|fin].
    destruct (thumbnail _ _) as [t|e]; step; [|fin]. fin.
  - destruct pending as [px|e]; step; [|fin]. fin.
Qed.

(** [load_image] on a file that passes the three checks and opens. *)
Lemma load_image_opened (self : ImageProcessor) (file_path : string)
    (s : machine D) (n : Z) (img : picture) :
  path_exists (files s) file_path = true ->
  is_supported_format file_path "input" = true ->
  getsize (files s) file_path = Return n -> 0 <= n <= 52428800 ->
  Image_open (files s) file_path = Return img ->
  load_image thumbnail self file_path s =
    match load_opened thumbnail img with
    | (lines, Return final) =>
        (Return (Some (length (objects s))),
         {| objects := objects s ++ [final]; files := files s;
            events := events s ++
              map Logged (lines ++ [Info_image_loaded file_path (im_size final)]) |})
    | (lines, Throw e) =>
        (Return None, logged s (lines ++ [Error_loading_image file_path e]))
    end.
Proof.
  intros E1 E2 E3 Hn E6.
  destruct (file_size_check n) as (f & Ef & Hf); [lia|].
  rewrite load_image_eq, E1, E2, E3, Ef, Hf, E6. simpl negb. cbv iota.
  by replace (52428800 <? n) with false by (symmetry; apply Z.ltb_ge; lia).
Qed.

Lemma load_opened_rgb (img : picture) (lines : list log_line) (final : Image) :
  load_opened thumbnail img = (lines, Return final) -> im_mode final = RGB.
Proof.
  unfold load_opened. io.
  destruct (converted_pixels img) as [pending|e]; [|by intros [= _ ?]].
  destruct (exceeds _ _).
  - destruct pending as [px|e]; [|by intros [= _ ?]].
    destruct (thumbnail _ _) as [t|e]; [|by intros [= _ ?]].
    by intros [= _ <-].
  - destruct pending as [px|e]; [|by intros [= _ ?]]. by intros [= _ <-].
Qed.

(** X5: [load_image] always returns, never raises and never writes to
    the disk; it changes no object of the store, and what it returns is
    [None] or one new object, of mode RGB. *)
Theorem load_image_returns_rgb (self : ImageProcessor) (file_path : string)
    (s : machine D) :
  exists r s' lines,
    load_image thumbnail self file_path s = (Return r, s') /\
    files s' = files s /\
    events s' = events s ++ map Logged lines /\
    match r with
    | None => objects s' = objects s
    | Some l =>
        l = length (objects s) /\
        exists im, objects s' = objects s ++ [im] /\ im_mode im = RGB
    end.
Proof.
  rewrite load_image_eq.
  destruct (path_exists _ _); simpl negb; cbv iota; [|by eexists _, _, _].
  destruct (is_supported_format _ _); simpl negb; cbv iota; [|by eexists _, _, _].
  destruct (getsize _ _) as [n|e]; [|by eexists _, _, _].
  destruct (true_div _ _) as [f|e]; [|by eexists _, _, _].
  destruct (float_gt_int _ _); [by eexists _, _, _|].
  destruct (Image_open _ _) as [img|e]; [|by eexists _, _, _].
  destruct (load_opened thumbnail img) as [lines [final|e]] eqn:E;
    [|by eexists _, _, _].
  eexists _, _, _. split; [reflexivity|]. split; [done|]. split; [done|].
  split; [done|]. exists final. split; [done|]. exact (load_opened_rgb _ _ _ E).
Qed.


Lemma blend8_transparent (d s : Z) : 0 <= d <= 255 -> blend8 0 d s = d.
Proof.
  intros Hd. transitivity (blend8 255 d d).
  - unfold blend8. f_equal. lia.
  - exact (blend8_opaque d d Hd).
Qed.

Lemma inside_origin (size : Z * Z) (i j : Z) :
  0 <= i < fst size -> 0 <= j < snd size -> inside (0, 0) size i j = true.
Proof.
  intros Hi Hj. unfold inside. cbn [fst snd].
  rewrite !andb_true_iff, !Z.leb_le, !Z.ltb_lt. lia.
Qed.

(** The white background after the paste of an image with alpha. *)
Lemma flatten_on_white_px (size : Z * Z) (px : Z -> Z -> pixel) :
  exists background,
    flatten_on_white size px = Ok background /\
    im_mode background = RGB /\ im_size background = size /\
    forall i j, 0 <= i < fst size -> 0 <= j < snd size ->
      let p := px i j in
      let q := im_px background i j in
      red q = blend8 (alpha p) 255 (red p) /\
      green q = blend8 (alpha p) 255 (green p) /\
      blue q = blend8 (alpha p) 255 (blue p).
Proof.
  unfold flatten_on_white, paste_image. cbn [im_size].
  unfold size_eqb. rewrite !Z.eqb_refl. cbn [andb negb].
  eexists. split; [reflexivity|]. split; [reflexivity|]. split; [reflexivity|].
  intros i j Hi Hj. cbn [im_px im_mode im_size white].
  rewrite (inside_origin size i j Hi Hj).
  unfold source_px, last_band. cbn [im_mode im_px fst snd].
  rewrite !Z.sub_0_r. unfold blend_pixel. cbn [red green blue].
  split; [reflexivity|]. split; reflexivity.
Qed.

(** X6: a file of mode RGBA or LA, or of mode P through its conversion
    to RGBA, is loaded over a white background: each colour is the
    8-bit blend of the file's colour over 255 by the file's alpha, so a
    transparent pixel comes out white and an opaque one keeps its
    colour. *)
Theorem load_image_flattens_alpha (self : ImageProcessor) (file_path : string)
    (s : machine D) (n : Z) (img : picture) (px : Z -> Z -> pixel) :
  path_exists (files s) file_path = true ->
  is_supported_format file_path "input" = true ->
  getsize (files s) file_path = Return n -> 0 <= n <= 52428800 ->
  Image_open (files s) file_path = Return img ->
  (pic_mode img = "RGBA"%string \/ pic_mode img = "LA"%string) /\
    pic_bytes img = Return px \/
  pic_mode img = "P"%string /\ pic_convert img RGBA = Return px ->
  exceeds (pic_size img) Config.max_image_size = false ->
  exists im,
    load_image thumbnail self file_path s =
      (Return (Some (length (objects s))),
       {| objects := objects s ++ [im]; files := files s;
          events := events s ++
                    [Logged (Info_image_loaded file_path (pic_size img))] |}) /\
    im_mode im = RGB /\ im_size im = pic_size img /\
    forall i j, 0 <= i < fst (pic_size img) -> 0 <= j < snd (pic_size img) ->
      let p := px i j in
      let q := im_px im i j in
      red q = blend8 (alpha p) 255 (red p) /\
      green q = blend8 (alpha p) 255 (green p) /\
      blue q = blend8 (alpha p) 255 (blue p) /\
      (alpha p = 0 -> red q = 255 /\ green q = 255 /\ blue q = 255) /\
      (alpha p = 255 -> byte_pixel p ->
       red q = red p /\ green q = green p /\ blue q = blue p).
Proof.
  intros E1 E2 E3 Hn E6 Hmode Hsize.
  rewrite (load_image_opened self file_path s n img E1 E2 E3 Hn E6).
  destruct (flatten_on_white_px (pic_size img) px) as (bg & Ebg & Hm & Hs & Hpx).
  assert (Ec : converted_pixels img = Return (Return (im_px bg))).
  { unfold converted_pixels. io.
    destruct Hmode as [[[Em | Em] Eb]|[Em Eb]]; rewrite Em, Eb;
      cbn [in_modes String.eqb Ascii.eqb Bool.eqb]; cbv beta iota;
      rewrite Ebg; reflexivity. }
  unfold load_opened. rewrite Ec, Hsize. io.
  exists {| im_mode := RGB; im_size := pic_size img; im_px := im_px bg |}.
  split; [reflexivity|]. split; [reflexivity|]. split; [reflexivity|].
  intros i j Hi Hj. cbn [im_px].
  destruct (Hpx i j Hi Hj) as (Hr & Hg & Hb).
  split; [exact Hr|]. split; [exact Hg|]. split; [exact Hb|]. split.
  - intros Ha. rewrite Hr, Hg, Hb, Ha.
    rewrite !blend8_transparent by lia. split; [reflexivity|]. split; reflexivity.
  - intros Ha (Br & Bg & Bb & _). rewrite Hr, Hg, Hb, Ha.
    rewrite !blend8_opaque by assumption. split; [reflexivity|]. split; reflexivity.
Qed.

Lemma lookup_fresh_0 (h : list Image) (im : Image) :
  (h ++ [im]) !! length h = Some im.
Proof. rewrite <- (Nat.add_0_r (length h)). by rewrite lookup_fresh. Qed.

(** An image pasted on white with itself as the mask. *)
Lemma paste_on_white (im : Image) :
  exists flat,
    paste_image (white (im_size im)) im (0, 0) (Some im) = Ok flat /\
    im_mode flat = RGB /\ im_size flat = im_size im /\
    forall i j, 0 <= i < fst (im_size im) -> 0 <= j < snd (im_size im) ->
      let p := im_px im i j in
      let q := im_px flat i j in
      red q = blend8 (alpha p) 255 (red p) /\
      green q = blend8 (alpha p) 255 (green p) /\
      blue q = blend8 (alpha p) 255 (blue p).
Proof.
  unfold paste_image. unfold size_eqb. rewrite !Z.eqb_refl. cbn [andb negb].
  eexists. split; [reflexivity|]. split; [reflexivity|]. split; [reflexivity|].
  intros i j Hi Hj. cbn [im_px im_mode im_size white].
  rewrite (inside_origin (im_size im) i j Hi Hj).
  unfold source_px, last_band. cbn [im_mode im_px fst snd].
  rewrite !Z.sub_0_r. unfold blend_pixel. cbn [red green blue].
  split; [reflexivity|]. split; reflexivity.
Qed.

Lemma machine_eta (s : machine D) :
  {| objects := objects s; files := files s; events := events s |} = s.
Proof. by destruct s. Qed.

Lemma run_M_deref (l : loc) (s : machine D) (im : Image) :
  objects s !! l = Some im -> run_M (deref l) s = (Return im, s).
Proof.
  intros E. unfold run_M, deref. cbn [heap]. rewrite E. cbn [of_result map log heap].
  by rewrite app_nil_r, machine_eta.
Qed.

Lemma run_M_Image_mode (l : loc) (s : machine D) (im : Image) :
  objects s !! l = Some im -> run_M (Image_mode l) s = (Return (im_mode im), s).
Proof.
  intros E. unfold run_M, Image_mode, deref, mbind, M_bind, mret, M_ret.
  cbn [heap]. rewrite E. cbn [of_result map log heap].
  by rewrite app_nil_r, machine_eta.
Qed.

Lemma run_M_Image_size (l : loc) (s : machine D) (im : Image) :
  objects s !! l = Some im -> run_M (Image_size l) s = (Return (im_size im), s).
Proof.
  intros E. unfold run_M, Image_size, deref, mbind, M_bind, mret, M_ret.
  cbn [heap]. rewrite E. cbn [of_result map log heap].
  by rewrite app_nil_r, machine_eta.
Qed.

Lemma run_M_new_object (im : Image) (s : machine D) :
  run_M (new_object im) s =
    (Return (length (objects s)),
     {| objects := objects s ++ [im]; files := files s; events := events s |}).
Proof.
  unfold run_M, new_object. cbn [of_result map log heap]. by rewrite app_nil_r.
Qed.

Lemma run_M_Image_paste (dst src : loc) (box : Z * Z) (s : machine D)
    (d sr r : Image) :
  objects s !! dst = Some d -> objects s !! src = Some sr ->
  paste_image d sr box (Some sr) = Ok r ->
  run_M (Image_paste dst src box (Some src)) s =
    (Return tt, {| objects := <[dst := r]> (objects s); files := files s;
                   events := events s |}).
Proof.
  intros Ed Es Ep.
  unfold run_M, Image_paste, deref, assign, lift, mbind, M_bind, mret, M_ret.
  cbn [heap]. rewrite Ed. cbv beta iota. cbn [heap]. rewrite Es.
  cbv beta iota. cbn [heap]. rewrite Es. cbv beta iota. rewrite Ep.
  cbv beta iota. cbn [of_result map log heap].
  by rewrite app_nil_r.
Qed.

(** [save_image], step by step. *)
Lemma save_image_eq (self : ImageProcessor) (image : loc) (file_path : string)
    (quality : option Z) (s : machine D) (im flat : Image) :
  is_supported_format file_path "output" = true ->
  objects s !! image = Some im ->
  paste_image (white (im_size im)) im (0, 0) (Some im) = Ok flat ->
  save_image self image file_path quality s =
    if in_modes (str_lower (path_suffix file_path)) [".jpg"; ".jpeg"]%string then
      match im_mode im with
      | RGB =>
          saved_with s [] im file_path
            [("quality"%string, Config.VInt (quality_or_default quality));
             ("optimize"%string, Config.VBool true)]
      | RGBA =>
          saved_with s [flat] flat file_path
            [("quality"%string, Config.VInt (quality_or_default quality));
             ("optimize"%string, Config.VBool true)]
      end
    else if String.eqb (str_lower (path_suffix file_path)) ".png" then
      saved_with s [] im file_path
        [("compress_level"%string, Config.VInt Config.png_compression);
         ("optimize"%string, Config.VBool true)]
    else saved_with s [] im file_path [].
Proof.
  intros Hf Him Hflat. unfold save_image, saved_with. io. rewrite Hf. step.
  destruct (mkdir (files s) (path_parent file_path)) as [[[]|e] d1]; step.
  2:{ destruct (in_modes (str_lower (path_suffix file_path)) _);
        [by destruct (im_mode im)|].
      by destruct (String.eqb (str_lower (path_suffix file_path)) ".png"). }
  assert (E0 : forall x : list event,
            objects {| objects := objects s; files := d1; events := x |} !! image
              = Some im) by (intros; exact Him).
  destruct (in_modes (str_lower (path_suffix file_path)) _).
  - rewrite (run_M_Image_mode image _ im (E0 _)). step.
    destruct (im_mode im) eqn:Em; step.
    + cbn [fst snd]. rewrite (run_M_deref image _ im (E0 _)). step.
      cbn [files objects events].
      destruct (Image_save d1 im file_path _) as [[[]|e] d2]; step;
        cbn [files objects events]; by rewrite ?app_nil_r.
    + rewrite (run_M_Image_size image _ im (E0 _)). step.
      rewrite run_M_new_object. step. cbn [objects files events].
      rewrite (run_M_Image_paste _ _ _ _ (white (im_size im)) im flat).
      2:{ cbn [objects]. apply lookup_fresh_0. }
      2:{ cbn [objects]. by apply lookup_app_l_Some. }
      2:{ exact Hflat. }
      step. cbn [fst snd objects files events].
      rewrite <- (Nat.add_0_r (length (objects s))), insert_fresh.
      cbn [insert list_insert]. rewrite Nat.add_0_r.
      rewrite (run_M_deref _ _ flat) by (cbn [objects]; apply lookup_fresh_0).
      step. cbn [files objects events].
      destruct (Image_save d1 flat file_path _) as [[[]|e] d2]; step;
        cbn [files objects events]; reflexivity.
  - destruct (String.eqb (str_lower (path_suffix file_path)) ".png"); step;
      cbn [fst snd]; rewrite (run_M_deref image _ im (E0 _)); step;
      cbn [files objects events];
      destruct (Image_save d1 im file_path _) as [[[]|e] d2]; step;
        cbn [files objects events]; by rewrite ?app_nil_r.
Qed.

Lemma try_io_returns {A} (body : IO D A) (handler : failure -> IO D A)
    (s : machine D) :
  (forall e s1, exists a s2, handler e s1 = (Return a, s2)) ->
  exists a s', try_io body handler s = (Return a, s').
Proof.
  intros Hh. unfold try_io. destruct (body s) as [[a|e] s1]; [by eexists _, _|].
  apply Hh.
Qed.

Lemma saved_with_objects (s : machine D) (new_objects : list Image) (im : Image)
    (file_path : string) (save_kwargs : Config.dict) :
  exists k, objects (snd (saved_with s new_objects im file_path save_kwargs))
            = objects s ++ k.
Proof.
  unfold saved_with.
  destruct (mkdir _ _) as [[[]|e] d1].
  - destruct (Image_save _ _ _ _) as [r d2]. by exists new_objects.
  - exists []. cbn [snd objects]. by rewrite app_nil_r.
Qed.

(** X7: for a [.jpg] or [.jpeg] path [save_image] hands the encoder an
    RGB image of the same size with quality [quality or 95] (so 95 for
    [None] and for 0) and [optimize]: the image itself when it is RGB,
    and for an RGBA image a new one, blended over white by the alpha
    band. The caller's image is left as it was. *)
Theorem save_image_jpeg (self : ImageProcessor) (image : loc)
    (file_path : string) (quality : option Z) (s : machine D) (im : Image) :
  str_lower (path_suffix file_path) = ".jpg"%string \/
  str_lower (path_suffix file_path) = ".jpeg"%string ->
  objects s !! image = Some im ->
  exists flat,
    save_image self image file_path quality s =
      saved_with s (match im_mode im with RGB => [] | RGBA => [flat] end)
        flat file_path
        [("quality"%string, Config.VInt (quality_or_default quality));
         ("optimize"%string, Config.VBool true)] /\
    im_mode flat = RGB /\ im_size flat = im_size im /\
    (im_mode im = RGB -> flat = im) /\
    (im_mode im = RGBA ->
     forall i j, 0 <= i < fst (im_size im) -> 0 <= j < snd (im_size im) ->
       let p := im_px im i j in
       let q := im_px flat i j in
       red q = blend8 (alpha p) 255 (red p) /\
       green q = blend8 (alpha p) 255 (green p) /\
       blue q = blend8 (alpha p) 255 (blue p)) /\
    (quality = None \/ quality = Some 0 -> quality_or_default quality = 95) /\
    objects (snd (save_image self image file_path quality s)) !! image = Some im.
Proof.
  intros Hext Him.
  destruct (paste_on_white im) as (flat & Eflat & Hm & Hs & Hpx).
  assert (Hf : is_supported_format file_path "output" = true).
  { rewrite supported_output. by destruct Hext as [-> | ->]. }
  pose proof (save_image_eq self image file_path quality s im flat Hf Him Eflat) as E.
  replace (in_modes (str_lower (path_suffix file_path)) [".jpg"; ".jpeg"]%string)
    with true in E by (by destruct Hext as [-> | ->]).
  assert (Hq : quality = None \/ quality = Some 0 -> quality_or_default quality = 95).
  { by intros [-> | ->]. }
  assert (Hobj : objects (snd (save_image self image file_path quality s)) !! image
                 = Some im).
  { rewrite E. destruct (im_mode im);
      match goal with
      | |- objects (snd (saved_with ?a ?b ?c ?d ?e)) !! _ = _ =>
          destruct (saved_with_objects a b c d e) as [k ->]
      end; by apply lookup_app_l_Some. }
  destruct (im_mode im) eqn:Em.
  - exists im. split; [exact E|]. split; [exact Em|]. split; [reflexivity|].
    split; [reflexivity|]. split; [discriminate|]. split; [exact Hq|exact Hobj].
  - exists flat. split; [exact E|]. split; [exact Hm|]. split; [exact Hs|].
    split; [discriminate|]. split; [intros _; exact Hpx|].
    split; [exact Hq|exact Hobj].
Qed.

(** X8: [save_image] never raises. It refuses a path whose extension is
    no output format before it makes any directory; for [.png] the
    encoder gets the image as it is, in its own mode, with
    [compress_level] 6 and [optimize], and for [.bmp] and [.tiff] with
    no option at all. *)
Theorem save_image_keeps_other_formats (self : ImageProcessor) (image : loc)
    (file_path : string) (quality : option Z) (s : machine D) :
  (exists saved s', save_image self image file_path quality s = (Return saved, s')) /\
  (is_supported_format file_path "output" = false ->
   save_image self image file_path quality s =
     (Return false, logged s [Error_unsupported_output_format file_path])) /\
  (forall im, objects s !! image = Some im ->
   (str_lower (path_suffix file_path) = ".png"%string ->
    save_image self image file_path quality s =
      saved_with s [] im file_path
        [("compress_level"%string, Config.VInt 6);
         ("optimize"%string, Config.VBool true)]) /\
   (str_lower (path_suffix file_path) = ".bmp"%string \/
    str_lower (path_suffix file_path) = ".tiff"%string ->
    save_image self image file_path quality s = saved_with s [] im file_path [])).
Proof.
  split; [|split].
  - unfold save_image. apply try_io_returns. intros e s1. by eexists _, _.
  - intros Hf. unfold save_image. io. rewrite Hf. reflexivity.
  - intros im Him.
    destruct (paste_on_white im) as (flat & Eflat & _).
    split.
    + intros Hext.
      rewrite (save_image_eq self image file_path quality s im flat);
        [|by rewrite supported_output, Hext|exact Him|exact Eflat].
      by rewrite Hext.
    + intros Hext.
      rewrite (save_image_eq self image file_path quality s im flat);
        [|rewrite supported_output; by destruct Hext as [-> | ->]
         |exact Him|exact Eflat].
      by destruct Hext as [-> | ->].
Qed.

(** X9: [load_logo] never raises and never writes to the disk. When it
    returns [False] the processor keeps the logo it had and the store
    is as it was; when it returns [True] the logo is a new image of the
    file's size, RGBA for a file of mode RGBA or LA and RGB for every
    other mode, a palette with transparency included. *)
Theorem load_logo_result (self : ImageProcessor) (logo_path : string)
    (s : machine D) :
  exists ok self' s',
    load_logo self logo_path s = (Return (ok, self'), s') /\
    files s' = files s /\
    default_settings self' = default_settings self /\
    (ok = false -> self' = self /\ objects s' = objects s) /\
    (ok = true ->
     path_exists (files s) logo_path = true /\
     is_supported_format logo_path "logo" = true /\
     exists img lg,
       Image_open (files s) logo_path = Return img /\
       objects s' = objects s ++ [lg; lg] /\
       current_logo self' = Some (S (length (objects s))) /\
       im_size lg = pic_size img /\
       im_mode lg = (if in_modes (pic_mode img) ["RGBA"; "LA"]%string
                     then RGBA else RGB)).
Proof.
  unfold load_logo. io.
  destruct (path_exists (files s) logo_path) eqn:E1; step.
  2:{ eexists _, _, _. split; [reflexivity|]. by repeat split. }
  destruct (is_supported_format logo_path "logo") eqn:E2; step.
  2:{ eexists _, _, _. split; [reflexivity|]. by repeat split. }
  destruct (Image_open (files s) logo_path) as [img|e] eqn:E3; step.
  2:{ eexists _, _, _. split; [reflexivity|]. by repeat split. }
  destruct (in_modes (pic_mode img) ["RGBA"; "LA"]%string) eqn:E4.
  - destruct (if String.eqb (pic_mode img) "RGBA" then pic_bytes img
              else pic_convert img RGBA) as [px|e]; step.
    2:{ eexists _, _, _. split; [reflexivity|]. by repeat split. }
    eexists _, _, _. split.
    { rewrite run_M_new_object. step. rewrite run_M_new_object. step.
      cbn [objects files events]. reflexivity. }
    cbn [objects files events].
    split; [reflexivity|]. split; [reflexivity|]. split; [discriminate|].
    intros _. split; [reflexivity|]. split; [reflexivity|].
    eexists _, _. split; [reflexivity|].
    split; [rewrite <- app_assoc; reflexivity|].
    split; [rewrite length_app, Nat.add_1_r; reflexivity|].
    split; [reflexivity|]. by rewrite E4.
  - destruct (if String.eqb (pic_mode img) "RGB" then pic_bytes img
              else pic_convert img RGB) as [px|e]; step.
    2:{ eexists _, _, _. split; [reflexivity|]. by repeat split. }
    eexists _, _, _. split.
    { rewrite run_M_new_object. step. rewrite run_M_new_object. step.
      cbn [objects files events]. reflexivity. }
    cbn [objects files events].
    split; [reflexivity|]. split; [reflexivity|]. split; [discriminate|].
    intros _. split; [reflexivity|]. split; [reflexivity|].
    eexists _, _. split; [reflexivity|].
    split; [rewrite <- app_assoc; reflexivity|].
    split; [rewrite length_app, Nat.add_1_r; reflexivity|].
    split; [reflexivity|]. by rewrite E4.
Qed.

Lemma run_M_Image_copy (l : loc) (s : machine D) (im : Image) :
  objects s !! l = Some im ->
  run_M (Image_copy l) s =
    (Return (length (objects s)),
     {| objects := objects s ++ [im]; files := files s; events := events s |}).
Proof.
  intros E. unfold run_M, Image_copy, deref, new_object, mbind, M_bind.
  cbn [heap]. rewrite E. cbv beta iota. cbn [of_result map log heap].
  by rewrite app_nil_r.
Qed.

Lemma run_M_assign (l : loc) (im : Image) (s : machine D) :
  run_M (assign l im) s =
    (Return tt, {| objects := <[l := im]> (objects s); files := files s;
                   events := events s |}).
Proof.
  unfold run_M, assign. cbn [of_result map log heap]. by rewrite app_nil_r.
Qed.

(** X10: [create_preview] works on a copy: the image it is given stays
    as it was. It returns the copy, shrunk in place and in the image's
    mode (the size limit is (800, 600) when none is given); when the
    thumbnail raises it logs the error and returns the given image
    itself, not a copy. *)
Theorem create_preview_copy_or_original (self : ImageProcessor) (image : loc)
    (max_size : option (Z * Z)) (s : machine D) (im : Image) :
  objects s !! image = Some im ->
  create_preview thumbnail self image max_size s =
    match thumbnail im (default (800, 600) max_size) with
    | Return t =>
        (Return (length (objects s)),
         {| objects := objects s ++
                       [{| im_mode := im_mode im; im_size := fst t;
                           im_px := snd t |}];
            files := files s; events := events s |})
    | Throw e =>
        (Return image,
         {| objects := objects s ++ [im]; files := files s;
            events := events s ++ [Logged (Error_creating_preview e)] |})
    end /\
  image <> length (objects s) /\
  objects (snd (create_preview thumbnail self image max_size s)) !! image
    = Some im.
Proof.
  intros Him.
  assert (E : create_preview thumbnail self image max_size s =
    match thumbnail im (default (800, 600) max_size) with
    | Return t =>
        (Return (length (objects s)),
         {| objects := objects s ++
                       [{| im_mode := im_mode im; im_size := fst t;
                           im_px := snd t |}];
            files := files s; events := events s |})
    | Throw e =>
        (Return image,
         {| objects := objects s ++ [im]; files := files s;
            events := events s ++ [Logged (Error_creating_preview e)] |})
    end).
  { unfold create_preview, Image_thumbnail. io.
    rewrite (run_M_Image_copy image s im Him). step.
    rewrite (run_M_deref _ _ im) by (cbn [objects]; apply lookup_fresh_0).
    step. change Config.preview_size with (800, 600).
    destruct (thumbnail im (default (800, 600) max_size)) as [t|e]; step;
      [|reflexivity].
    rewrite run_M_assign. step. cbn [objects files events].
    rewrite <- (Nat.add_0_r (length (objects s))), insert_fresh.
    reflexivity. }
  split; [exact E|].
  split; [apply lookup_lt_Some in Him; lia|].
  rewrite E. destruct (thumbnail im _); cbn [snd objects];
    by apply lookup_app_l_Some.
Qed.

(** [load_image], [apply_logo] and [save_image] never raise. *)
Lemma load_image_returns (self : ImageProcessor) (file_path : string)
    (s : machine D) :
  exists r s', load_image thumbnail self file_path s = (Return r, s').
Proof.
  unfold load_image. apply try_io_returns. intros e s1. by eexists _, _.
Qed.

Lemma apply_logo_returns (self : ImageProcessor) (image : loc) (kw : kwargs)
    (s : machine D) :
  exists r s', run_M (apply_logo resample enhance self image kw) s = (Return r, s').
Proof.
  unfold run_M, apply_logo.
  destruct (current_logo self) as [logo|].
  - unfold try_except.
    match goal with
    | |- context [match ?b ?w with _ => _ end] => destruct (b w) as [[r|e] w']
    end; by eexists _, _.
  - by eexists _, _.
Qed.

Lemma save_image_returns (self : ImageProcessor) (image : loc)
    (file_path : string) (quality : option Z) (s : machine D) :
  exists saved s', save_image self image file_path quality s = (Return saved, s').
Proof.
  unfold save_image. apply try_io_returns. intros e s1. by eexists _, _.
Qed.

(** One turn of the loop returns, with the list it had or with the
    output name appended. *)
Lemma batch_step_returns (self : ImageProcessor) (output_dir : string)
    (progress_callback : option (Z -> Z -> progress_message -> IO D unit))
    (kw : kwargs) (total i : Z) (image_path : string) (acc : list string)
    (s : machine D) :
  exists l s',
    batch_step resample enhance thumbnail self output_dir progress_callback kw
      total i image_path acc s = (Return l, s') /\
    (l = acc \/ l = acc ++ [output_file output_dir image_path]).
Proof.
  unfold batch_step, try_io.
  match goal with
  | |- context [match ?b s with _ => _ end] => destruct (b s) as [[l|e] s1] eqn:E
  end.
  2:{ eexists _, _. split; [reflexivity|by left]. }
  exists l, s1. split; [reflexivity|].
  revert E. io.
  destruct (match progress_callback with
            | Some f => f i total (Processing (path_name image_path))
            | None => fun s => (Return tt, s)
            end s) as [[[]|e] s2]; [|discriminate].
  destruct (load_image_returns self image_path s2) as (r & s3 & ->). step.
  destruct r as [image|]; [|intros [= <- _]; by left].
  destruct (apply_logo_returns self image kw s3) as (r & s4 & ->). step.
  destruct r as [processed|]; [|intros [= <- _]; by left].
  destruct (save_image_returns self processed (output_file output_dir image_path)
              None s4) as (saved & s5 & ->). step.
  intros [= <- _]. destruct saved; [by right|by left].
Qed.

Lemma batch_loop_sublist (self : ImageProcessor) (output_dir : string)
    (progress_callback : option (Z -> Z -> progress_message -> IO D unit))
    (kw : kwargs) (total : Z) (image_paths : list string) :
  forall (i : Z) (acc : list string) (s : machine D),
  exists l s',
    batch_loop resample enhance thumbnail self output_dir progress_callback kw
      total i image_paths acc s = (Return (acc ++ l), s') /\
    sublist l (map (output_file output_dir) image_paths).
Proof.
  induction image_paths as [|p rest IH]; intros i acc s.
  - exists [], s. split; [by rewrite app_nil_r|constructor].
  - cbn [batch_loop]. unfold mbind, IO_bind.
    destruct (batch_step_returns self output_dir progress_callback kw total i p
                acc s) as (l1 & s1 & -> & Hl1).
    destruct (IH (i + 1) l1 s1) as (l & s' & -> & Hl).
    destruct Hl1 as [-> | ->].
    + exists l, s'. split; [reflexivity|]. by apply sublist_cons.
    + exists (output_file output_dir p :: l), s'.
      split; [by rewrite <- app_assoc|]. by apply sublist_skip.
Qed.

(** X11: without a logo [batch_process] returns the empty list and does
    nothing but log the error: no directory, no callback. With one, a
    file that fails and a callback that raises inside the loop stop
    nothing: only the making of the output directory and the callback
    after the loop can raise. The list it returns holds, in the order
    of the input, names [<output_dir>/<stem>_with_logo.jpg] of input
    paths, so never more than there are inputs, and the last line it
    logs counts them. *)
Theorem batch_process_results (self : ImageProcessor) (image_paths : list string)
    (output_dir : string)
    (progress_callback : option (Z -> Z -> progress_message -> IO D unit))
    (kw : kwargs) (s : machine D) :
  (current_logo self = None ->
   batch_process resample enhance thumbnail self image_paths output_dir
     progress_callback kw s = (Return [], logged s [Error_batch_without_logo])) /\
  (forall l s',
   batch_process resample enhance thumbnail self image_paths output_dir
     progress_callback kw s = (Return l, s') ->
   sublist l (map (output_file output_dir) image_paths) /\
   (length l <= length image_paths)%nat /\
   (is_Some (current_logo self) ->
    last (events s') =
      Some (Logged (Info_batch_done (Z.of_nat (length l))
                      (Z.of_nat (length image_paths)))))) /\
  (is_Some (current_logo self) -> progress_callback = None ->
   forall d, mkdir (files s) output_dir = (Return tt, d) ->
   exists l s',
     batch_process resample enhance thumbnail self image_paths output_dir
       progress_callback kw s = (Return l, s')).
Proof.
  split; [|split].
  - intros E. unfold batch_process. rewrite E. reflexivity.
  - intros l s' E. unfold batch_process in E.
    destruct (current_logo self) as [logo|] eqn:El.
    2:{ revert E. io. intros [= <- <-]. split; [apply sublist_nil_l|].
        split; [simpl; lia|]. by intros [? [=]]. }
    revert E. io.
    destruct (mkdir (files s) output_dir) as [[[]|e] d]; [|discriminate]. step.
    match goal with
    | |- context [batch_loop _ _ _ _ _ _ _ _ _ _ _ ?s0] =>
        destruct (batch_loop_sublist self output_dir progress_callback kw
                    (Z.of_nat (length image_paths)) image_paths 0 [] s0)
          as (l0 & s1 & -> & Hsub)
    end.
    step. rewrite app_nil_l.
    destruct (match progress_callback with
              | Some f => f _ _ Processing_finished
              | None => fun s => (Return tt, s)
              end s1) as [[[]|e] s2]; [|discriminate].
    intros [= <- <-]. split; [exact Hsub|].
    split; [apply sublist_length in Hsub; by rewrite length_map in Hsub|].
    intros _. cbn [events]. by rewrite last_snoc.
  - intros [logo El] -> d Hd. unfold batch_process. rewrite El. io.
    rewrite Hd. step.
    match goal with
    | |- context [batch_loop _ _ _ _ _ _ _ _ _ _ _ ?s0] =>
        destruct (batch_loop_sublist self output_dir None kw
                    (Z.of_nat (length image_paths)) image_paths 0 [] s0)
          as (l0 & s1 & -> & Hsub)
    end.
    step. by eexists _, _.
Qed.

(** *** Computations that only log *)

Lemma logs_only_ret {A} (a : A) : logs_only (mret a : IO D A).
Proof. intros s. exists []. cbn. by rewrite app_nil_r. Qed.

Lemma logs_only_bind {A B} (m : IO D A) (k : A -> IO D B) :
  logs_only m -> (forall a, logs_only (k a)) -> logs_only (mbind k m).
Proof.
  intros Hm Hk s. unfold mbind, IO_bind.
  destruct (Hm s) as [l1 E1]. destruct (m s) as [[a|e] s1]; cbn [snd] in *.
  - destruct (Hk a s1) as [l2 E2]. exists (l1 ++ l2).
    by rewrite E2, E1, map_app, app_assoc.
  - by exists l1.
Qed.

Lemma logs_only_try {A} (body : IO D A) (handler : failure -> IO D A) :
  logs_only body -> (forall e, logs_only (handler e)) ->
  logs_only (try_io body handler).
Proof.
  intros Hm Hk s. unfold try_io.
  destruct (Hm s) as [l1 E1]. destruct (body s) as [[a|e] s1]; cbn [snd] in *.
  - by exists l1.
  - destruct (Hk e s1) as [l2 E2]. exists (l1 ++ l2).
    by rewrite E2, E1, map_app, app_assoc.
Qed.

Lemma logs_only_emit (line : log_line) : logs_only (emit (Logged line) : IO D unit).
Proof. intros s. by exists [line]. Qed.

Lemma logs_only_lift {A} (o : outcome A) : logs_only (lift_outcome o : IO D A).
Proof. intros s. exists []. cbn. by rewrite app_nil_r. Qed.

Lemma logs_only_lift_result {A} (r : result A) : logs_only (lift_result r : IO D A).
Proof. apply logs_only_lift. Qed.

Lemma logs_only_run_M {A} (m : M A) : logs_only (run_M m : IO D A).
Proof.
  intros s. unfold run_M. destruct (m _) as [r w]. cbn [snd events].
  exists (map Apply_logo (log w)). by rewrite map_map.
Qed.

Lemma logs_only_write {A} (call : D -> outcome A * D) : logs_only (write call).
Proof.
  intros s. unfold write. destruct (call _) as [r d]. exists []. cbn.
  by rewrite app_nil_r.
Qed.

Lemma logs_only_read {A} (f : machine D -> outcome A) :
  logs_only (fun s => (f s, s)).
Proof. intros s. exists []. cbn. by rewrite app_nil_r. Qed.

Ltac logs :=
  repeat first
    [ apply logs_only_try | apply logs_only_bind | apply logs_only_ret
    | apply logs_only_emit | apply logs_only_lift_result | apply logs_only_lift
    | apply logs_only_run_M | apply logs_only_write
    | apply (logs_only_read (fun s => Return (path_exists (files s) _)))
    | apply (logs_only_read (fun s => getsize (files s) _))
    | apply (logs_only_read (fun s => Image_open (files s) _))
    | match goal with |- forall _, _ => intro end
    | match goal with
      | |- logs_only (if ?b then _ else _) => destruct b
      | |- logs_only (match ?x with _ => _ end) => destruct x
      end ].

Lemma load_image_logs_only (self : ImageProcessor) (file_path : string) :
  logs_only (load_image thumbnail self file_path).
Proof. unfold load_image, os_path_exists, os_path_getsize, PIL_open. logs. Qed.

Lemma save_image_logs_only (self : ImageProcessor) (image : loc)
    (file_path : string) (quality : option Z) :
  logs_only (save_image self image file_path quality).
Proof. unfold save_image, os_mkdir, PIL_save. logs. Qed.

Lemma progress_calls_app (es es' : list event) :
  progress_calls (es ++ es') = progress_calls es ++ progress_calls es'.
Proof. apply omap_app. Qed.

Lemma progress_calls_logged (lines : list log_line) :
  progress_calls (map Logged lines) = [].
Proof. induction lines as [|l lines IH]; [done|exact IH]. Qed.

Lemma logs_only_progress {A} (m : IO D A) (s : machine D) :
  logs_only m -> progress_calls (events (snd (m s))) = progress_calls (events s).
Proof.
  intros Hm. destruct (Hm s) as [lines ->].
  by rewrite progress_calls_app, progress_calls_logged, app_nil_r.
Qed.

Lemma batch_step_progress (self : ImageProcessor) (output_dir : string)
    (kw : kwargs) (total i : Z) (image_path : string) (acc : list string)
    (s : machine D) :
  progress_calls
    (events (snd (batch_step resample enhance thumbnail self output_dir
                    (Some record_progress) kw total i image_path acc s))) =
  progress_calls (events s) ++ [(i, total, Processing (path_name image_path))].
Proof.
  unfold batch_step.
  set (rest := (image ← load_image thumbnail self image_path;
                match image with
                | Some image =>
                    processed_image ← run_M (apply_logo resample enhance self image kw);
                    match processed_image with
                    | Some processed_image =>
                        saved ← save_image self processed_image
                                  (output_file output_dir image_path) None;
                        mret (if saved : bool
                              then acc ++ [output_file output_dir image_path]
                              else acc)
                    | None => mret acc
                    end
                | None => mret acc
                end) : IO D (list string)).
  set (handler := fun e : failure =>
         (emit (Logged (Error_processing image_path e));; mret acc) : IO D (list string)).
  assert (Hrest : logs_only (try_io rest handler)).
  { subst rest handler. apply logs_only_try.
    - apply logs_only_bind; [apply load_image_logs_only|].
      intros [image|]; [|apply logs_only_ret].
      apply logs_only_bind; [apply logs_only_run_M|].
      intros [processed|]; [|apply logs_only_ret].
      apply logs_only_bind; [apply save_image_logs_only|].
      intros saved. apply logs_only_ret.
    - intros e. logs. }
  set (s0 := {| objects := objects s; files := files s;
                events := events s ++ [Progress i total
                                         (Processing (path_name image_path))] |}).
  assert (E : try_io (record_progress i total (Processing (path_name image_path));;
                      rest) handler s = try_io rest handler s0).
  { unfold try_io, mbind, IO_bind, record_progress, emit. reflexivity. }
  rewrite E. rewrite (logs_only_progress _ s0 Hrest).
  unfold s0. cbn [events]. by rewrite progress_calls_app.
Qed.

Lemma batch_loop_progress (self : ImageProcessor) (output_dir : string)
    (kw : kwargs) (total : Z) (image_paths : list string) :
  forall (i : Z) (acc : list string) (s : machine D),
  progress_calls
    (events (snd (batch_loop resample enhance thumbnail self output_dir
                    (Some record_progress) kw total i image_paths acc s))) =
  progress_calls (events s) ++ loop_calls total i (map path_name image_paths).
Proof.
  induction image_paths as [|p rest IH]; intros i acc s.
  - cbn. by rewrite app_nil_r.
  - cbn [batch_loop map loop_calls]. unfold mbind, IO_bind.
    pose proof (batch_step_progress self output_dir kw total i p acc s) as E1.
    destruct (batch_step_returns self output_dir (Some record_progress) kw total
                i p acc s) as (l1 & s1 & E & _).
    rewrite E in E1 |- *. cbn [snd] in E1.
    rewrite IH, E1. by rewrite <- app_assoc.
Qed.

Lemma loop_calls_lookup (total : Z) (names : list string) :
  forall (i : Z) (k : nat),
  loop_calls total i names !! k =
    (fun name => (i + Z.of_nat k, total, Processing name)) <$> names !! k.
Proof.
  induction names as [|name rest IH]; intros i k; [done|].
  destruct k as [|k]; cbn [loop_calls lookup list_lookup fmap option_fmap option_map].
  - by rewrite Z.add_0_r.
  - rewrite IH. destruct (rest !! k); [|done]. cbn. do 3 f_equal. lia.
Qed.

(** X12: with a logo and an output directory that can be made,
    [batch_process] calls the progress callback once before each file,
    in order, with the index from 0, the number of files and the name
    of the file, whether or not the file is then processed, and once
    more after the loop with the number of files twice. *)
Theorem batch_process_progress (self : ImageProcessor)
    (image_paths : list string) (output_dir : string) (kw : kwargs)
    (s : machine D) (d : D) :
  is_Some (current_logo self) ->
  mkdir (files s) output_dir = (Return tt, d) ->
  let total := Z.of_nat (length image_paths) in
  let calls := loop_calls total 0 (map path_name image_paths) in
  progress_calls
    (events (snd (batch_process resample enhance thumbnail self image_paths
                    output_dir (Some record_progress) kw s))) =
    progress_calls (events s) ++ calls ++ [(total, total, Processing_finished)] /\
  length calls = length image_paths /\
  forall k image_path, image_paths !! k = Some image_path ->
    calls !! k = Some (Z.of_nat k, total, Processing (path_name image_path)).
Proof.
  intros [logo El] Hd total calls. split; [|split].
  - unfold batch_process. rewrite El. io. rewrite Hd. step.
    match goal with
    | |- context [batch_loop _ _ _ _ _ _ _ _ _ _ _ ?s0] =>
        pose proof (batch_loop_progress self output_dir kw total image_paths
                      0 [] s0) as E1;
        destruct (batch_loop_sublist self output_dir (Some record_progress) kw
                    total image_paths 0 [] s0) as (l0 & s1 & E & _)
    end.
    fold total. rewrite E in E1 |- *. cbn [snd events] in E1. step.
    unfold record_progress, emit. step. cbn [snd events].
    rewrite !progress_calls_app, E1. cbn. rewrite app_nil_r, <- app_assoc.
    reflexivity.
  - unfold calls.
    assert (G : forall names i, length (loop_calls total i names) = length names).
    { induction names as [|n r IH]; intros i; [done|]. cbn. by rewrite IH. }
    by rewrite G, length_map.
  - intros k p Hk. unfold calls. rewrite loop_calls_lookup, list_lookup_fmap, Hk.
    reflexivity.
Qed.

(** X13: a file that [validate_image_file] accepts passes the three
    checks of [load_image] and is not larger than 8192 pixels on either
    side, so [load_image] never resizes it: it loads the file at its
    own size, and returns [None] only when the pixels cannot be read or
    converted. Validation itself changes nothing. *)
Theorem validated_file_loads_unresized (self : ImageProcessor)
    (file_path : string) (s s1 : machine D) (n : Z) :
  validate_image_file file_path s = (Return (true, Valid), s1) ->
  getsize (files s) file_path = Return n -> 0 <= n < 2 ^ 53 ->
  s1 = s /\ n <= 52428800 /\
  exists img,
    Image_open (files s) file_path = Return img /\
    fst (pic_size img) <= 8192 /\ snd (pic_size img) <= 8192 /\
    load_image thumbnail self file_path s1 =
      match converted_pixels img ≫= id with
      | Return px =>
          (Return (Some (length (objects s))),
           {| objects := objects s ++
                         [{| im_mode := RGB; im_size := pic_size img;
                             im_px := px |}];
              files := files s;
              events := events s ++
                        [Logged (Info_image_loaded file_path (pic_size img))] |})
      | Throw e => (Return None, logged s [Error_loading_image file_path e])
      end.
Proof.
  intros Hv Hn Hr.
  destruct (file_size_check n Hr) as (f & Ef & Hf).
  revert Hv. unfold validate_image_file, get_file_size_mb. io.
  destruct (path_exists (files s) file_path) eqn:E1; step; [|discriminate].
  destruct (is_supported_format file_path "input") eqn:E2; step; [|discriminate].
  rewrite E1. step. rewrite Hn. step. rewrite Ef. step. rewrite Hf.
  destruct (52428800 <? n) eqn:E5; step; [discriminate|].
  destruct (Image_open (files s) file_path) as [img|e] eqn:E6; step;
    [|discriminate].
  destruct (exceeds (pic_size img) Config.max_image_size) eqn:E7; step;
    [discriminate|].
  intros [= <-]. apply Z.ltb_ge in E5.
  split; [reflexivity|]. split; [exact E5|].
  exists img. split; [reflexivity|].
  unfold exceeds, Config.max_image_size in E7. cbn [fst snd] in E7.
  apply orb_false_elim in E7 as [G1 G2].
  split; [lia|]. split; [lia|].
  rewrite (load_image_opened self file_path s n img E1 E2 Hn) by (done || lia).
  unfold load_opened, exceeds, Config.max_image_size. cbn [fst snd].
  rewrite G1, G2. cbn [orb]. io.
  destruct (converted_pixels img) as [[px|e]|e]; reflexivity.
Qed.

(** X14: [create_backup] without a backup directory never makes a copy:
    [get_config('paths')] has no key [backup_dir], so for a file that
    exists the lookup raises [KeyError], which is logged, and [None] is
    returned; for a file that does not exist [None] is returned at
    once. The disk is not touched. *)
Theorem create_backup_without_directory (file_path : string) (s : machine D) :
  Config.getitem (Config.get_config (Some "paths"%string)) "backup_dir"
    = Raise KeyError /\
  create_backup file_path None s =
    (Return None,
     if path_exists (files s) file_path
     then logged s [Error_creating_backup file_path (Exn KeyError)]
     else s).
Proof.
  split; [reflexivity|].
  unfold create_backup. io.
  destruct (path_exists (files s) file_path); step; reflexivity.
Qed.

Lemma unique_loop_first_free (d : D) (directory base_name extension : string)
    (k : nat) :
  path_exists d (candidate directory base_name extension k) = false ->
  forall (fuel j : nat),
  (j <= k)%nat -> (k - j <= fuel)%nat ->
  (forall i, (j <= i < k)%nat ->
             path_exists d (candidate directory base_name extension i) = true) ->
  unique_loop fuel d directory base_name extension (Z.of_nat j + 1)
    (candidate directory base_name extension j) =
    Some (os_path_basename (candidate directory base_name extension k)).
Proof.
  intros Hfree fuel. induction fuel as [|fuel IH]; intros j Hj Hfuel Hbusy.
  - assert (j = k) by lia. subst j. cbn [unique_loop]. by rewrite Hfree.
  - destruct (Nat.eq_dec j k) as [->|Hne].
    + cbn [unique_loop]. by rewrite Hfree.
    + cbn [unique_loop]. rewrite Hbusy by lia.
      specialize (IH (S j) ltac:(lia) ltac:(lia)
                    (fun i Hi => Hbusy i ltac:(lia))).
      rewrite Nat2Z.inj_succ in IH. unfold Z.succ in IH.
      cbn [candidate] in IH. rewrite Nat2Z.inj_succ in IH. unfold Z.succ in IH.
      exact IH.
Qed.

(** X15: [get_unique_filename] returns the base name of the first
    candidate that does not exist, in the order [base+ext],
    [base_1+ext], [base_2+ext], ...: when some candidate is free the
    loop ends, after as many turns as there are taken candidates
    before it. *)
Theorem get_unique_filename_first_free (d : D)
    (directory base_name extension : string) (k fuel : nat) :
  (forall i, (i < k)%nat ->
             path_exists d (candidate directory base_name extension i) = true) ->
  path_exists d (candidate directory base_name extension k) = false ->
  (k <= fuel)%nat ->
  get_unique_filename fuel d directory base_name extension =
    Some (os_path_basename (candidate directory base_name extension k)).
Proof.
  intros Hbusy Hfree Hfuel. unfold get_unique_filename.
  exact (unique_loop_first_free d directory base_name extension k Hfree fuel 0%nat
           ltac:(lia) ltac:(lia) (fun i Hi => Hbusy i ltac:(lia))).
Qed.

(** X16: the three handlers of the main window that open a dialog
    never open it: the keys [last_open_dir], [last_logo_dir] and
    [last_save_dir] are not in [FILE_PATHS], so the argument
    of the dialog raises [KeyError] before the call; the handler logs
    the error and shows it in an error box, whatever the dialog and the
    code after it would do. So [_batch_process] never reaches
    [ImageProcessor.batch_process]. *)
Theorem dialogs_are_never_opened (dialog : Config.value -> IO D unit)
    (current_images : list string) (logo_loaded : bool) (s : machine D) :
  let failed (line : failure -> log_line) :=
    (Return tt,
     {| objects := objects s; files := files s;
        events := events s ++ [Logged (line (Exn KeyError));
                               Showerror (line (Exn KeyError))] |}) in
  map fst (Config.get_config (Some "paths"%string)) =
    ["user_config"; "recent_files"; "log_file"; "temp_dir"; "assets_dir"]%string /\
  _load_images dialog s = failed Error_loading_images /\
  _load_logo dialog s = failed Error_loading_logo_file /\
  _batch_process current_images logo_loaded dialog s =
    if bool_decide (current_images = []) || negb logo_loaded
    then (Return tt, s)
    else failed Error_starting_batch.
Proof.
  intros failed.
  assert (Hfail : forall key line,
            Config.getitem (Config.get_config (Some "paths"%string)) key
              = Raise KeyError ->
            dialog_handler key line dialog s = failed line).
  { intros key line Hkey. unfold dialog_handler, try_io, failed.
    io. rewrite Hkey. cbn. by rewrite <- app_assoc. }
  split; [reflexivity|].
  split; [exact (Hfail "last_open_dir"%string _ eq_refl)|].
  split; [exact (Hfail "last_logo_dir"%string _ eq_refl)|].
  unfold _batch_process.
  destruct (bool_decide (current_images = []) || negb logo_loaded);
    [reflexivity | exact (Hfail "last_save_dir"%string _ eq_refl)].
Qed.
End File_properties.

(** ** File names *)

Lemma str_replace_valid (old : Z) (done : list Z) (s : list Z) :
  95 ∉ done ++ [old] ->
  Forall (fun c => c ∉ done) s ->
  Forall (fun c => c ∉ done ++ [old]) (str_replace old 95 s).
Proof.
  intros H95 Hs. unfold str_replace. apply Forall_map.
  eapply Forall_impl; [exact Hs|]. intros c Hc. cbn.
  destruct (Z.eqb_spec c old) as [->|Hne]; [exact H95|].
  intros Hin. apply elem_of_app in Hin as [Hin|Hin]; [exact (Hc Hin)|].
  apply elem_of_cons in Hin as [Hin|Hin]; [exact (Hne Hin)|].
  by apply elem_of_nil in Hin.
Qed.

Lemma replace_all_valid (chars : list Z) :
  forall (done s : list Z),
  95 ∉ done ++ chars ->
  Forall (fun c => c ∉ done) s ->
  Forall (fun c => c ∉ done ++ chars)
         (foldl (fun safe_name char => str_replace char 95 safe_name) s chars).
Proof.
  induction chars as [|old chars IH]; intros done s H95 Hs.
  - cbn. by rewrite app_nil_r.
  - cbn [foldl]. rewrite (cons_middle old done chars), app_assoc in H95 |- *.
    apply IH; [exact H95|].
    apply str_replace_valid; [|exact Hs].
    intros Hin. apply H95. apply elem_of_app. by left.
Qed.

Lemma rstrip_Forall (P : Z -> Prop) (chars s : list Z) :
  Forall P s -> Forall P (rstrip chars s).
Proof.
  induction 1 as [|c r Hc Hr IH]; [constructor|].
  cbn [rstrip]. destruct (rstrip chars r) as [|a t].
  - destruct (bool_decide (c ∈ chars)); [constructor | by constructor].
  - by constructor.
Qed.

Lemma stripped_valid (filename : list Z) :
  Forall (fun c => c ∉ invalid_chars) (stripped filename).
Proof.
  unfold stripped. apply rstrip_Forall.
  apply (replace_all_valid invalid_chars [] filename).
  - cbn [app]. unfold invalid_chars. rewrite !elem_of_cons, elem_of_nil.
    intros H. repeat (destruct H as [H|H]; [discriminate H|]). exact H.
  - apply Forall_forall. intros c _. apply not_elem_of_nil.
Qed.

Lemma slice_to_length (s : list Z) (stop : Z) :
  0 <= stop -> Z.of_nat (length (slice_to s stop)) <= stop.
Proof.
  intros Hstop. unfold slice_to.
  destruct (Z.ltb_spec stop 0) as [Hneg|_]; [lia|].
  rewrite length_take. lia.
Qed.

(** X17: [safe_filename] never returns the empty name and never returns
    a name with one of the nine characters it replaces (less-than,
    greater-than, colon, double quote, slash, backslash, bar, question
    mark, star), for a [splitext] that cuts the name in two. When the
    extension [splitext] finds is at most 200 long, the result is at
    most 200 long. *)
Theorem safe_filename_valid (splitext : list Z -> list Z * list Z)
    (filename : list Z) :
  (fst (splitext (stripped filename)) ++ snd (splitext (stripped filename))
     = stripped filename) ->
  safe_filename splitext filename <> [] /\
  Forall (fun c => c ∉ invalid_chars) (safe_filename splitext filename) /\
  (Z.of_nat (length (snd (splitext (stripped filename)))) <= 200 ->
   Z.of_nat (length (safe_filename splitext filename)) <= 200).
Proof.
  intros Hjoin. pose proof (stripped_valid filename) as Hvalid.
  unfold safe_filename.
  destruct (splitext (stripped filename)) as [name ext] eqn:Esplit.
  cbn [fst snd] in *.
  set (cut := if 200 <? Z.of_nat (length (stripped filename))
              then slice_to name (200 - Z.of_nat (length ext)) ++ ext
              else stripped filename).
  assert (Hcut : Forall (fun c => c ∉ invalid_chars) cut).
  { unfold cut. destruct (200 <? Z.of_nat (length (stripped filename)));
      [|exact Hvalid].
    rewrite <- Hjoin in Hvalid. apply Forall_app in Hvalid as [Hname Hext].
    apply Forall_app. split; [|exact Hext].
    unfold slice_to. by apply Forall_take. }
  assert (Hlen : Z.of_nat (length ext) <= 200 -> Z.of_nat (length cut) <= 200).
  { intros Hext. unfold cut.
    destruct (Z.ltb_spec 200 (Z.of_nat (length (stripped filename))))
      as [_|Hshort]; [|exact Hshort].
    rewrite length_app, Nat2Z.inj_add.
    pose proof (slice_to_length name (200 - Z.of_nat (length ext))
                  ltac:(lia)). lia. }
  destruct (bool_decide (cut = [])) eqn:Eempty.
  - split; [discriminate|]. split.
    + unfold unnamed, invalid_chars.
      repeat (apply Forall_cons; split;
              [rewrite !elem_of_cons, elem_of_nil; intros H;
               repeat (destruct H as [H|H]; [discriminate H|]); exact H|]).
      apply Forall_nil_2.
    + intros _. cbn. lia.
  - apply bool_decide_eq_false in Eempty. by repeat split.
Qed.

(** ** Runs on a sample disk

    Each property with a precondition, at a concrete input: the files of
    [Sample.desk], the images of [Example.w0]. *)

Section Sample_runs.
Import Example Sample.

Lemma unknown_format_type_supports_nothing_witness :
  is_supported_format "in/photo.JPG" "thumbnail" = false.
Proof.
  exact (@unknown_format_type_supports_nothing paths "in/photo.JPG" "thumbnail"
           ltac:(discriminate) ltac:(discriminate) ltac:(discriminate)).
Defined.

Lemma load_image_flattens_alpha_witness :
  exists im,
    load_image half processor "in/logo.png" (start desk) =
      (Return (Some 0%nat),
       {| objects := [im]; files := desk;
          events := [Logged (Info_image_loaded "in/logo.png" (200, 100))] |}) /\
    im_mode im = RGB /\ im_size im = (200, 100) /\
    red (im_px im 0 0) = blend8 128 255 200 /\
    green (im_px im 0 0) = blend8 128 255 100 /\
    blue (im_px im 0 0) = blend8 128 255 50.
Proof.
  pose proof (@load_image_flattens_alpha disk system paths half processor
                "in/logo.png" (start desk) 20000 mark (im_px logo0)) as H.
  specialize (H ltac:(vm_compute; reflexivity) ltac:(vm_compute; reflexivity)
                ltac:(vm_compute; reflexivity) ltac:(lia)
                ltac:(vm_compute; reflexivity)
                ltac:(left; split; [left|]; reflexivity)
                ltac:(vm_compute; reflexivity)).
  destruct H
    as (im & Hload & Hmode & Hsize & Hpx).
  exists im. split; [exact Hload|]. split; [exact Hmode|]. split; [exact Hsize|].
  destruct (Hpx 0 0 ltac:(cbn; lia) ltac:(cbn; lia)) as (Hr & Hg & Hb & _).
  split; [exact Hr|]. split; [exact Hg|exact Hb].
Defined.

Lemma save_image_jpeg_witness :
  exists flat,
    save_image processor 1%nat "out/logo.jpg" None studio =
      saved_with studio [flat] flat "out/logo.jpg"
        [("quality"%string, Config.VInt 95);
         ("optimize"%string, Config.VBool true)] /\
    im_mode flat = RGB /\ im_size flat = (200, 100) /\
    red (im_px flat 0 0) = blend8 128 255 200 /\
    objects (snd (save_image processor 1%nat "out/logo.jpg" None studio))
      !! 1%nat = Some logo0.
Proof.
  pose proof (@save_image_jpeg disk system paths processor 1%nat "out/logo.jpg"
                None studio logo0) as H.
  specialize (H ltac:(left; vm_compute; reflexivity) ltac:(reflexivity)).
  destruct H
    as (flat & Hsave & Hmode & Hsize & _ & Hpx & _ & Hkept).
  exists flat. split; [exact Hsave|]. split; [exact Hmode|]. split; [exact Hsize|].
  split; [|exact Hkept].
  destruct (Hpx ltac:(reflexivity) 0 0 ltac:(cbn; lia) ltac:(cbn; lia)) as (Hr & _).
  exact Hr.
Defined.

Lemma create_preview_copy_or_original_witness :
  create_preview half processor 0%nat None studio =
    (Return 2%nat,
     {| objects := heap w0 ++
                   [{| im_mode := RGB; im_size := (500, 400);
                       im_px := fun i j => im_px base0 (2 * i) (2 * j) |}];
        files := desk; events := [] |}) /\
  objects (snd (create_preview half processor 0%nat None studio)) !! 0%nat
    = Some base0.
Proof.
  destruct (@create_preview_copy_or_original disk half processor 0%nat None studio
              base0 ltac:(vm_compute; reflexivity)) as (Hrun & _ & Hkept).
  split; [exact Hrun|exact Hkept].
Defined.

Lemma batch_process_progress_witness :
  progress_calls
    (events (snd (batch_process nearest scale_byte half processor
                    ["in/photo.JPG"; "in/none.png"]%string "out"
                    (Some record_progress) kw0 studio))) =
    [(0, 2, Processing "photo.JPG"); (1, 2, Processing "none.png");
     (2, 2, Processing_finished)].
Proof.
  pose proof (@batch_process_progress disk system paths nearest scale_byte half
                processor ["in/photo.JPG"; "in/none.png"]%string "out" kw0
                studio desk) as H.
  specialize (H ltac:(exists 1%nat; reflexivity) ltac:(reflexivity)).
  destruct H as (Hcalls & _).
  exact Hcalls.
Defined.

Lemma validated_file_loads_unresized_witness :
  validate_image_file "in/photo.JPG" (start desk)
    = (Return (true, Valid), start desk) /\
  load_image half processor "in/photo.JPG" (start desk) =
    (Return (Some 0%nat),
     {| objects := [{| im_mode := RGB; im_size := (1000, 800);
                       im_px := fun i j => opaque (im_px base0 i j) |}];
        files := desk;
        events := [Logged (Info_image_loaded "in/photo.JPG" (1000, 800))] |}).
Proof.
  assert (Hvalid : validate_image_file "in/photo.JPG" (start desk)
                   = (Return (true, Valid), start desk))
    by (vm_compute; reflexivity).
  split; [exact Hvalid|].
  pose proof (@validated_file_loads_unresized disk system paths half processor
                "in/photo.JPG" (start desk) (start desk) 300000 Hvalid) as H.
  specialize (H ltac:(reflexivity) ltac:(lia)).
  destruct H
    as (_ & _ & img & Hopen & _ & _ & Hload).
  injection Hopen as <-. exact Hload.
Defined.

Lemma get_unique_filename_first_free_witness :
  get_unique_filename 5 taken "out" "a" ".jpg" = Some "a_2.jpg"%string.
Proof.
  apply (@get_unique_filename_first_free disk system paths taken "out" "a" ".jpg"
           2 5).
  - intros [|[|i]] Hi; [reflexivity | reflexivity | lia].
  - reflexivity.
  - lia.
Defined.

Lemma safe_filename_valid_witness :
  safe_filename splitext long_name
    = replicate 125 97 ++ [95] ++ replicate 70 97 ++ [46; 106; 112; 103] /\
  safe_filename splitext long_name <> [] /\
  Forall (fun c => c ∉ invalid_chars) (safe_filename splitext long_name) /\
  Z.of_nat (length (safe_filename splitext long_name)) <= 200.
Proof.
  split; [vm_compute; reflexivity|].
  destruct (safe_filename_valid splitext long_name
              ltac:(vm_compute; reflexivity)) as (Hne & Hvalid & Hlen).
  split; [exact Hne|]. split; [exact Hvalid|].
  apply Hlen. vm_compute. discriminate.
Defined.

Lemma output_formats_are_input_formats_witness :
  is_supported_format "in/scan.WEBP" "input" = true /\
  is_supported_format "in/scan.WEBP" "output" = false /\
  is_supported_format "in/scan.WEBP" "logo" = false.
Proof.
  destruct (@output_formats_are_input_formats paths "in/scan.WEBP")
    as (_ & _ & Hread).
  apply Hread. right. reflexivity.
Defined.

Lemma load_image_guards_witness :
  load_image half processor "in/none.png" (start desk) =
    (Return None, logged (start desk) [Error_file_not_found "in/none.png"]) /\
  load_image half processor "in/notes.txt" (start desk) =
    (Return None, logged (start desk) [Error_unsupported_format "in/notes.txt"]) /\
  exists f, true_div 60000000 (1024 * 1024) = Ok f /\
    load_image half processor "in/huge.png" (start desk) =
      (Return None, logged (start desk) [Error_file_too_large f]).
Proof.
  split; [|split].
  - apply (@load_image_guards disk system paths half processor "in/none.png"
             (start desk)). reflexivity.
  - apply (@load_image_guards disk system paths half processor "in/notes.txt"
             (start desk)); reflexivity.
  - destruct (@load_image_guards disk system paths half processor "in/huge.png"
                (start desk)) as (_ & _ & Hsize).
    destruct (Hsize ltac:(reflexivity) ltac:(reflexivity) 60000000
                ltac:(reflexivity) ltac:(lia)) as (f & Hf & Hlarge & _).
    exists f. split; [exact Hf|]. apply Hlarge. lia.
Defined.

Lemma save_image_keeps_other_formats_witness :
  save_image processor 1%nat "out/logo.webp" None studio =
    (Return false,
     logged studio [Error_unsupported_output_format "out/logo.webp"]) /\
  save_image processor 1%nat "out/logo.PNG" None studio =
    saved_with studio [] logo0 "out/logo.PNG"
      [("compress_level"%string, Config.VInt 6);
       ("optimize"%string, Config.VBool true)].
Proof.
  split.
  - apply (@save_image_keeps_other_formats disk system paths processor 1%nat
             "out/logo.webp" None studio). reflexivity.
  - destruct (@save_image_keeps_other_formats disk system paths processor 1%nat
                "out/logo.PNG" None studio) as (_ & _ & Hsave).
    destruct (Hsave logo0 ltac:(reflexivity)) as (Hpng & _).
    apply Hpng. reflexivity.
Defined.

Lemma load_logo_result_witness :
  exists self' s' lg,
    load_logo init "in/logo.png" (start desk) = (Return (true, self'), s') /\
    objects s' = [lg; lg] /\ current_logo self' = Some 1%nat /\
    im_size lg = (200, 100) /\ im_mode lg = RGBA.
Proof.
  destruct (@load_logo_result disk system paths init "in/logo.png" (start desk))
    as (ok & self' & s' & Hrun & _ & _ & _ & Hok).
  assert (Htrue : ok = true).
  { assert (Hfst : fst (load_logo init "in/logo.png" (start desk))
                   = Return (ok, self')) by (rewrite Hrun; reflexivity).
    vm_compute in Hfst. injection Hfst as <- _. reflexivity. }
  subst ok.
  destruct (Hok ltac:(reflexivity)) as (_ & _ & img & lg & Hopen & Hobj & Hlogo & Hsize & Hmode).
  injection Hopen as <-.
  exists self', s', lg. split; [exact Hrun|]. split; [exact Hobj|].
  split; [exact Hlogo|]. split; [exact Hsize|exact Hmode].
Defined.

Lemma batch_process_results_witness :
  exists s',
    batch_process nearest scale_byte half processor
      ["in/photo.JPG"; "in/none.png"; "in/huge.png"]%string "out" None kw0 studio
      = (Return ["out/photo_with_logo.jpg"%string], s') /\
    sublist ["out/photo_with_logo.jpg"%string]
      (map (output_file "out")
           ["in/photo.JPG"; "in/none.png"; "in/huge.png"]%string) /\
    last (events s') = Some (Logged (Info_batch_done 1 3)).
Proof.
  destruct (@batch_process_results disk system paths nearest scale_byte half
              processor ["in/photo.JPG"; "in/none.png"; "in/huge.png"]%string
              "out" None kw0 studio) as (_ & Hlist & Hreturns).
  destruct (Hreturns ltac:(exists 1%nat; reflexivity) ltac:(reflexivity) desk
              ltac:(reflexivity)) as (l & s' & Hrun).
  assert (Hl : l = ["out/photo_with_logo.jpg"%string]).
  { assert (Hfst : fst (batch_process nearest scale_byte half processor
                          ["in/photo.JPG"; "in/none.png"; "in/huge.png"]%string
                          "out" None kw0 studio) = Return l)
      by (rewrite Hrun; reflexivity).
    vm_compute in Hfst. injection Hfst as <-. reflexivity. }
  subst l. exists s'. split; [exact Hrun|].
  destruct (Hlist _ s' Hrun) as (Hsub & _ & Hlast).
  split; [exact Hsub|]. apply Hlast. exists 1%nat. reflexivity.
Defined.

End Sample_runs.
